(** * Notion -> Postgres sync worker: schema translation and sync core

    A shallow embedding of
      - [src/db/schema-sync.ts]   (sanitizeColumnName, getTableName,
                                   fetchNotionSchema, syncSchema),
      - [src/db/queries.ts]       (tableExists, getTableColumns, executeRaw,
                                   upsertRecord),
      - [src/notion/page-reader.ts]        (extractPropertyValue),
      - [src/notion/markdown-converter.ts] (pageToMarkdown),
      - [src/sync/notion-to-postgres.ts]   (runSync),
    followed by the properties proved about them. *)

From Stdlib Require Import NArith List String Ascii Bool Lia DecimalString.
From stdpp Require Import base option list gmap.

Local Open Scope N_scope.
Set Warnings "-register-all".

(** ** JavaScript strings

    A JavaScript string is a sequence of UTF-16 code units.  The regular
    expressions of the program carry no [u] flag, so they work on code units
    as well. *)

Abbreviation jstring := (list N).

(** A literal of the source, read as code units. *)
Definition js (s : string) : jstring :=
  List.map N_of_ascii (list_ascii_of_string s).
Arguments js : simpl never.

Definition u_us : N := 95.   (* "_" *)

Definition is_lower (c : N) : bool := (97 <=? c) && (c <=? 122).
Definition is_upper (c : N) : bool := (65 <=? c) && (c <=? 90).
Definition is_digit (c : N) : bool := (48 <=? c) && (c <=? 57).
Definition is_alnum (c : N) : bool := is_lower c || is_digit c.
(** The character class [[a-z0-9_]]. *)
Definition is_word (c : N) : bool := is_alnum c || (c =? u_us).

Module Sanitize.

(** [String.prototype.toLowerCase], one code unit at a time.  [A-Z] go to
    [a-z]; two units outside ASCII have a lower-case form that contains an
    ASCII letter: U+212A (Kelvin sign) gives "k" and U+0130 gives "i"
    followed by U+0307.  The lower-case form of any other unit lies outside
    [[a-z0-9_]] as the unit itself does, and the unit is kept: the
    replacement that follows sends either to "_". *)
Definition lower_unit (c : N) : list N :=
  if is_upper c then [c + 32]
  else if c =? 0x212A then [107]
  else if c =? 0x130 then [105; 0x307]
  else [c].

Definition toLowerCase (s : jstring) : jstring := flat_map lower_unit s.

(** [.replace(/[^a-z0-9_]/g, "_")] *)
Definition replace_non_word (s : jstring) : jstring :=
  List.map (fun c => if is_word c then c else u_us) s.

(** The leading run of "_" removed: the [^_+] alternative. *)
Fixpoint drop_us (s : jstring) : jstring :=
  match s with
  | c :: r => if c =? u_us then drop_us r else s
  | [] => []
  end.

(** [.replace(/^_+|_+$/g, empty)]: the run of "_" at the start and the run
    at the end are removed; a run in the middle matches neither alternative. *)
Definition strip_us (s : jstring) : jstring :=
  rev (drop_us (rev (drop_us s))).

(** [.replace(/_+/g, "_")]: every run of "_" becomes one "_" (an "_"
    followed by another one is dropped). *)
Fixpoint collapse_us (s : jstring) : jstring :=
  match s with
  | [] => []
  | c :: r =>
      match r with
      | c' :: _ => if (c =? u_us) && (c' =? u_us) then collapse_us r
                   else c :: collapse_us r
      | [] => [c]
      end
  end.

Definition sanitizeColumnName (name : jstring) : jstring :=
  collapse_us (strip_us (replace_non_word (toLowerCase name))).

(** Acceptance by [^[a-z0-9]([a-z0-9_]*[a-z0-9])?$]. *)
Definition matches_ident (s : jstring) : bool :=
  match s with
  | [] => false
  | c :: r =>
      is_alnum c &&
      match r with
      | [] => true
      | _ :: _ => forallb is_word r && is_alnum (List.last r 0)
      end
  end.

(** No two "_" in a row. *)
Fixpoint no_double_us (s : jstring) : bool :=
  match s with
  | c :: r =>
      match r with
      | c' :: _ => negb ((c =? u_us) && (c' =? u_us)) && no_double_us r
      | [] => true
      end
  | [] => true
  end.

Definition head_ok (s : jstring) : bool :=
  match s with c :: _ => negb (c =? u_us) | [] => true end.

Fixpoint last_ok (s : jstring) : bool :=
  match s with
  | [] => true
  | c :: r => match r with [] => negb (c =? u_us) | _ :: _ => last_ok r end
  end.

(** Shape of a sanitised name. *)
Definition clean (s : jstring) : Prop :=
  forallb is_word s = true /\ head_ok s = true /\ last_ok s = true
  /\ no_double_us s = true.

End Sanitize.

(** ** JavaScript values

    Page properties reach the program as parsed JSON, typed [unknown] in
    [extractPropertyValue].  A number is carried by the decimal text
    JavaScript prints for it: the program never computes with a property
    number, it only tests it, prints it and passes it on. *)

Inductive value : Type :=
| VUndefined
| VNull
| VBool (b : bool)
| VNum (repr : jstring)
| VStr (s : jstring)
| VArr (items : list value)
| VObj (fields : list (jstring * value)).

Definition jstring_eqb (a b : jstring) : bool := bool_decide (a = b).

(** *** Objects used as dictionaries

    The own enumerable string-keyed properties in the order [Object.entries]
    lists them.  Keys are unique.  Reading ignores the prototype chain, and
    the order of integer-like keys (which JavaScript lists first) is taken as
    given by whoever built the list. *)

Fixpoint obj_get {A} (k : jstring) (o : list (jstring * A)) : option A :=
  match o with
  | [] => None
  | (k', v) :: r => if jstring_eqb k k' then Some v else obj_get k r
  end.

Fixpoint obj_put {A} (k : jstring) (v : A) (o : list (jstring * A))
  : list (jstring * A) :=
  match o with
  | [] => [(k, v)]
  | (k', v') :: r =>
      if jstring_eqb k k' then (k, v) :: r else (k', v') :: obj_put k v r
  end.

(** [o[k] = v] on an object born from a literal: the key keeps its place
    when it is there already and goes last otherwise; assigning an object to
    ["__proto__"] swaps the prototype and makes no own property. *)
Definition obj_set {A} (k : jstring) (v : A) (o : list (jstring * A))
  : list (jstring * A) :=
  if jstring_eqb k (js "__proto__") then o else obj_put k v o.

Definition obj_keys {A} (o : list (jstring * A)) : list jstring := o.*1.
Definition obj_values {A} (o : list (jstring * A)) : list A := o.*2.

(** *** Exceptions

    An exception is what the handlers of the program observe of it: the
    text [`${error}`] prints, [name: message].  The messages of the errors
    the engine raises itself are worded as V8 words them. *)

Inductive exn : Type := JsError (name message : jstring).

Definition render_exn (e : exn) : jstring :=
  match e with JsError n m => n ++ js ": " ++ m end.

Definition TypeError (m : jstring) : exn := JsError (js "TypeError") m.
Definition Error (m : jstring) : exn := JsError (js "Error") m.

Inductive res (A : Type) : Type :=
| Ok (a : A)
| Throw (e : exn).
Arguments Ok {A} a.
Arguments Throw {A} e.

Definition res_bind {A B} (r : res A) (k : A -> res B) : res B :=
  match r with Ok a => k a | Throw e => Throw e end.

Fixpoint res_mapM {A B} (f : A -> res B) (l : list A) : res (list B) :=
  match l with
  | [] => Ok []
  | a :: r => res_bind (f a) (fun b => res_bind (res_mapM f r) (fun bs => Ok (b :: bs)))
  end.

(** *** Operators *)

Definition nullish (v : value) : bool :=
  match v with VUndefined | VNull => true | _ => false end.

(** ToBoolean.  A number is falsy when it is 0, -0 (both print "0") or NaN. *)
Definition truthy (v : value) : bool :=
  match v with
  | VUndefined | VNull => false
  | VBool b => b
  | VNum r => negb (jstring_eqb r (js "0") || jstring_eqb r (js "NaN"))
  | VStr s => negb (jstring_eqb s [])
  | VArr _ | VObj _ => true
  end.

(** [a ?? b] *)
Definition coalesce (a b : value) : value := if nullish a then b else a.

(** [v.k] for a key [k] that no built-in prototype defines (every key the
    program reads is such a key): a TypeError on [undefined] and [null], the
    own property of an object, [undefined] anywhere else. *)
Definition member (k : jstring) (v : value) : res value :=
  match v with
  | VUndefined | VNull =>
      Throw (TypeError (js "Cannot read properties of " ++
                        (if v is VNull then js "null" else js "undefined") ++
                        js " (reading '" ++ k ++ js "')"))
  | VObj fs => Ok (default VUndefined (obj_get k fs))
  | _ => Ok VUndefined
  end.

(** [v?.k] *)
Definition opt_member (k : jstring) (v : value) : res value :=
  if nullish v then Ok VUndefined else member k v.

(** [v?.map(f)] on a value [v] that is neither [undefined] nor [null]: only
    an array has a callable [map].  [what] is the name of the variable, for
    the message. *)
Definition array_map (what : jstring) (f : value -> res value) (v : value)
  : res (list value) :=
  match v with
  | VArr l => res_mapM f l
  | _ => Throw (TypeError (what ++ js "?.map is not a function"))
  end.

Fixpoint join (sep : jstring) (l : list jstring) : jstring :=
  match l with
  | [] => []
  | [a] => a
  | a :: r => a ++ sep ++ join sep r
  end.

(** ToString, and [Array.prototype.join], which prints [undefined] and
    [null] as the empty string.  An array prints as its elements joined by
    commas.  An object prints through the [toString] it finds: the inherited
    one answers [[object Object]]; an own member of that name is data, not a
    function, and the conversion is then a TypeError. *)
Fixpoint toString (v : value) : res jstring :=
  match v with
  | VUndefined => Ok (js "undefined")
  | VNull => Ok (js "null")
  | VBool true => Ok (js "true")
  | VBool false => Ok (js "false")
  | VNum r => Ok r
  | VStr s => Ok s
  | VArr l =>
      res_bind (res_mapM (fun x => if nullish x then Ok [] else toString x) l)
               (fun parts => Ok (join (js ",") parts))
  | VObj fs =>
      match obj_get (js "toString") fs with
      | Some _ => Throw (TypeError (js "Cannot convert object to primitive value"))
      | None => Ok (js "[object Object]")
      end
  end.

Definition array_join (sep : jstring) (l : list value) : res jstring :=
  res_bind (res_mapM (fun x => if nullish x then Ok [] else toString x) l)
           (fun parts => Ok (join sep parts)).

(** *** JSON.stringify *)

Definition hex_digit (d : N) : N := if d <? 10 then 48 + d else 87 + d.

Definition hex4 (c : N) : jstring :=
  [hex_digit (c / 4096 mod 16); hex_digit (c / 256 mod 16);
   hex_digit (c / 16 mod 16); hex_digit (c mod 16)].

Definition is_high_surrogate (c : N) : bool := (0xD800 <=? c) && (c <=? 0xDBFF).
Definition is_low_surrogate (c : N) : bool := (0xDC00 <=? c) && (c <=? 0xDFFF).

Definition quote_unit (c : N) : jstring :=
  if c =? 8 then js "\b"
  else if c =? 9 then js "\t"
  else if c =? 10 then js "\n"
  else if c =? 12 then js "\f"
  else if c =? 13 then js "\r"
  else if c =? 34 then [92; 34]
  else if c =? 92 then [92; 92]
  else if (c <? 32) || is_high_surrogate c || is_low_surrogate c
       then js "\u" ++ hex4 c
  else [c].

(** The body of QuoteJSONString: a surrogate pair is copied, a lone
    surrogate is escaped. *)
Fixpoint quote_units (s : jstring) : jstring :=
  match s with
  | [] => []
  | c :: r =>
      match r with
      | c' :: r' =>
          if is_high_surrogate c && is_low_surrogate c'
          then c :: c' :: quote_units r'
          else quote_unit c ++ quote_units r
      | [] => quote_unit c
      end
  end.

Definition quote_json (s : jstring) : jstring := [34] ++ quote_units s ++ [34].

Definition finite_repr (r : jstring) : bool :=
  negb (jstring_eqb r (js "NaN") || jstring_eqb r (js "Infinity")
        || jstring_eqb r (js "-Infinity")).

(** [JSON.stringify(v)]; [None] is the [undefined] it returns for
    [undefined]. *)
Fixpoint JSON_stringify (v : value) : option jstring :=
  match v with
  | VUndefined => None
  | VNull => Some (js "null")
  | VBool true => Some (js "true")
  | VBool false => Some (js "false")
  | VNum r => Some (if finite_repr r then r else js "null")
  | VStr s => Some (quote_json s)
  | VArr l =>
      Some (js "[" ++
            join (js ",")
                 (List.map (fun x => default (js "null") (JSON_stringify x)) l)
            ++ js "]")
  | VObj fs =>
      Some (js "{" ++
            join (js ",")
                 (List.flat_map
                    (fun kv =>
                       match JSON_stringify (snd kv) with
                       | Some t => [quote_json (fst kv) ++ js ":" ++ t]
                       | None => []
                       end) fs)
            ++ js "}")
  end.

(** ** Shared types ([src/sync/types.ts]) *)

Inductive NotionPropertyType : Type :=
| P_title | P_rich_text | P_number | P_select | P_multi_select | P_date
| P_checkbox | P_url | P_email | P_phone_number | P_formula | P_relation
| P_rollup | P_created_time | P_created_by | P_last_edited_time
| P_last_edited_by | P_files | P_people | P_status | P_unique_id.

Definition all_property_types : list NotionPropertyType :=
  [P_title; P_rich_text; P_number; P_select; P_multi_select; P_date;
   P_checkbox; P_url; P_email; P_phone_number; P_formula; P_relation;
   P_rollup; P_created_time; P_created_by; P_last_edited_time;
   P_last_edited_by; P_files; P_people; P_status; P_unique_id].

Definition type_tag (t : NotionPropertyType) : jstring :=
  match t with
  | P_title => js "title" | P_rich_text => js "rich_text"
  | P_number => js "number" | P_select => js "select"
  | P_multi_select => js "multi_select" | P_date => js "date"
  | P_checkbox => js "checkbox" | P_url => js "url" | P_email => js "email"
  | P_phone_number => js "phone_number" | P_formula => js "formula"
  | P_relation => js "relation" | P_rollup => js "rollup"
  | P_created_time => js "created_time" | P_created_by => js "created_by"
  | P_last_edited_time => js "last_edited_time"
  | P_last_edited_by => js "last_edited_by" | P_files => js "files"
  | P_people => js "people" | P_status => js "status"
  | P_unique_id => js "unique_id"
  end.

(** The member of the union a string is, if any.  (The tags Notion reports
    are never names of [Object.prototype].) *)
Definition property_type_of (tag : jstring) : option NotionPropertyType :=
  List.find (fun t => jstring_eqb (type_tag t) tag) all_property_types.

Record PropertyMapping : Type := {
  notionType : NotionPropertyType;
  postgresType : jstring;
  columnName : jstring;
}.

(** [SchemaMapping]: property name -> property mapping. *)
Abbreviation SchemaMapping := (list (jstring * PropertyMapping)).

Record SyncState : Type := {
  lastSyncTime : option jstring;
  cursor : option jstring;
}.

Record SyncResult : Type := {
  processedCount : nat;
  errorCount : nat;
  errors : list jstring;
}.

(** Of the three fields of a row of [information_schema.columns] the
    program reads [column_name] only. *)
Record TableColumn : Type := {
  column_name : jstring;
  data_type : jstring;
  is_nullable : jstring;
}.

Record SchemaSyncResult : Type := {
  created : bool;
  columnsAdded : list jstring;
}.

Record SyncOptions : Type := {
  databaseId : jstring;
  pageSize : option N;
}.

Record RunSyncOutput : Type := {
  result : SyncResult;
  nextState : option SyncState;
  hasMore : bool;
}.

Record SyncRecord : Type := {
  notion_page_id : jstring;
  page_content : jstring;
  synced_at : jstring;
  properties : list (jstring * value);
}.

(** ** The Notion client

    What the remote workspace answers.  A page of a query result is a full
    page object or a partial one, which has an [id] only. *)

Record Page : Type := {
  page_id : jstring;
  page_properties : option (list (jstring * value));
  page_last_edited_time : option jstring;
}.

Record QueryParams : Type := {
  database_id : jstring;
  page_size : N;
  sort_last_edited_ascending : bool;
  start_cursor : option jstring;
  filter_edited_after : option jstring;
}.

Record QueryResponse : Type := {
  results : list Page;
  has_more : bool;
  next_cursor : option jstring;
}.

Record Client : Type := {
  (** [databases.retrieve]: the entries (name, type tag) of [properties],
      [None] when the answer has no [properties]. *)
  databases_retrieve : jstring -> res (option (list (jstring * jstring)));
  databases_query : QueryParams -> res QueryResponse;
  (** notion-to-md on this workspace, given the block types it was told to
      blank: the [parent] of [toMarkdownString(pageToMarkdown(id))]. *)
  n2m_parent : list jstring -> jstring -> res (option jstring);
  (** [new Date().toISOString()]; the clock does not advance within an
      invocation. *)
  now : jstring;
}.

(** ** The relational engine

    The statements the program sends, and what the engine does with them: a
    catalogue of tables.  A column is stored under the first 63 bytes of the
    name written for it, which is all the engine keeps of an identifier, and
    no column can take the name of a system column.  A table name is kept as
    written: those the program derives have 27 code units at most.  Each
    statement applies as a whole or fails and changes nothing, and there is
    no transaction across statements.  [SelectTableExists] and
    [SelectColumns] are the two queries on [information_schema]; [Upsert] is
    the [INSERT ... ON CONFLICT (notion_page_id) DO UPDATE] that overwrites
    every other listed column, with its parameters. *)

Record ColumnDef : Type := {
  cd_name : jstring;
  cd_quoted : bool;
  cd_type : jstring;
  cd_clause : jstring;    (* what follows the type: PRIMARY KEY, DEFAULT ... *)
}.

Inductive Stmt : Type :=
| SelectTableExists (t : jstring)
| SelectColumns (t : jstring)
| CreateTable (t : jstring) (defs : list ColumnDef)
| AddColumn (t : jstring) (def : ColumnDef)
| Upsert (t : jstring) (cols : list jstring) (vals : list value).

Definition render_def (d : ColumnDef) : jstring :=
  (if cd_quoted d then [34] ++ cd_name d ++ [34] else cd_name d)
  ++ js " " ++ cd_type d
  ++ (if jstring_eqb (cd_clause d) [] then [] else js " " ++ cd_clause d).

Definition quote_ident (name : jstring) : jstring := [34] ++ name ++ [34].

(** The text of the two DDL statements, as [syncSchema] builds it. *)
Definition render_ddl (st : Stmt) : option jstring :=
  match st with
  | CreateTable t defs =>
      Some (js "CREATE TABLE " ++ quote_ident t ++ js " ("
            ++ join (js ", ") (List.map render_def defs) ++ js ")")
  | AddColumn t d =>
      Some (js "ALTER TABLE " ++ quote_ident t ++ js " ADD COLUMN " ++ render_def d)
  | _ => None
  end.

Record PgColumn : Type := {
  pg_name : jstring;
  pg_type : jstring;
  pg_pk : bool;
}.

Record PgTable : Type := {
  pg_columns : list PgColumn;
  pg_rows : gmap (list N) (list (jstring * value));
}.

Record SqlClient : Type := {
  (** Whether the engine takes a parameter for a column of a type. *)
  pg_accepts : jstring -> value -> bool;
}.

Inductive Rows : Type :=
| RowsNone
| RowsExists (b : bool)
| RowsColumns (cols : list TableColumn).

Definition pg_error (m : jstring) : exn := JsError (js "NeonDbError") m.

(** The bytes a code unit takes in UTF-8.  A character outside the basic
    plane takes four: they are counted on its high surrogate, and none on
    the low surrogate that follows, so that the two stay together. *)
Definition utf8_width (c : N) : nat :=
  if c <? 0x80 then 1
  else if c <? 0x800 then 2
  else if (0xD800 <=? c) && (c <? 0xDC00) then 4
  else if (0xDC00 <=? c) && (c <? 0xE000) then 0
  else 3.

(** The longest prefix of whole characters within a number of bytes. *)
Fixpoint clip (budget : nat) (s : jstring) : jstring :=
  match s with
  | [] => []
  | c :: r =>
      if (utf8_width c <=? budget)%nat then c :: clip (budget - utf8_width c) r
      else []
  end.

(** What the engine keeps of an identifier: [NAMEDATALEN - 1] bytes. *)
Definition pg_ident (name : jstring) : jstring := clip 63 name.

Definition system_columns : list jstring :=
  [js "tableoid"; js "xmin"; js "cmin"; js "xmax"; js "cmax"; js "ctid"].

Definition is_system_column (c : jstring) : bool :=
  existsb (jstring_eqb c) system_columns.

Definition column_of_def (d : ColumnDef) : PgColumn :=
  {| pg_name := pg_ident (cd_name d); pg_type := cd_type d;
     pg_pk := jstring_eqb (cd_clause d) (js "PRIMARY KEY") |}.

Definition has_column (c : jstring) (cols : list PgColumn) : bool :=
  existsb (fun x => jstring_eqb (pg_name x) c) cols.

Fixpoint has_dup (l : list jstring) : bool :=
  match l with
  | [] => false
  | a :: r => existsb (jstring_eqb a) r || has_dup r
  end.

Definition pk_name : jstring := js "notion_page_id".

Definition row_update (cols : list jstring) (vals : list value)
                      (old : list (jstring * value)) : list (jstring * value) :=
  fold_left (fun row kv => obj_put (fst kv) (snd kv) row) (combine cols vals) old.

(** A row is kept as the values last written to it, under the column names
    of the statements that wrote them; the value of the key is the one
    written for [notion_page_id] (no longer name is cut to that one). *)
Definition pg_run (sql : SqlClient) (st : Stmt) (db : gmap (list N) PgTable)
  : res Rows * gmap (list N) PgTable :=
  match st with
  | SelectTableExists t => (Ok (RowsExists (bool_decide (is_Some (db !! t)))), db)
  | SelectColumns t =>
      (Ok (RowsColumns
             (List.map (fun c => {| column_name := pg_name c;
                                    data_type := pg_type c;
                                    is_nullable := if pg_pk c then js "NO" else js "YES" |})
                       (default [] (pg_columns <$> db !! t)))), db)
  | CreateTable t defs =>
      if existsb (fun d => jstring_eqb (cd_name d) []) defs then
        (Throw (pg_error (js "zero-length delimited identifier")), db)
      else if bool_decide (is_Some (db !! t)) then
        (Throw (pg_error (js "relation already exists")), db)
      else if has_dup (List.map (fun d => pg_ident (cd_name d)) defs) then
        (Throw (pg_error (js "column specified more than once")), db)
      else if existsb (fun d => is_system_column (pg_ident (cd_name d))) defs then
        (Throw (pg_error (js "column name conflicts with a system column name")), db)
      else
        (Ok RowsNone,
         <[t := {| pg_columns := List.map column_of_def defs; pg_rows := ∅ |}]> db)
  | AddColumn t d =>
      if jstring_eqb (cd_name d) [] then
        (Throw (pg_error (js "zero-length delimited identifier")), db)
      else
        match db !! t with
        | None => (Throw (pg_error (js "relation does not exist")), db)
        | Some tbl =>
            if is_system_column (pg_ident (cd_name d)) then
              (Throw (pg_error (js "column name conflicts with a system column name")),
               db)
            else if has_column (pg_ident (cd_name d)) (pg_columns tbl) then
              (Throw (pg_error (js "column already exists")), db)
            else
              (Ok RowsNone,
               <[t := {| pg_columns := pg_columns tbl ++ [column_of_def d];
                         pg_rows := pg_rows tbl |}]> db)
        end
  | Upsert t cols vals =>
      match db !! t with
      | None => (Throw (pg_error (js "relation does not exist")), db)
      | Some tbl =>
          if negb (forallb (fun c => has_column (pg_ident c) (pg_columns tbl)) cols) then
            (Throw (pg_error (js "column does not exist")), db)
          else if has_dup (List.map pg_ident cols) then
            (Throw (pg_error (js "column specified more than once")), db)
          else if negb (existsb (fun c => jstring_eqb (pg_name c) pk_name && pg_pk c)
                                (pg_columns tbl)) then
            (Throw (pg_error (js "no unique constraint matching ON CONFLICT")), db)
          else if negb (forallb
                          (fun cv =>
                             existsb (fun c => jstring_eqb (pg_name c) (pg_ident (fst cv))
                                               && pg_accepts sql (pg_type c) (snd cv))
                                     (pg_columns tbl))
                          (combine cols vals)) then
            (Throw (pg_error (js "invalid input value")), db)
          else
            match obj_get pk_name (combine cols vals) with
            | Some (VStr id) =>
                (Ok RowsNone,
                 <[t := {| pg_columns := pg_columns tbl;
                           pg_rows := <[id := row_update cols vals
                                               (default [] (pg_rows tbl !! id))]>
                                        (pg_rows tbl) |}]> db)
            | _ => (Throw (pg_error (js "null value in primary key")), db)
            end
      end
  end.

(** ** Program state and effects

    What an invocation changes: the tables behind the SQL handle, and the
    calls it makes to its collaborators and to the logger, in order. *)

Inductive Level : Type := INFO | WARN | ERROR.

Inductive Event : Type :=
| EvLog (lvl : Level) (scope msg : jstring)
| EvSql (st : Stmt)
| EvRetrieve (id : jstring)
| EvQuery (p : QueryParams)
| EvMarkdown (skip : list jstring) (id : jstring).

Record State : Type := {
  tables : gmap (list N) PgTable;
  trace : list Event;
}.

Definition M (A : Type) : Type := State -> res A * State.

Definition ret {A} (a : A) : M A := fun s => (Ok a, s).

Definition bind {A B} (m : M A) (k : A -> M B) : M B :=
  fun s => match m s with
           | (Ok a, s') => k a s'
           | (Throw e, s') => (Throw e, s')
           end.

Definition throw {A} (e : exn) : M A := fun s => (Throw e, s).

(** [try { m } catch (error) { h error }] *)
Definition try_catch {A} (m : M A) (h : exn -> M A) : M A :=
  fun s => match m s with
           | (Ok a, s') => (Ok a, s')
           | (Throw e, s') => h e s'
           end.

Definition lift {A} (r : res A) : M A := fun s => (r, s).

Definition emit (e : Event) : M unit :=
  fun s => (Ok tt, {| tables := tables s; trace := trace s ++ [e] |}).

Declare Scope sync_scope.
Delimit Scope sync_scope with sync.
Notation "'let*' x ':=' c1 'in' c2" := (bind c1 (fun x => c2))
  (at level 10, x name, c1 at level 100, c2 at level 200) : sync_scope.
Local Open Scope sync_scope.

(** [for (const x of l) acc = body(acc, x)] *)
Fixpoint for_of {A B} (l : list A) (acc : B) (body : B -> A -> M B) : M B :=
  match l with
  | [] => ret acc
  | x :: r => let* acc' := body acc x in for_of r acc' body
  end.

(** [createLogger(scope)] and its [info], [warn], [error].  The logger
    module is not among the sources at hand: a call to it is recorded, with
    its level, scope and message, whatever the logger then does with it. *)
Definition log (lvl : Level) (scope msg : jstring) : M unit :=
  emit (EvLog lvl scope msg).

(** A count printed in a template literal. *)
Definition nat_str (n : nat) : jstring :=
  js (NilZero.string_of_uint (Nat.to_uint n)).

(** ** [src/db/queries.ts] *)

Definition sql_query (sql : SqlClient) (st : Stmt) : M Rows :=
  fun s =>
    let '(r, db) := pg_run sql st (tables s) in
    (r, {| tables := db; trace := trace s ++ [EvSql st] |}).

(** [result[0]?.exists === true] *)
Definition tableExists (sql : SqlClient) (tableName : jstring) : M bool :=
  let* rows := sql_query sql (SelectTableExists tableName) in
  ret (match rows with RowsExists b => b | _ => false end).

Definition getTableColumns (sql : SqlClient) (tableName : jstring)
  : M (list TableColumn) :=
  let* rows := sql_query sql (SelectColumns tableName) in
  ret (match rows with RowsColumns cols => cols | _ => [] end).

Definition executeRaw (sql : SqlClient) (query : Stmt) : M Rows :=
  sql_query sql query.

(** The statement [upsertRecord] sends: the three special columns and the
    property columns, with the values in the same order; a property the
    record lacks is sent as [undefined]. *)
Definition upsert_stmt (tableName : jstring) (record : SyncRecord)
                       (columns : list jstring) : Stmt :=
  let allColumns :=
    [js "notion_page_id"; js "page_content"; js "synced_at"] ++ columns in
  let values :=
    [VStr (notion_page_id record); VStr (page_content record);
     VStr (synced_at record)]
    ++ List.map (fun col => default VUndefined (obj_get col (properties record)))
                columns in
  Upsert tableName allColumns values.

Definition upsertRecord (sql : SqlClient) (tableName : jstring)
                        (record : SyncRecord) (columns : list jstring) : M unit :=
  let* _ := sql_query sql (upsert_stmt tableName record columns) in
  log INFO (js "db-queries") (js "Upserted record: " ++ notion_page_id record).

(** ** [src/db/schema-sync.ts] *)

Definition TYPE_MAP (t : NotionPropertyType) : jstring :=
  match t with
  | P_title => js "TEXT"
  | P_rich_text => js "TEXT"
  | P_number => js "NUMERIC"
  | P_select => js "TEXT"
  | P_multi_select => js "TEXT[]"
  | P_date => js "TIMESTAMPTZ"
  | P_checkbox => js "BOOLEAN"
  | P_url => js "TEXT"
  | P_email => js "TEXT"
  | P_phone_number => js "TEXT"
  | P_formula => js "TEXT"
  | P_relation => js "TEXT[]"
  | P_rollup => js "TEXT"
  | P_created_time => js "TIMESTAMPTZ"
  | P_created_by => js "TEXT"
  | P_last_edited_time => js "TIMESTAMPTZ"
  | P_last_edited_by => js "TEXT"
  | P_files => js "TEXT[]"
  | P_people => js "TEXT[]"
  | P_status => js "TEXT"
  | P_unique_id => js "TEXT"
  end.

Definition sanitizeColumnName := Sanitize.sanitizeColumnName.

(** [databaseId.replace(/-/g, "_").substring(0, 20)] behind ["notion_"]. *)
Definition getTableName (databaseId : jstring) : jstring :=
  js "notion_"
  ++ firstn 20 (List.map (fun c => if c =? 45 then u_us else c) databaseId).

Definition schema_log : jstring := js "schema-sync".

(** The body of the loop over [Object.entries(db.properties)]. *)
Definition schema_entry (mapping : SchemaMapping) (entry : jstring * jstring)
  : M SchemaMapping :=
  let '(propName, tag) := entry in
  match property_type_of tag with
  | Some notionType =>
      ret (obj_set propName
                   {| notionType := notionType;
                      postgresType := TYPE_MAP notionType;
                      columnName := sanitizeColumnName propName |}
                   mapping)
  | None =>
      let* _ := log WARN schema_log
                    (js "Unsupported property type: " ++ tag
                     ++ js " for property: " ++ propName) in
      ret mapping
  end.

Definition fetchNotionSchema (notion : Client) (databaseId : jstring)
  : M SchemaMapping :=
  let* _ := log INFO schema_log
                (js "Fetching schema for database: " ++ databaseId) in
  let* _ := emit (EvRetrieve databaseId) in
  let* db := lift (databases_retrieve notion databaseId) in
  match db with
  | None => throw (Error (js "Unable to retrieve database properties"))
  | Some props =>
      let* mapping := for_of props [] schema_entry in
      let* _ := log INFO schema_log
                    (js "Found " ++ nat_str (length (obj_keys mapping))
                     ++ js " supported properties") in
      ret mapping
  end.

Definition def_notion_page_id : ColumnDef :=
  {| cd_name := js "notion_page_id"; cd_quoted := false;
     cd_type := js "TEXT"; cd_clause := js "PRIMARY KEY" |}.
Definition def_page_content : ColumnDef :=
  {| cd_name := js "page_content"; cd_quoted := false;
     cd_type := js "TEXT"; cd_clause := [] |}.
Definition def_synced_at : ColumnDef :=
  {| cd_name := js "synced_at"; cd_quoted := false;
     cd_type := js "TIMESTAMPTZ"; cd_clause := js "DEFAULT NOW()" |}.

(** [`"${s.columnName}" ${s.postgresType}`] *)
Definition def_of_property (s : PropertyMapping) : ColumnDef :=
  {| cd_name := columnName s; cd_quoted := true;
     cd_type := postgresType s; cd_clause := [] |}.

Definition specialCols : list ColumnDef :=
  [def_notion_page_id; def_page_content; def_synced_at].

(** The body of "Add missing property columns". *)
Definition add_property_column (sql : SqlClient) (tableName : jstring)
    (existingNames : gset (list N))
    (result : SchemaSyncResult) (prop : PropertyMapping) : M SchemaSyncResult :=
  if negb (bool_decide (columnName prop ∈ existingNames)) then
    let* _ := executeRaw sql (AddColumn tableName (def_of_property prop)) in
    let result := {| created := created result;
                     columnsAdded := columnsAdded result ++ [columnName prop] |} in
    let* _ := log INFO schema_log (js "Added column: " ++ columnName prop) in
    ret result
  else ret result.

(** The body of "Ensure special columns exist". *)
Definition add_special_column (sql : SqlClient) (tableName : jstring)
    (existingNames : gset (list N))
    (result : SchemaSyncResult) (col : ColumnDef) : M SchemaSyncResult :=
  if negb (bool_decide (cd_name col ∈ existingNames)) then
    if jstring_eqb (cd_name col) (js "notion_page_id") then
      let* _ := log WARN schema_log
        (js "Table exists but missing notion_page_id column - manual intervention required") in
      ret result
    else
      let* _ := executeRaw sql (AddColumn tableName col) in
      let result := {| created := created result;
                       columnsAdded := columnsAdded result ++ [cd_name col] |} in
      let* _ := log INFO schema_log (js "Added special column: " ++ cd_name col) in
      ret result
  else ret result.

Definition syncSchema (sql : SqlClient) (tableName : jstring)
                      (schema : SchemaMapping) : M SchemaSyncResult :=
  let result := {| created := false; columnsAdded := [] |} in
  let* exists_ := tableExists sql tableName in
  if negb exists_ then
    let columnDefs :=
      [def_notion_page_id; def_page_content; def_synced_at]
      ++ List.map def_of_property (obj_values schema) in
    let* _ := executeRaw sql (CreateTable tableName columnDefs) in
    let* _ := log INFO schema_log (js "Created table: " ++ tableName) in
    ret {| created := true; columnsAdded := columnsAdded result |}
  else
    let* existingCols := getTableColumns sql tableName in
    let existingNames : gset (list N) :=
      list_to_set (List.map column_name existingCols) in
    let* result := for_of (obj_values schema) result
                          (add_property_column sql tableName existingNames) in
    let* result := for_of specialCols result
                          (add_special_column sql tableName existingNames) in
    ret result.

(** ** [src/notion/page-reader.ts] *)

Declare Scope res_scope.
Notation "'let+' x ':=' c1 'in' c2" := (res_bind c1 (fun x => c2))
  (at level 10, x name, c1 at level 100, c2 at level 200) : res_scope.
Local Open Scope res_scope.

(** [prop.k ?? dflt] *)
Definition field_or (k : jstring) (dflt : value) (prop : value) : res value :=
  let+ v := member k prop in Ok (coalesce v dflt).

(** [(prop.k)?.sub ?? null] *)
Definition subfield_or_null (k sub : jstring) (prop : value) : res value :=
  let+ o := member k prop in
  let+ v := opt_member sub o in
  Ok (coalesce v VNull).

(** [const what = prop.k; return what?.map((x) => x.sub) ?? []] *)
Definition pluck_or_empty (what k sub : jstring) (prop : value) : res value :=
  let+ l := member k prop in
  if nullish l then Ok (VArr [])
  else let+ xs := array_map what (member sub) l in Ok (VArr xs).

(** [f.file?.url ?? f.external?.url] *)
Definition file_url (f : value) : res value :=
  let+ file := member (js "file") f in
  let+ u := opt_member (js "url") file in
  if nullish u then
    let+ external := member (js "external") f in
    opt_member (js "url") external
  else Ok u.

(** The arm of the [switch] for a recognised [type]. *)
Definition extract_case (t : NotionPropertyType) (prop : value) : res value :=
  match t with
  | P_title | P_rich_text =>
      let+ items := member (type_tag t) prop in
      if nullish items then Ok (VStr [])
      else
        let+ texts := array_map (js "items") (member (js "plain_text")) items in
        let+ text := array_join [] texts in
        Ok (VStr text)
  | P_number => field_or (js "number") VNull prop
  | P_select => subfield_or_null (js "select") (js "name") prop
  | P_multi_select => pluck_or_empty (js "options") (js "multi_select") (js "name") prop
  | P_date => subfield_or_null (js "date") (js "start") prop
  | P_checkbox => field_or (js "checkbox") (VBool false) prop
  | P_url => field_or (js "url") VNull prop
  | P_email => field_or (js "email") VNull prop
  | P_phone_number => field_or (js "phone_number") VNull prop
  | P_formula =>
      let+ formula := member (js "formula") prop in
      if negb (truthy formula) then Ok VNull
      else
        let+ s := member (js "string") formula in
        let+ n := member (js "number") formula in
        let+ b := member (js "boolean") formula in
        let+ d := member (js "date") formula in
        Ok (coalesce s (coalesce n (coalesce b (coalesce d VNull))))
  | P_relation => pluck_or_empty (js "relations") (js "relation") (js "id") prop
  | P_rollup =>
      let+ rollup := member (js "rollup") prop in
      if negb (truthy rollup) then Ok VNull
      else
        let+ ty := member (js "type") rollup in
        if (if ty is VStr tag then jstring_eqb tag (js "array") else false) then
          let+ arr := member (js "array") rollup in
          Ok (match JSON_stringify arr with
              | Some text => VStr text
              | None => VUndefined
              end)
        else
          let+ n := member (js "number") rollup in
          let+ d := member (js "date") rollup in
          Ok (coalesce n (coalesce d VNull))
  | P_created_time => field_or (js "created_time") VNull prop
  | P_last_edited_time => field_or (js "last_edited_time") VNull prop
  | P_created_by | P_last_edited_by => subfield_or_null (type_tag t) (js "id") prop
  | P_files =>
      let+ files := member (js "files") prop in
      if nullish files then Ok (VArr [])
      else
        let+ urls := array_map (js "files") file_url files in
        Ok (VArr (List.filter truthy urls))
  | P_people => pluck_or_empty (js "people") (js "people") (js "id") prop
  | P_status => subfield_or_null (js "status") (js "name") prop
  | P_unique_id =>
      let+ uid := member (js "unique_id") prop in
      if negb (truthy uid) then Ok VNull
      else
        let+ prefix := member (js "prefix") uid in
        let+ num := member (js "number") uid in
        if truthy prefix
        then
          let+ head := toString prefix in
          let+ tail := toString num in
          Ok (VStr (head ++ js "-" ++ tail))
        else
          let+ text := toString num in
          Ok (VStr text)
  end.

Definition extractPropertyValue (property : value) : M value :=
  match property with
  | VObj _ | VArr _ =>
      let* type := lift (member (js "type") property) in
      match (if type is VStr tag then property_type_of tag else None) with
      | Some t => lift (extract_case t property)
      | None =>
          let* text := lift (toString type) in
          let* _ := log WARN (js "page-reader")
                        (js "Unknown property type: " ++ text) in
          ret VNull
      end
  | _ => ret VNull
  end.

(** ** [src/notion/markdown-converter.ts] *)

Definition SKIP_TYPES : list jstring :=
  [js "image"; js "video"; js "file"; js "pdf"; js "embed"; js "bookmark";
   js "link_preview"; js "audio"].

Definition md_log : jstring := js "markdown-converter".

Definition pageToMarkdown (notion : Client) (pageId : jstring) : M jstring :=
  try_catch
    (let* _ := emit (EvMarkdown SKIP_TYPES pageId) in
     let* parent := lift (n2m_parent notion SKIP_TYPES pageId) in
     let content := default [] parent in
     let* _ := log INFO md_log
                   (js "Converted page " ++ pageId ++ js " to markdown ("
                    ++ nat_str (length content) ++ js " chars)") in
     ret content)
    (fun error =>
       let* _ := log ERROR md_log
                     (js "Failed to convert page " ++ pageId ++ js ": "
                      ++ render_exn error) in
       ret []).

(** ** [src/sync/notion-to-postgres.ts] *)

Definition sync_log : jstring := js "sync".

(** ToBoolean of an optional string field. *)
Definition present (o : option jstring) : bool :=
  match o with Some s => negb (jstring_eqb s []) | None => false end.

(** Step 3: the query. *)
Definition queryParamsOf (options : SyncOptions) (state : option SyncState)
  : QueryParams :=
  let base := {| database_id := databaseId options;
                 page_size := default 100 (pageSize options);
                 sort_last_edited_ascending := true;
                 start_cursor := None;
                 filter_edited_after := None |} in
  if present (state ≫= cursor) then
    {| database_id := database_id base; page_size := page_size base;
       sort_last_edited_ascending := true;
       start_cursor := state ≫= cursor;
       filter_edited_after := None |}
  else if present (state ≫= lastSyncTime) then
    {| database_id := database_id base; page_size := page_size base;
       sort_last_edited_ascending := true;
       start_cursor := None;
       filter_edited_after := state ≫= lastSyncTime |}
  else base.

(** The inner loop of step 4: one property of one page. *)
Definition extract_entry (pageProps : list (jstring * value))
    (properties : list (jstring * value)) (entry : jstring * PropertyMapping)
  : M (list (jstring * value)) :=
  let '(propName, propDef) := entry in
  let notionProp := default VUndefined (obj_get propName pageProps) in
  if truthy notionProp then
    let* v := extractPropertyValue notionProp in
    ret (obj_set (columnName propDef) v properties)
  else ret properties.

(** The [try] block of step 4. *)
Definition syncPage (notion : Client) (sql : SqlClient) (tableName : jstring)
    (schemaMapping : SchemaMapping) (columnNames : list jstring)
    (pageId : jstring) (pageProps : list (jstring * value)) : M unit :=
  let* properties := for_of schemaMapping [] (extract_entry pageProps) in
  let* pageContent := pageToMarkdown notion pageId in
  let record := {| notion_page_id := pageId;
                   page_content := pageContent;
                   synced_at := now notion;
                   properties := properties |} in
  upsertRecord sql tableName record columnNames.

(** The body of the loop of step 4. *)
Definition processPage (notion : Client) (sql : SqlClient) (tableName : jstring)
    (schemaMapping : SchemaMapping) (columnNames : list jstring)
    (result : SyncResult) (page : Page) : M SyncResult :=
  match page_properties page with
  | None => ret result
  | Some pageProps =>
      try_catch
        (let* _ := syncPage notion sql tableName schemaMapping columnNames
                            (page_id page) pageProps in
         ret {| processedCount := S (processedCount result);
                errorCount := errorCount result;
                errors := errors result |})
        (fun error =>
           let errorMsg := js "Page " ++ page_id page ++ js ": "
                           ++ render_exn error in
           let* _ := log ERROR sync_log (js "Failed to sync page: " ++ errorMsg) in
           ret {| processedCount := processedCount result;
                  errorCount := S (errorCount result);
                  errors := errors result ++ [errorMsg] |})
  end.

(** Step 5: the state handed to the next invocation. *)
Definition nextStateOf (state : option SyncState) (queryResult : QueryResponse)
  : option SyncState :=
  if has_more queryResult && present (next_cursor queryResult) then
    Some {| lastSyncTime := state ≫= lastSyncTime;
            cursor := next_cursor queryResult |}
  else
    match last (results queryResult) with
    | Some lastPage =>
        match page_last_edited_time lastPage with
        | Some t => Some {| lastSyncTime := Some t; cursor := None |}
        | None => None
        end
    | None => None
    end.

(** Steps 1 and 2: the schema, reconciled on a first run. *)
Definition prepareSchema (notion : Client) (sql : SqlClient)
    (options : SyncOptions) (state : option SyncState) : M SchemaMapping :=
  let tableName := getTableName (databaseId options) in
  let* _ := log INFO sync_log
                (js "Starting sync for database: " ++ databaseId options
                 ++ js ", table: " ++ tableName) in
  let* schemaMapping := fetchNotionSchema notion (databaseId options) in
  let* _ :=
    match state with
    | None =>
        let* schemaResult := syncSchema sql tableName schemaMapping in
        if created schemaResult then log INFO sync_log (js "Created new table")
        else if (0 <? length (columnsAdded schemaResult))%nat then
          log INFO sync_log
              (js "Added columns: " ++ join (js ", ") (columnsAdded schemaResult))
        else ret tt
    | Some _ => ret tt
    end in
  ret schemaMapping.

Definition bool_str (b : bool) : jstring := if b then js "true" else js "false".

(** Steps 3 to 5. *)
Definition syncBatch (notion : Client) (sql : SqlClient)
    (options : SyncOptions) (state : option SyncState)
    (schemaMapping : SchemaMapping) : M RunSyncOutput :=
  let tableName := getTableName (databaseId options) in
  let queryParams := queryParamsOf options state in
  let* _ := emit (EvQuery queryParams) in
  let* queryResult := lift (databases_query notion queryParams) in
  let* _ := log INFO sync_log
                (js "Queried " ++ nat_str (length (results queryResult))
                 ++ js " pages") in
  let columnNames := List.map columnName (obj_values schemaMapping) in
  let* result :=
    for_of (results queryResult)
           {| processedCount := 0; errorCount := 0; errors := [] |}
           (processPage notion sql tableName schemaMapping columnNames) in
  let hasMore := has_more queryResult in
  let nextState := nextStateOf state queryResult in
  let* _ := log INFO sync_log
                (js "Sync batch complete: " ++ nat_str (processedCount result)
                 ++ js " processed, " ++ nat_str (errorCount result)
                 ++ js " errors, hasMore: " ++ bool_str hasMore) in
  ret {| result := result; nextState := nextState; hasMore := hasMore |}.

Definition runSync (notion : Client) (sql : SqlClient)
    (options : SyncOptions) (state : option SyncState) : M RunSyncOutput :=
  let* schemaMapping := prepareSchema notion sql options state in
  syncBatch notion sql options state schemaMapping.

(** * Specification vocabulary *)

(** The mapping after one entry, apart from the warning. *)
Definition schema_entry_mapping (mapping : SchemaMapping)
    (entry : jstring * jstring) : SchemaMapping :=
  match property_type_of entry.2 with
  | Some t =>
      obj_set entry.1
              {| notionType := t; postgresType := TYPE_MAP t;
                 columnName := sanitizeColumnName entry.1 |}
              mapping
  | None => mapping
  end.

Definition mapping_of (props : list (jstring * jstring)) : SchemaMapping :=
  fold_left schema_entry_mapping props [].


(** The first of the sub-results [keys] of [o] that is populated (neither
    [undefined] nor [null]), in the order listed; [null] when none is.  This
    follows the words of the specification. *)
Fixpoint first_populated (keys : list jstring) (o : list (jstring * value))
  : value :=
  match keys with
  | [] => VNull
  | k :: r =>
      match obj_get k o with
      | Some v => if nullish v then first_populated r o else v
      | None => first_populated r o
      end
  end.

Definition computed_keys : list jstring :=
  [js "string"; js "number"; js "boolean"; js "date"].

(** What [extractPropertyValue] returns, apart from the warning. *)
Definition extract_result (property : value) : res value :=
  match property with
  | VObj _ | VArr _ =>
      let+ type := member (js "type") property in
      match (if type is VStr tag then property_type_of tag else None) with
      | Some t => extract_case t property
      | None => let+ _ := toString type in Ok VNull
      end
  | _ => Ok VNull
  end.

(** The column values of one page: the loop over the schema mapping. *)
Fixpoint extract_all (schemaMapping : SchemaMapping)
    (pageProps : list (jstring * value)) (acc : list (jstring * value))
  : res (list (jstring * value)) :=
  match schemaMapping with
  | [] => Ok acc
  | (propName, propDef) :: rest =>
      let notionProp := default VUndefined (obj_get propName pageProps) in
      if truthy notionProp then
        let+ v := extract_result notionProp in
        extract_all rest pageProps (obj_set (columnName propDef) v acc)
      else extract_all rest pageProps acc
  end.

(** The text [pageToMarkdown] returns. *)
Definition markdown_of (notion : Client) (pageId : jstring) : jstring :=
  match n2m_parent notion SKIP_TYPES pageId with
  | Ok (Some content) => content
  | Ok None | Throw _ => []
  end.

(** How the [try] block of one page ends, and the tables it leaves, when it
    is run against the tables [db]. *)
Definition page_outcome (notion : Client) (sql : SqlClient) (tableName : jstring)
    (schemaMapping : SchemaMapping) (columnNames : list jstring)
    (db : gmap (list N) PgTable)
    (pageId : jstring) (pageProps : list (jstring * value))
  : res unit * gmap (list N) PgTable :=
  match extract_all schemaMapping pageProps [] with
  | Ok properties =>
      let record := {| notion_page_id := pageId;
                       page_content := markdown_of notion pageId;
                       synced_at := now notion;
                       properties := properties |} in
      match pg_run sql (upsert_stmt tableName record columnNames) db with
      | (Ok _, db') => (Ok tt, db')
      | (Throw e, db') => (Throw e, db')
      end
  | Throw e => (Throw e, db)
  end.

(** The message recorded for a page that fails against the tables [db];
    [None] for a page that is skipped or synced. *)
Definition page_error (notion : Client) (sql : SqlClient) (tableName : jstring)
    (schemaMapping : SchemaMapping) (db : gmap (list N) PgTable) (page : Page)
  : option jstring :=
  match page_properties page with
  | None => None
  | Some pageProps =>
      match (page_outcome notion sql tableName schemaMapping
                          (List.map columnName (obj_values schemaMapping))
                          db (page_id page) pageProps).1 with
      | Ok _ => None
      | Throw e => Some (js "Page " ++ page_id page ++ js ": " ++ render_exn e)
      end
  end.

Definition page_synced (notion : Client) (sql : SqlClient) (tableName : jstring)
    (schemaMapping : SchemaMapping) (db : gmap (list N) PgTable) (page : Page)
  : bool :=
  match page_properties page with
  | None => false
  | Some pageProps =>
      match (page_outcome notion sql tableName schemaMapping
                          (List.map columnName (obj_values schemaMapping))
                          db (page_id page) pageProps).1 with
      | Ok _ => true
      | Throw _ => false
      end
  end.

(** The columns of a table, whatever its rows. *)
Definition columns_of (db : gmap (list N) PgTable) (t : jstring)
  : option (list PgColumn) := pg_columns <$> db !! t.

(** The rows of a table. *)
Definition rows_of (db : gmap (list N) PgTable) (t : jstring)
  : gmap (list N) (list (jstring * value)) :=
  default ∅ (pg_rows <$> db !! t).

(** The names [syncSchema] collects from the introspected columns. *)
Definition existing_names (cols : list PgColumn) : gset (list N) :=
  list_to_set (List.map pg_name cols).

(** The query of a first run: no cursor, no filter. *)
Definition full_fetch (options : SyncOptions) : QueryParams :=
  {| database_id := databaseId options;
     page_size := default 100 (pageSize options);
     sort_last_edited_ascending := true;
     start_cursor := None;
     filter_edited_after := None |}.

(** [emits P m]: whatever state [m] starts from and however it ends, it
    only appends to the trace, and each event it appends satisfies [P]. *)
Definition emits {A} (P : Event -> Prop) (m : M A) : Prop :=
  forall s, exists tr, trace (m s).2 = trace s ++ tr /\ Forall P tr.

(** Anything but a statement of schema reconciliation (introspection or
    DDL). *)
Definition not_reconcile (e : Event) : Prop :=
  match e with
  | EvSql (Upsert _ _ _) => True
  | EvSql _ => False
  | _ => True
  end.

(** Anything but an add-column statement for [notion_page_id]. *)
Definition not_add_pk (e : Event) : Prop :=
  match e with
  | EvSql (AddColumn _ d) => cd_name d <> pk_name
  | _ => True
  end.

Definition pk_warning : Event :=
  EvLog WARN schema_log
    (js "Table exists but missing notion_page_id column - manual intervention required").

(** * Sample data *)

Definition init : State := {| tables := ∅; trace := [] |}.

Definition formula_of (o : list (jstring * value)) : list (jstring * value) :=
  [(js "id", VStr (js "f1")); (js "type", VStr (js "formula"));
   (js "formula", VObj o)].

Definition rollup_of (o : list (jstring * value)) : list (jstring * value) :=
  [(js "id", VStr (js "r1")); (js "type", VStr (js "rollup"));
   (js "rollup", VObj o)].

Definition formula_number_3 : list (jstring * value) :=
  [(js "type", VStr (js "number")); (js "number", VNum (js "3"))].

Definition rollup_date : list (jstring * value) :=
  [(js "type", VStr (js "date"));
   (js "date", VObj [(js "start", VStr (js "2024-05-01")); (js "end", VNull)]);
   (js "function", VStr (js "latest_date"))].

Definition rollup_array : list (jstring * value) :=
  [(js "type", VStr (js "array"));
   (js "array", VArr [VObj [(js "type", VStr (js "number"));
                            (js "number", VNum (js "1.5"))];
                      VObj [(js "type", VStr (js "title"));
                            (js "title", VArr [])]]);
   (js "function", VStr (js "show_original"))].

Definition rollup_string : list (jstring * value) :=
  [(js "type", VStr (js "string")); (js "string", VStr (js "x"))].

Definition title_of (text : jstring) : value :=
  VObj [(js "id", VStr (js "title")); (js "type", VStr (js "title"));
        (js "title", VArr [VObj [(js "type", VStr (js "text"));
                                 (js "plain_text", VStr text)]])].

Definition select_of (name : jstring) : value :=
  VObj [(js "id", VStr (js "st")); (js "type", VStr (js "select"));
        (js "select", VObj [(js "id", VStr (js "o1")); (js "name", VStr name)])].

Definition full_page (id title edited : jstring) : Page :=
  {| page_id := id;
     page_properties := Some [(js "Title", title_of title);
                              (js "Status", select_of (js "Done"))];
     page_last_edited_time := Some edited |}.

Definition partial_page (id : jstring) : Page :=
  {| page_id := id; page_properties := None; page_last_edited_time := None |}.

(** A page whose title is not a list of text fragments: extraction raises
    a TypeError on it. *)
Definition bad_page (id edited : jstring) : Page :=
  {| page_id := id;
     page_properties := Some [(js "Title",
                               VObj [(js "type", VStr (js "title"));
                                     (js "title", VNum (js "7"))])];
     page_last_edited_time := Some edited |}.

Definition sample_schema : list (jstring * jstring) :=
  [(js "Title", js "title"); (js "Status", js "select")].

Definition sample_client (props : list (jstring * jstring))
    (answer : QueryResponse) : Client :=
  {| databases_retrieve := fun _ => Ok (Some props);
     databases_query := fun _ => Ok answer;
     n2m_parent := fun _ _ => Ok (Some []);
     now := js "2024-06-01T00:00:00.000Z" |}.

Definition lenient_sql : SqlClient := {| pg_accepts := fun _ _ => true |}.

Definition sample_options : SyncOptions :=
  {| databaseId := js "8a1b2c3d-4e5f-6a7b-8c9d-0e1f2a3b4c5d"; pageSize := None |}.

Definition sample_table : jstring := getTableName (databaseId sample_options).

Definition nothing_more : QueryResponse :=
  {| results := []; has_more := false; next_cursor := None |}.

(** The state a first run leaves: the table of [sample_schema] exists. *)
Definition ready : State :=
  (runSync (sample_client sample_schema nothing_more) lenient_sql
           sample_options None init).2.

Definition watermark_state : SyncState :=
  {| lastSyncTime := Some (js "2024-05-01T10:00:00.000Z"); cursor := None |}.

Definition cursor_state : SyncState :=
  {| lastSyncTime := None; cursor := Some (js "cursor-1") |}.

Definition first_of_two : QueryResponse :=
  {| results := [full_page (js "p1") (js "Hello") (js "2024-05-02T08:00:00.000Z")];
     has_more := true; next_cursor := Some (js "cursor-2") |}.

Definition last_is_partial : QueryResponse :=
  {| results := [full_page (js "p1") (js "Hello") (js "2024-05-02T08:00:00.000Z");
                 partial_page (js "p2")];
     has_more := false; next_cursor := None |}.

Definition last_is_full : QueryResponse :=
  {| results := [full_page (js "p1") (js "Hello") (js "2024-05-02T08:00:00.000Z");
                 full_page (js "p2") (js "World") (js "2024-05-03T09:30:00.000Z")];
     has_more := false; next_cursor := None |}.

Definition empty_with_cursor : QueryResponse :=
  {| results := []; has_more := true; next_cursor := Some (js "cursor-9") |}.

Definition five_pages : QueryResponse :=
  {| results := [full_page (js "p1") (js "A") (js "2024-05-02T08:00:00.000Z");
                 full_page (js "p2") (js "B") (js "2024-05-02T08:01:00.000Z");
                 bad_page (js "p3") (js "2024-05-02T08:02:00.000Z");
                 full_page (js "p4") (js "D") (js "2024-05-02T08:03:00.000Z");
                 full_page (js "p5") (js "E") (js "2024-05-02T08:04:00.000Z")];
     has_more := false; next_cursor := None |}.

(** A database with a property of a long name: its column name has 74
    characters. *)
Definition long_named_schema : list (jstring * jstring) :=
  [(js "Title", js "title");
   (js "Estimated number of working days remaining until the customer go live date",
    js "number")].


Definition colliding_schema : list (jstring * jstring) :=
  [(js "Due Date", js "date"); (js "Due-Date", js "date")].

(** A workspace whose pages cannot be converted to markdown. *)
Definition unconvertible_client (props : list (jstring * jstring))
    (answer : QueryResponse) : Client :=
  {| databases_retrieve := fun _ => Ok (Some props);
     databases_query := fun _ => Ok answer;
     n2m_parent := fun _ _ =>
       Throw (JsError (js "APIResponseError") (js "Could not find block"));
     now := js "2024-06-01T00:00:00.000Z" |}.

Definition title_only : list (jstring * PropertyMapping) :=
  [(js "Title", {| notionType := P_title; postgresType := js "TEXT";
                   columnName := js "title" |})].

(** A table made by other means: it has a title column and none of the
    special columns. *)
Definition legacy : State :=
  {| tables := {[ sample_table :=
                    {| pg_columns := [ {| pg_name := js "title";
                                          pg_type := js "TEXT";
                                          pg_pk := false |} ];
                       pg_rows := ∅ |} ]};
     trace := [] |}.

(** A property whose name sanitises to the name of the key column. *)
Definition pk_named_schema : list (jstring * jstring) :=
  [(js "Title", js "title"); (js "Notion Page ID", js "rich_text")].

(** An engine that refuses the text "B" in any column. *)
Definition picky_sql : SqlClient :=
  {| pg_accepts := fun _ v =>
       match v with VStr s => negb (jstring_eqb s (js "B")) | _ => true end |}.

Definition five_full_pages : QueryResponse :=
  {| results := [full_page (js "p1") (js "A") (js "2024-05-02T08:00:00.000Z");
                 full_page (js "p2") (js "B") (js "2024-05-02T08:01:00.000Z");
                 full_page (js "p3") (js "C") (js "2024-05-02T08:02:00.000Z");
                 full_page (js "p4") (js "D") (js "2024-05-02T08:03:00.000Z");
                 full_page (js "p5") (js "E") (js "2024-05-02T08:04:00.000Z")];
     has_more := false; next_cursor := None |}.

(** * Further vocabulary *)

(** [keeps R m]: however [m] ends, the tables it leaves are related by [R]
    to the tables it started from. *)
Definition keeps {A : Type} (R : gmap (list N) PgTable -> gmap (list N) PgTable -> Prop)
    (m : M A) : Prop :=
  forall s, R (tables s) (tables (m s).2).

(** The table [t] may have been created or have gained columns at its end;
    its rows and every other table are as before. *)
Definition grown_at (t : jstring) (db db' : gmap (list N) PgTable) : Prop :=
  (forall t', t' <> t -> db' !! t' = db !! t')
  /\ (forall tbl, db !! t = Some tbl ->
        exists extra,
          db' !! t = Some {| pg_columns := pg_columns tbl ++ extra;
                             pg_rows := pg_rows tbl |}).

(** The table [t] may have been created, have gained columns at its end,
    and have gained or rewritten rows; it has lost no column and no row, and
    every other table is as before. *)
Definition extended_at (t : jstring) (db db' : gmap (list N) PgTable) : Prop :=
  (forall t', t' <> t -> db' !! t' = db !! t')
  /\ (forall tbl, db !! t = Some tbl ->
        exists tbl',
          db' !! t = Some tbl'
          /\ (exists extra, pg_columns tbl' = pg_columns tbl ++ extra)
          /\ forall id, is_Some (pg_rows tbl !! id) -> is_Some (pg_rows tbl' !! id)).

(** A code unit whose lower-case form holds a letter or a digit. *)
Definition alnum_source (c : N) : bool :=
  is_alnum c || is_upper c || (c =? 0x212A) || (c =? 0x130).

(** The entries [fetchNotionSchema] makes of the properties of a supported
    type, in the order given; a property named [__proto__] makes none. *)
Definition supported_entries (props : list (jstring * jstring)) : SchemaMapping :=
  omap (fun entry : jstring * jstring =>
          if jstring_eqb entry.1 (js "__proto__") then None
          else
            match property_type_of entry.2 with
            | Some t => Some (entry.1,
                              {| notionType := t; postgresType := TYPE_MAP t;
                                 columnName := sanitizeColumnName entry.1 |})
            | None => None
            end) props.

(** The warnings [fetchNotionSchema] logs for the properties of a type it
    does not support. *)
Definition unsupported_warnings (props : list (jstring * jstring)) : list Event :=
  omap (fun entry : jstring * jstring =>
          match property_type_of entry.2 with
          | Some _ => None
          | None => Some (EvLog WARN schema_log
                            (js "Unsupported property type: " ++ entry.2
                             ++ js " for property: " ++ entry.1))
          end) props.

Definition is_query (e : Event) : bool :=
  match e with EvQuery _ => true | _ => false end.

Definition is_upsert (e : Event) : bool :=
  match e with EvSql (Upsert _ _ _) => true | _ => false end.

Definition has_properties (p : Page) : bool :=
  match page_properties p with Some _ => true | None => false end.

(** A database with a property of a type the program does not map. *)
Definition mixed_schema : list (jstring * jstring) :=
  [(js "Title", js "title"); (js "Press", js "button"); (js "Status", js "select")].

(** A log line, or a statement of schema reconciliation on the table [t]:
    no statement on rows, no call to Notion. *)
Definition reconciles_only (t : jstring) (e : Event) : Prop :=
  match e with
  | EvLog _ _ _ => True
  | EvSql (SelectTableExists t') | EvSql (SelectColumns t')
  | EvSql (CreateTable t' _) | EvSql (AddColumn t' _) => t' = t
  | _ => False
  end.

(** The column definitions of [CREATE TABLE]: the three reserved columns,
    then one column per entry of the mapping. *)
Definition create_defs (schema : SchemaMapping) : list ColumnDef :=
  [def_notion_page_id; def_page_content; def_synced_at]
  ++ List.map def_of_property (obj_values schema).

(** What the engine requires of the columns of a CREATE TABLE: a name for
    each, no two names equal in what the engine keeps of them (their first
    63 bytes), and none that is the name of a system column. *)
Definition creatable (defs : list ColumnDef) : bool :=
  negb (existsb (fun d => jstring_eqb (cd_name d) []) defs)
  && negb (has_dup (List.map (fun d => pg_ident (cd_name d)) defs))
  && negb (existsb (fun d => is_system_column (pg_ident (cd_name d))) defs).

(** A database with a property named like a system column of the engine. *)
Definition system_named_schema : list (jstring * jstring) :=
  [(js "Title", js "title"); (js "CMax", js "number")].

(** The definitions [syncSchema] adds to a table that has the columns
    [cols]: those of the mapping, then [page_content] and [synced_at], each
    when no column of that name is there. *)
Definition missing_defs (schema : SchemaMapping) (cols : list PgColumn)
  : list ColumnDef :=
  List.filter (fun d => negb (has_column (cd_name d) cols))
              (List.map def_of_property (obj_values schema)
               ++ [def_page_content; def_synced_at]).

(** A database whose second property has a name without a letter or a digit
    of the ASCII range. *)
Definition unnameable_schema : list (jstring * jstring) :=
  [(js "Title", js "title"); ([0x540D; 0x524D], js "rich_text")].

(** The property types whose value is read with [?.map]. *)
Definition is_list_kind (t : NotionPropertyType) : bool :=
  match t with
  | P_title | P_rich_text | P_multi_select | P_relation | P_people | P_files => true
  | _ => false
  end.

(** A payload that is there and is not a list, or is a list with an item
    that is [null] or [undefined]. *)
Definition bad_payload (v : value) : bool :=
  match v with
  | VUndefined | VNull => false
  | VArr items => existsb nullish items
  | _ => true
  end.

(** A property of a list kind with a bad payload (the member named like its
    type). *)
Definition malformed_list (property : value) : bool :=
  match property with
  | VObj fs =>
      match obj_get (js "type") fs with
      | Some (VStr tag) =>
          match property_type_of tag with
          | Some t =>
              is_list_kind t && bad_payload (default VUndefined (obj_get tag fs))
          | None => false
          end
      | _ => false
      end
  | _ => false
  end.

(** A value none of whose objects, at any depth, has a member of its own
    named [toString].  Such a value always converts to a string. *)
Fixpoint no_toString_member (v : value) : bool :=
  match v with
  | VArr l => forallb no_toString_member l
  | VObj fs =>
      match obj_get (js "toString") fs with Some _ => false | None => true end
      && forallb (fun kv => no_toString_member (snd kv)) fs
  | _ => true
  end.

(** What a computation that converts values to strings comes to: a result,
    or else a TypeError, which takes a value with a [toString] member
    ([plain] is then false). *)
Definition converts {A} (plain : bool) (r : res A) : Prop :=
  (exists a, r = Ok a) \/ (plain = false /\ exists m, r = Throw (TypeError m)).

(** Induction on a value through the elements of its arrays. *)
Fixpoint value_array_ind (P : value -> Prop)
    (Hleaf : forall v, match v with VArr _ => True | _ => P v end)
    (Harr : forall l, Forall P l -> P (VArr l)) (v : value) : P v :=
  match v with
  | VUndefined => Hleaf VUndefined
  | VNull => Hleaf VNull
  | VBool b => Hleaf (VBool b)
  | VNum r => Hleaf (VNum r)
  | VStr t => Hleaf (VStr t)
  | VArr l =>
      Harr l ((fix elements (l : list value) : Forall P l :=
                 match l return Forall P l with
                 | [] => @List.Forall_nil _ P
                 | x :: r =>
                     @List.Forall_cons _ P x r
                       (value_array_ind P Hleaf Harr x) (elements r)
                 end) l)
  | VObj fs => Hleaf (VObj fs)
  end.

(** A text fragment, an option or a reference as Notion sends them: an
    object whose member [k] is the string [v]. *)
Definition has_string (k : jstring) (item : value) (v : jstring) : Prop :=
  exists o, item = VObj o /\ obj_get k o = Some (VStr v).

(** A file entry: hosted by Notion ([file.url]) or external
    ([external.url], with no [file] member). *)
Definition file_entry (item : value) (u : jstring) : Prop :=
  exists o, item = VObj o
    /\ ((exists f, obj_get (js "file") o = Some (VObj f)
                   /\ obj_get (js "url") f = Some (VStr u))
        \/ (obj_get (js "file") o = None
            /\ exists e, obj_get (js "external") o = Some (VObj e)
                         /\ obj_get (js "url") e = Some (VStr u))).

Definition files_sample : list value :=
  [VObj [(js "name", VStr (js "a.pdf"));
         (js "file", VObj [(js "url", VStr (js "https://f/a"))])];
   VObj [(js "external", VObj [(js "url", VStr [])])];
   VObj [(js "external", VObj [(js "url", VStr (js "https://e/b"))])]].

Definition options_sample : list value :=
  [VObj [(js "name", VStr (js "a"))]; VObj [(js "name", VStr (js "b"))]].

(** The query that continues a listing from the cursor [c]. *)
Definition continue_from (options : SyncOptions) (c : jstring) : QueryParams :=
  {| database_id := databaseId options;
     page_size := default 100 (pageSize options);
     sort_last_edited_ascending := true;
     start_cursor := Some c;
     filter_edited_after := None |}.

(** The query for the pages edited after [t]. *)
Definition changed_since (options : SyncOptions) (t : jstring) : QueryParams :=
  {| database_id := databaseId options;
     page_size := default 100 (pageSize options);
     sort_last_edited_ascending := true;
     start_cursor := None;
     filter_edited_after := Some t |}.

(** An event that is not a call for the database or its pages: a log line,
    a statement, a markdown conversion. *)
Definition local_event (e : Event) : Prop :=
  match e with
  | EvRetrieve _ | EvQuery _ => False
  | _ => True
  end.

(** A workspace whose database can be retrieved and not queried. *)
Definition unqueryable_client (props : list (jstring * jstring)) : Client :=
  {| databases_retrieve := fun _ => Ok (Some props);
     databases_query := fun _ =>
       Throw (JsError (js "APIResponseError") (js "Rate limited"));
     n2m_parent := fun _ _ => Ok (Some []);
     now := js "2024-06-01T00:00:00.000Z" |}.

(** * The worker process

    The modules that hold state between invocations ([src/env.ts],
    [src/db/client.ts]) and the two entry points of [src/index.ts] that run
    the synchronisation. *)

(** ** [src/env.ts] *)

(** [process.env], as far as the program reads it: a variable is a string
    or is not set. *)
Record ProcessEnv : Type := {
  var_NOTION_API_TOKEN : option jstring;
  var_NOTION_DATABASE_ID : option jstring;
  var_NEON_DATABASE_URL : option jstring;
  var_LOG_LEVEL : option jstring;
}.

(** [Env = z.infer<typeof envSchema>] *)
Record Env : Type := {
  NOTION_API_TOKEN : jstring;
  NOTION_DATABASE_ID : jstring;
  NEON_DATABASE_URL : jstring;
  LOG_LEVEL : jstring;
}.

(** A code unit matched by [[a-f0-9-]] under the flag [i]. *)
Definition is_hex_or_hyphen (c : N) : bool :=
  ((97 <=? c) && (c <=? 102)) || ((65 <=? c) && (c <=? 70))
  || is_digit c || (c =? 45).

(** [/^[a-f0-9-]{32,36}$/i] *)
Definition uuid_format (s : jstring) : bool :=
  (32 <=? length s)%nat && (length s <=? 36)%nat && forallb is_hex_or_hyphen s.

(** [s.startsWith(prefix)] *)
Definition startsWith (prefix s : jstring) : bool :=
  jstring_eqb (firstn (length prefix) s) prefix.

Definition LOG_LEVELS : list jstring :=
  [js "DEBUG"; js "INFO"; js "WARN"; js "ERROR"].

(** [envSchema.safeParse(...)] when it succeeds: the three required
    variables are strings of at least one code unit, the database id has the
    UUID format, the URL starts with "postgres", and the log level is one
    of the four or is not set, in which case it is "INFO". *)
Definition envSchema_parse (pe : ProcessEnv) : option Env :=
  match var_NOTION_API_TOKEN pe, var_NOTION_DATABASE_ID pe,
        var_NEON_DATABASE_URL pe with
  | Some token, Some id, Some url =>
      if (1 <=? length token)%nat
         && ((1 <=? length id)%nat && uuid_format id)
         && ((1 <=? length url)%nat && startsWith (js "postgres") url)
         && match var_LOG_LEVEL pe with
            | Some level => existsb (jstring_eqb level) LOG_LEVELS
            | None => true
            end
      then Some {| NOTION_API_TOKEN := token;
                   NOTION_DATABASE_ID := id;
                   NEON_DATABASE_URL := url;
                   LOG_LEVEL := default (js "INFO") (var_LOG_LEVEL pe) |}
      else None
  | _, _, _ => None
  end.

(** What the process runs on besides Notion and Postgres: the lines zod
    prints for the issues of an environment that fails validation, and the
    driver's [neon(connectionString)]. *)
Record Runtime : Type := {
  zod_issues : ProcessEnv -> jstring;
  neon : jstring -> res SqlClient;
}.

Definition parseEnv (rt : Runtime) (pe : ProcessEnv) : res Env :=
  match envSchema_parse pe with
  | Some data => Ok data
  | None =>
      Throw (Error (js "Environment validation failed:" ++ [10] ++ zod_issues rt pe))
  end.

(** The module variables [cachedEnv] and [sqlClient], with the environment
    of the process. *)
Record Proc : Type := {
  process_env : ProcessEnv;
  cachedEnv : option Env;
  sqlClient : option SqlClient;
}.

Record World : Type := {
  proc : Proc;
  store : State;
}.

Definition W (A : Type) : Type := World -> res A * World.

Definition wret {A} (a : A) : W A := fun w => (Ok a, w).

Definition wbind {A B} (m : W A) (k : A -> W B) : W B :=
  fun w => match m w with
           | (Ok a, w') => k a w'
           | (Throw e, w') => (Throw e, w')
           end.

Definition wthrow {A} (e : exn) : W A := fun w => (Throw e, w).

Definition wtry {A} (m : W A) (h : exn -> W A) : W A :=
  fun w => match m w with
           | (Ok a, w') => (Ok a, w')
           | (Throw e, w') => h e w'
           end.

(** An action of the synchronisation, run by the process. *)
Definition in_store {A} (m : M A) : W A :=
  fun w => let '(r, s) := m (store w) in (r, {| proc := proc w; store := s |}).

Declare Scope worker_scope.
Delimit Scope worker_scope with worker.
Notation "'let!' x ':=' c1 'in' c2" := (wbind c1 (fun x => c2))
  (at level 10, x name, c1 at level 100, c2 at level 200) : worker_scope.
Local Open Scope worker_scope.

(** [env.prop]: the [get] trap of the proxy. *)
Definition env_get {A} (rt : Runtime) (prop : Env -> A) : W A :=
  fun w =>
    match cachedEnv (proc w) with
    | Some data => (Ok (prop data), w)
    | None =>
        match parseEnv rt (process_env (proc w)) with
        | Ok data =>
            (Ok (prop data),
             {| proc := {| process_env := process_env (proc w);
                           cachedEnv := Some data;
                           sqlClient := sqlClient (proc w) |};
                store := store w |})
        | Throw e => (Throw e, w)
        end
    end.

Definition validateEnv (rt : Runtime) : W Env := env_get rt (fun data => data).

(** ** [src/db/client.ts] *)

Definition client_log : jstring := js "db-client".

Definition set_sqlClient (c : option SqlClient) : W unit :=
  fun w => (Ok tt, {| proc := {| process_env := process_env (proc w);
                                 cachedEnv := cachedEnv (proc w);
                                 sqlClient := c |};
                      store := store w |}).

Definition getSqlClient (rt : Runtime) : W SqlClient :=
  fun w =>
    match sqlClient (proc w) with
    | Some c => (Ok c, w)
    | None =>
        (let! _ := in_store (log INFO client_log
                                 (js "Initializing Neon database connection")) in
         let! url := env_get rt NEON_DATABASE_URL in
         let! c := in_store (lift (neon rt url)) in
         let! _ := set_sqlClient (Some c) in
         wret c) w
    end.

Definition resetSqlClient : W unit := set_sqlClient None.

(** ** [src/index.ts] *)

Definition worker_log : jstring := js "worker".

(** What the sync hands back to the SDK. *)
Record SyncChanges : Type := {
  changes : list value;
  changes_hasMore : bool;
  changes_nextState : option SyncState;
}.

(** [execute] of the sync [notionPostgresSync]. *)
Definition notionPostgresSync (rt : Runtime) (state : option SyncState)
    (notion : Client) : W SyncChanges :=
  let! _ := in_store (log INFO worker_log (js "Executing notionPostgresSync")) in
  wtry
    (let! sql := getSqlClient rt in
     let syncState := state in
     let! databaseId := env_get rt NOTION_DATABASE_ID in
     let! out := in_store (runSync notion sql
                                   {| databaseId := databaseId; pageSize := None |}
                                   syncState) in
     let! _ := in_store
       (log INFO worker_log
            (js "Sync result: " ++ nat_str (processedCount (result out))
             ++ js " synced, " ++ nat_str (errorCount (result out))
             ++ js " errors")) in
     let! _ :=
       if (0 <? length (errors (result out)))%nat
       then in_store (log ERROR worker_log
                          (js "Errors: " ++ join (js "; ") (errors (result out))))
       else wret tt in
     wret {| changes := [];
             changes_hasMore := hasMore out;
             changes_nextState := nextState out |})
    (fun error =>
       let! _ := in_store (log ERROR worker_log
                               (js "Sync failed: " ++ render_exn error)) in
       wthrow error).

(** The three answers of the tool [syncSchema] when nothing failed. *)
Definition schema_message (tableName : jstring) (propertyCount : nat)
    (result : SchemaSyncResult) : jstring :=
  if created result then
    js "Created new table " ++ [34] ++ tableName ++ [34] ++ js " with "
    ++ nat_str propertyCount ++ js " columns from Notion schema."
  else if (0 <? length (columnsAdded result))%nat then
    js "Updated table " ++ [34] ++ tableName ++ [34]
    ++ js ". Added columns: " ++ join (js ", ") (columnsAdded result)
  else
    js "Schema is up to date for table " ++ [34] ++ tableName ++ [34]
    ++ js " (" ++ nat_str propertyCount ++ js " columns).".

(** [execute] of the tool [syncSchema]. *)
Definition syncSchemaTool (rt : Runtime) (notion : Client) : W jstring :=
  let! _ := in_store (log INFO worker_log (js "Executing syncSchema tool")) in
  wtry
    (let! sql := getSqlClient rt in
     let! databaseId := env_get rt NOTION_DATABASE_ID in
     let tableName := getTableName databaseId in
     let! schemaMapping := in_store (fetchNotionSchema notion databaseId) in
     let! result := in_store (syncSchema sql tableName schemaMapping) in
     let propertyCount := length (obj_keys schemaMapping) in
     wret (schema_message tableName propertyCount result))
    (fun error =>
       let! _ := in_store (log ERROR worker_log
                               (js "Schema sync failed: " ++ render_exn error)) in
       wret (js "Schema sync failed: " ++ render_exn error)).

(** A process that has not validated its environment yet. *)
Definition fresh_proc (pe : ProcessEnv) : Proc :=
  {| process_env := pe; cachedEnv := None; sqlClient := None |}.

Definition sample_env : ProcessEnv :=
  {| var_NOTION_API_TOKEN := Some (js "secret_abc");
     var_NOTION_DATABASE_ID := Some (js "8a1b2c3d-4e5f-6a7b-8c9d-0e1f2a3b4c5d");
     var_NEON_DATABASE_URL := Some (js "postgresql://user:pw@host.neon.tech/db");
     var_LOG_LEVEL := None |}.

Definition sample_runtime : Runtime :=
  {| zod_issues := fun _ => js "  - NOTION_DATABASE_ID: NOTION_DATABASE_ID must be a valid UUID format";
     neon := fun _ => Ok lenient_sql |}.

Definition sample_world : World :=
  {| proc := fresh_proc sample_env; store := init |}.

(** A code unit of a table name derived from a validated database id. *)
Definition is_hex_or_underscore (c : N) : bool :=
  ((97 <=? c) && (c <=? 102)) || ((65 <=? c) && (c <=? 70))
  || is_digit c || (c =? u_us).

(** An environment whose database id is a Notion URL slug, not an id. *)
Definition invalid_env : ProcessEnv :=
  {| var_NOTION_API_TOKEN := Some (js "secret_abc");
     var_NOTION_DATABASE_ID := Some (js "My-Tasks-8a1b2c3d4e5f6a7b8c9d0e1f2a3b4c5d");
     var_NEON_DATABASE_URL := Some (js "postgresql://user:pw@host.neon.tech/db");
     var_LOG_LEVEL := None |}.

(** * Block listing: [getAllBlocks] of [src/notion/page-reader.ts] *)

Record Block : Type := {
  block_id : jstring;
  (** ["type" in block]: a full block, not a partial one. *)
  block_full : bool;
  block_has_children : bool;
}.

Record ListResponse : Type := {
  list_results : list Block;
  list_has_more : bool;
  list_next_cursor : option jstring;
}.

(** [notion.blocks.children.list({ block_id, start_cursor, page_size: 100 })] *)
Definition BlocksApi : Type := jstring -> option jstring -> res ListResponse.

(** The loop over [response.results]; [recur] is the call of [getAllBlocks]
    on a block with children.  [None] stands for a computation that has not
    ended within the calls allowed. *)
Definition eachBlock (recur : jstring -> State -> option (res (list Block) * State))
  : list Block -> list Block -> State -> option (res (list Block) * State) :=
  fix each (results : list Block) (blocks : list Block) (s : State) :=
    match results with
    | [] => Some (Ok blocks, s)
    | block :: rest =>
        if block_full block then
          let blocks := blocks ++ [block] in
          if block_has_children block then
            match recur (block_id block) s with
            | Some (Ok children, s') => each rest (blocks ++ children) s'
            | Some (Throw e, s') => Some (Throw e, s')
            | None => None
            end
          else each rest blocks s
        else each rest blocks s
    end.

(** The [do ... while (cursor)] of [getAllBlocks], entered with [cursor] and
    the blocks pushed so far; [fuel] bounds the number of calls to the
    API. *)
Fixpoint listBlocks (fuel : nat) (api : BlocksApi) (blockId : jstring)
    (cursor : option jstring) (blocks : list Block) (s : State)
  : option (res (list Block) * State) :=
  match fuel with
  | O => None
  | S fuel' =>
      match api blockId cursor with
      | Throw e => Some (Throw e, s)
      | Ok response =>
          match eachBlock (fun id s => listBlocks fuel' api id None [] s)
                          (list_results response) blocks s with
          | Some (Ok blocks, s') =>
              let cursor := if list_has_more response
                            then list_next_cursor response else None in
              if present cursor then listBlocks fuel' api blockId cursor blocks s'
              else
                Some ((let* _ := log INFO (js "page-reader")
                                     (js "Retrieved " ++ nat_str (length blocks)
                                      ++ js " blocks from: " ++ blockId) in
                       ret blocks) s')
          | Some (Throw e, s') => Some (Throw e, s')
          | None => None
          end
      end
  end.

Definition getAllBlocks (fuel : nat) (api : BlocksApi) (blockId : jstring)
  : State -> option (res (list Block) * State) :=
  listBlocks fuel api blockId None [].

(** The blocks below a block, in document order: the children are listed
    page after page, following the cursor while the API announces more with
    a non-empty one; a partial block is left out with everything below it;
    a full block is followed by the blocks below it when it has children. *)
Inductive collected (api : BlocksApi) : jstring -> option jstring -> list Block -> Prop :=
| collected_last id c r out :
    api id c = Ok r ->
    present (if list_has_more r then list_next_cursor r else None) = false ->
    expanded api (list_results r) out ->
    collected api id c out
| collected_more id c r c' out1 out2 :
    api id c = Ok r ->
    list_has_more r = true -> list_next_cursor r = Some c' ->
    present (Some c') = true ->
    expanded api (list_results r) out1 ->
    collected api id (Some c') out2 ->
    collected api id c (out1 ++ out2)
with expanded (api : BlocksApi) : list Block -> list Block -> Prop :=
| expanded_nil : expanded api [] []
| expanded_partial b rest out :
    block_full b = false -> expanded api rest out -> expanded api (b :: rest) out
| expanded_leaf b rest out :
    block_full b = true -> block_has_children b = false ->
    expanded api rest out -> expanded api (b :: rest) (b :: out)
| expanded_node b rest sub out :
    block_full b = true -> block_has_children b = true ->
    collected api (block_id b) None sub ->
    expanded api rest out -> expanded api (b :: rest) (b :: sub ++ out).

Scheme collected_ind2 := Minimality for collected Sort Prop
  with expanded_ind2 := Minimality for expanded Sort Prop.
Combined Scheme collected_expanded_ind from collected_ind2, expanded_ind2.

(** A page with a heading, a partial block and a toggle; the toggle has two
    children, served in two pages. *)
Definition heading : Block :=
  {| block_id := js "h"; block_full := true; block_has_children := false |}.
Definition partial_block : Block :=
  {| block_id := js "x"; block_full := false; block_has_children := false |}.
Definition toggle : Block :=
  {| block_id := js "t"; block_full := true; block_has_children := true |}.
Definition first_child : Block :=
  {| block_id := js "c1"; block_full := true; block_has_children := false |}.
Definition second_child : Block :=
  {| block_id := js "c2"; block_full := true; block_has_children := false |}.

Definition sample_blocks : BlocksApi :=
  fun id cursor =>
    if jstring_eqb id (js "page") then
      Ok {| list_results := [heading; partial_block; toggle];
            list_has_more := false; list_next_cursor := None |}
    else if jstring_eqb id (js "t") then
      match cursor with
      | None => Ok {| list_results := [first_child];
                      list_has_more := true; list_next_cursor := Some (js "next") |}
      | Some _ => Ok {| list_results := [second_child];
                        list_has_more := false; list_next_cursor := None |}
      end
    else Throw (JsError (js "APIResponseError") (js "Could not find block")).

Definition sample_record : SyncRecord :=
  {| notion_page_id := js "p1";
     page_content := js "# Hello";
     synced_at := js "2024-06-01T00:00:00.000Z";
     properties := [(js "title", VStr (js "Hello")); (js "status", VNull)] |}.

Definition no_result : SyncResult :=
  {| processedCount := 0; errorCount := 0; errors := [] |}.

Definition hello_page : Page :=
  full_page (js "p1") (js "Hello") (js "2024-05-02T08:00:00.000Z").

(** A warning of the property reader. *)
Definition reader_warning (e : Event) : Prop :=
  exists msg, e = EvLog WARN (js "page-reader") msg.

(** A page whose title is a list with a hole. *)
Definition holed_page : Page :=
  {| page_id := js "p9";
     page_properties := Some [(js "Title",
                               VObj [(js "type", VStr (js "title"));
                                     (js "title", VArr [VNull])])];
     page_last_edited_time := Some (js "2024-05-02T08:02:00.000Z") |}.
(** * Properties *)

Example sanitize_due_date :
  Sanitize.sanitizeColumnName (js "Due Date!!") = js "due_date".
Proof. reflexivity. Qed.

Example sanitize_runs :
  Sanitize.sanitizeColumnName (js "__A  --  b__") = js "a_b".
Proof. reflexivity. Qed.

Example sanitize_symbols_only :
  Sanitize.sanitizeColumnName (js "!!!") = [].
Proof. reflexivity. Qed.

(** The Kelvin sign and the dotted capital I lower-case into ASCII. *)
Example sanitize_kelvin :
  Sanitize.sanitizeColumnName ([0x212A] ++ js "elvin " ++ [0x130] ++ js "D")
  = js "kelvin_i_d".
Proof. reflexivity. Qed.

Example sanitize_accents :
  Sanitize.sanitizeColumnName ([0xC9] ++ js "t" ++ [0xE9] ++ js " 2024")
  = js "t_2024".
Proof. reflexivity. Qed.

(** ** Column-name sanitisation *)

Module SanitizeFacts.
Import Sanitize.
Lemma replace_non_word_word s : forallb is_word (replace_non_word s) = true.
Proof.
  induction s as [|c s IH]; simpl; [done|].
  rewrite IH, andb_true_r. destruct (is_word c) eqn:E; [done|reflexivity].
Qed.

Lemma drop_us_word s : forallb is_word s = true -> forallb is_word (drop_us s) = true.
Proof.
  induction s as [|c s IH]; simpl; [done|].
  intros [Hc Hs]%andb_true_iff. destruct (c =? u_us); [auto|].
  simpl. by rewrite Hc, Hs.
Qed.

Lemma forallb_rev {A} (f : A -> bool) l : forallb f (rev l) = forallb f l.
Proof.
  induction l as [|a l IH]; simpl; [done|].
  rewrite forallb_app, IH. simpl. rewrite andb_true_r. apply andb_comm.
Qed.

Lemma collapse_us_word s :
  forallb is_word s = true -> forallb is_word (collapse_us s) = true.
Proof.
  induction s as [|c s IH]; [done|].
  intros H. pose proof H as [Hc Hs]%andb_true_iff.
  destruct s as [|c' s']; [done|].
  change (collapse_us (c :: c' :: s'))
    with (if (c =? u_us) && (c' =? u_us) then collapse_us (c' :: s')
          else c :: collapse_us (c' :: s')).
  destruct ((c =? u_us) && (c' =? u_us)); [auto|].
  change (is_word c && forallb is_word (collapse_us (c' :: s')) = true).
  by rewrite Hc, IH.
Qed.

Lemma drop_us_head s : head_ok (drop_us s) = true.
Proof.
  induction s as [|c s IH]; simpl; [done|].
  destruct (c =? u_us) eqn:E; [done|]. simpl. by rewrite E.
Qed.

Lemma last_ok_app s c : last_ok (s ++ [c]) = negb (c =? u_us).
Proof.
  induction s as [|a s IH]; [done|].
  simpl. destruct (s ++ [c]) eqn:E; [by destruct s|]. by rewrite <- IH.
Qed.

Lemma head_ok_rev s : head_ok (rev s) = last_ok s.
Proof.
  induction s as [|c s IH]; [done|].
  simpl rev. destruct s as [|c' s']; [done|].
  change (last_ok (c :: c' :: s')) with (last_ok (c' :: s')).
  rewrite <- IH. simpl rev.
  destruct (rev s' ++ [c']) eqn:E; [by destruct (rev s')|done].
Qed.

Lemma last_ok_rev s : last_ok (rev s) = head_ok s.
Proof. rewrite <- (rev_involutive s) at 2. by rewrite head_ok_rev. Qed.

Lemma drop_us_last s : last_ok s = true -> last_ok (drop_us s) = true.
Proof.
  induction s as [|c s IH]; [done|].
  intros H. simpl. destruct (c =? u_us) eqn:E; [|done].
  apply IH. destruct s; [|done]. simpl in H. by rewrite E in H.
Qed.

Lemma drop_us_id s : head_ok s = true -> drop_us s = s.
Proof. destruct s as [|c s]; [done|]. simpl. by intros ->%negb_true_iff. Qed.

Lemma strip_us_ends s :
  head_ok (strip_us s) = true /\ last_ok (strip_us s) = true.
Proof.
  unfold strip_us. rewrite head_ok_rev, last_ok_rev. split.
  - apply drop_us_last. rewrite last_ok_rev. apply drop_us_head.
  - apply drop_us_head.
Qed.

Lemma strip_us_word s : forallb is_word s = true -> forallb is_word (strip_us s) = true.
Proof.
  intros H. unfold strip_us. rewrite forallb_rev. apply drop_us_word.
  rewrite forallb_rev. by apply drop_us_word.
Qed.

Lemma strip_us_id s : head_ok s = true -> last_ok s = true -> strip_us s = s.
Proof.
  intros Hh Hl. unfold strip_us. rewrite (drop_us_id s Hh).
  rewrite drop_us_id by (by rewrite head_ok_rev). apply rev_involutive.
Qed.

Lemma collapse_us_unfold c c' s :
  collapse_us (c :: c' :: s)
  = if (c =? u_us) && (c' =? u_us) then collapse_us (c' :: s)
    else c :: collapse_us (c' :: s).
Proof. reflexivity. Qed.

Lemma collapse_us_head s : head_ok s = true -> head_ok (collapse_us s) = true.
Proof.
  destruct s as [|c [|c' s]]; [done..|].
  rewrite collapse_us_unfold. simpl. intros H.
  apply negb_true_iff in H. rewrite H. simpl. by rewrite H.
Qed.

Lemma collapse_us_nonempty c s : collapse_us (c :: s) <> [].
Proof.
  revert c. induction s as [|c' s IH]; intros c; [done|].
  rewrite collapse_us_unfold. destruct ((c =? u_us) && (c' =? u_us)); [apply IH|done].
Qed.

Lemma collapse_us_last s : last_ok s = true -> last_ok (collapse_us s) = true.
Proof.
  induction s as [|c s IH]; [done|].
  destruct s as [|c' s']; [done|].
  intros H. change (last_ok (c' :: s') = true) in H.
  rewrite collapse_us_unfold.
  destruct ((c =? u_us) && (c' =? u_us)); [by apply IH|].
  specialize (IH H). pose proof (collapse_us_nonempty c' s') as Hne.
  remember (collapse_us (c' :: s')) as t eqn:Et. destruct t; [done|exact IH].
Qed.

Lemma collapse_us_head_eq c s : exists r, collapse_us (c :: s) = c :: r.
Proof.
  revert c. induction s as [|c' s IH]; intros c; [by exists []|].
  rewrite collapse_us_unfold.
  destruct ((c =? u_us) && (c' =? u_us)) eqn:E; [|by eexists].
  apply andb_true_iff in E as [->%N.eqb_eq ->%N.eqb_eq]. apply IH.
Qed.

Lemma collapse_us_no_double s : no_double_us (collapse_us s) = true.
Proof.
  induction s as [|c s IH]; [done|].
  destruct s as [|c' s']; [done|].
  rewrite collapse_us_unfold.
  destruct ((c =? u_us) && (c' =? u_us)) eqn:E; [done|].
  destruct (collapse_us_head_eq c' s') as [r Hr].
  rewrite Hr in *. simpl. rewrite E. exact IH.
Qed.

Lemma collapse_us_id s : no_double_us s = true -> collapse_us s = s.
Proof.
  induction s as [|c s IH]; [done|].
  destruct s as [|c' s']; [done|].
  rewrite collapse_us_unfold.
  change (no_double_us (c :: c' :: s'))
    with (negb ((c =? u_us) && (c' =? u_us)) && no_double_us (c' :: s')).
  intros [E%negb_true_iff H]%andb_true_iff. rewrite E. f_equal. by apply IH.
Qed.

Lemma is_word_lower_unit c : is_word c = true -> lower_unit c = [c].
Proof.
  unfold is_word, is_alnum, is_lower, is_digit, lower_unit, is_upper, u_us.
  intros H.
  destruct (N.leb_spec 65 c), (N.leb_spec c 90), (N.leb_spec 97 c),
    (N.leb_spec c 122), (N.leb_spec 48 c), (N.leb_spec c 57),
    (N.eqb_spec c 95), (N.eqb_spec c 0x212A), (N.eqb_spec c 0x130);
    simpl in *; try done; lia.
Qed.

Lemma toLowerCase_id s : forallb is_word s = true -> toLowerCase s = s.
Proof.
  induction s as [|c s IH]; [done|].
  intros [Hc Hs]%andb_true_iff. unfold toLowerCase in *. simpl.
  rewrite (is_word_lower_unit c Hc), IH by done. done.
Qed.

Lemma replace_non_word_id s : forallb is_word s = true -> replace_non_word s = s.
Proof.
  induction s as [|c s IH]; [done|].
  intros [Hc Hs]%andb_true_iff. simpl. rewrite Hc. f_equal. by apply IH.
Qed.

Lemma sanitize_clean x : clean (sanitizeColumnName x).
Proof.
  unfold sanitizeColumnName.
  set (s := replace_non_word (toLowerCase x)).
  assert (Hw : forallb is_word (strip_us s) = true)
    by apply strip_us_word, replace_non_word_word.
  destruct (strip_us_ends s) as [Hh Hl].
  repeat split.
  - by apply collapse_us_word.
  - by apply collapse_us_head.
  - by apply collapse_us_last.
  - apply collapse_us_no_double.
Qed.

Lemma clean_fixed s : clean s -> sanitizeColumnName s = s.
Proof.
  intros (Hw & Hh & Hl & Hd). unfold sanitizeColumnName.
  rewrite toLowerCase_id, replace_non_word_id, strip_us_id by done.
  by apply collapse_us_id.
Qed.

Lemma word_not_us_alnum c : is_word c = true -> negb (c =? u_us) = true -> is_alnum c = true.
Proof.
  unfold is_word. intros H E%negb_true_iff. rewrite E, orb_false_r in H. done.
Qed.

Lemma last_ok_last c s : last_ok (c :: s) = negb (List.last (c :: s) 0 =? u_us).
Proof.
  revert c. induction s as [|c' s IH]; intros c; [done|].
  change (last_ok (c :: c' :: s)) with (last_ok (c' :: s)).
  change (List.last (c :: c' :: s) 0) with (List.last (c' :: s) 0). apply IH.
Qed.

Lemma forallb_last {A} (f : A -> bool) a l d :
  forallb f (a :: l) = true -> f (List.last (a :: l) d) = true.
Proof.
  revert a. induction l as [|b l IH]; intros a.
  - simpl. by intros [? _]%andb_true_iff.
  - intros [_ H]%andb_true_iff. apply (IH b H).
Qed.

Lemma clean_matches s : clean s -> s = [] \/ matches_ident s = true.
Proof.
  intros (Hw & Hh & Hl & _). destruct s as [|c r]; [by left|right].
  pose proof Hw as [Hc Hr]%andb_true_iff.
  unfold matches_ident. apply andb_true_iff. split.
  { by apply word_not_us_alnum. }
  destruct r as [|c' r']; [done|].
  apply andb_true_iff. split; [done|].
  change (last_ok (c :: c' :: r')) with (last_ok (c' :: r')) in Hl.
  rewrite last_ok_last in Hl.
  apply word_not_us_alnum; [|done]. by apply forallb_last.
Qed.

End SanitizeFacts.

(** C7.  [sanitizeColumnName] is idempotent, and what it returns is empty or
    is accepted by [[a-z0-9]([a-z0-9_]*[a-z0-9])?], without two underscores
    in a row. *)
Theorem sanitizeColumnName_idempotent_wellformed (x : jstring) :
  sanitizeColumnName (sanitizeColumnName x) = sanitizeColumnName x
  /\ (sanitizeColumnName x = [] \/
      Sanitize.matches_ident (sanitizeColumnName x) = true)
  /\ Sanitize.no_double_us (sanitizeColumnName x) = true.
Proof.
  pose proof (SanitizeFacts.sanitize_clean x) as H.
  split; [|split].
  - by apply SanitizeFacts.clean_fixed.
  - by apply SanitizeFacts.clean_matches.
  - apply H.
Qed.

(** ** Dictionaries *)

Section obj_facts.
Context {A : Type}.
Implicit Types (o : list (jstring * A)) (k : jstring) (v : A).

Lemma jstring_eqb_eq k k' : jstring_eqb k k' = true <-> k = k'.
Proof. unfold jstring_eqb. apply bool_decide_eq_true. Qed.

Lemma jstring_eqb_neq k k' : jstring_eqb k k' = false <-> k <> k'.
Proof. unfold jstring_eqb. apply bool_decide_eq_false. Qed.

Lemma obj_put_elem k v o k' v' :
  (k', v') ∈ obj_put k v o -> (k' = k /\ v' = v) \/ (k', v') ∈ o.
Proof.
  induction o as [|[k0 v0] o IH]; simpl.
  - intros H%list_elem_of_singleton. injection H as -> ->. by left.
  - destruct (jstring_eqb k k0) eqn:E.
    + intros [[= -> ->]|H]%elem_of_cons; [by left|].
      right. by apply elem_of_cons; right.
    + intros [[= -> ->]|H]%elem_of_cons.
      * right. apply elem_of_cons. by left.
      * destruct (IH H) as [?|?]; [by left|].
        right. apply elem_of_cons. by right.
Qed.

Lemma obj_put_keys k v o k' :
  k' ∈ obj_keys (obj_put k v o) <-> k' = k \/ k' ∈ obj_keys o.
Proof.
  unfold obj_keys. induction o as [|[k0 v0] o IH]; simpl.
  - rewrite list_elem_of_singleton. rewrite elem_of_nil. tauto.
  - destruct (jstring_eqb k k0) eqn:E; simpl.
    + apply jstring_eqb_eq in E as ->. rewrite !elem_of_cons. tauto.
    + rewrite !elem_of_cons, IH. tauto.
Qed.

Lemma obj_put_NoDup k v o : NoDup (obj_keys o) -> NoDup (obj_keys (obj_put k v o)).
Proof.
  unfold obj_keys. induction o as [|[k0 v0] o IH]; simpl.
  - intros _. apply NoDup_singleton.
  - intros [Hn Hd]%NoDup_cons. destruct (jstring_eqb k k0) eqn:E; simpl.
    + apply jstring_eqb_eq in E as ->. by apply NoDup_cons.
    + apply NoDup_cons. split; [|by apply IH].
      intros [->|H]%obj_put_keys; [|done].
      by apply jstring_eqb_neq in E.
Qed.

Lemma obj_set_elem k v o k' v' :
  (k', v') ∈ obj_set k v o -> (k' = k /\ v' = v) \/ (k', v') ∈ o.
Proof.
  unfold obj_set. destruct (jstring_eqb k (js "__proto__")); [by right|].
  apply obj_put_elem.
Qed.

Lemma obj_set_NoDup k v o : NoDup (obj_keys o) -> NoDup (obj_keys (obj_set k v o)).
Proof.
  unfold obj_set. destruct (jstring_eqb k (js "__proto__")); [done|].
  apply obj_put_NoDup.
Qed.

Lemma obj_set_keys_mono k v o k' :
  k' ∈ obj_keys o -> k' ∈ obj_keys (obj_set k v o).
Proof.
  unfold obj_set. destruct (jstring_eqb k (js "__proto__")); [done|].
  intros H. apply obj_put_keys. by right.
Qed.

Lemma obj_set_keys_new k v o :
  k <> js "__proto__" -> k ∈ obj_keys (obj_set k v o).
Proof.
  intros H%jstring_eqb_neq. unfold obj_set. rewrite H.
  apply obj_put_keys. by left.
Qed.
End obj_facts.

(** ** Schema fetch *)

Lemma for_of_schema_entry props acc s :
  exists s', for_of props acc schema_entry s
             = (Ok (fold_left schema_entry_mapping props acc), s')
             /\ tables s' = tables s.
Proof.
  revert acc s. induction props as [|[name tag] props IH]; intros acc s.
  - by exists s.
  - change (for_of ((name, tag) :: props) acc schema_entry s)
      with (bind (schema_entry acc (name, tag))
                 (fun acc' => for_of props acc' schema_entry) s).
    change (fold_left schema_entry_mapping ((name, tag) :: props) acc)
      with (fold_left schema_entry_mapping props
                      (schema_entry_mapping acc (name, tag))).
    unfold bind at 1, schema_entry, schema_entry_mapping. simpl.
    destruct (property_type_of tag) as [t|].
    + unfold ret. apply IH.
    + unfold bind, log, emit, ret. simpl.
      edestruct (IH acc) as (s' & Hs' & Ht). rewrite Hs'.
      by exists s'.
Qed.

Lemma fetchNotionSchema_returns notion id props s :
  databases_retrieve notion id = Ok (Some props) ->
  exists s', fetchNotionSchema notion id s = (Ok (mapping_of props), s')
             /\ tables s' = tables s.
Proof.
  intros H. unfold fetchNotionSchema, bind, log, emit, lift. simpl. rewrite H.
  match goal with |- context [for_of props [] schema_entry ?s0] =>
    destruct (for_of_schema_entry props [] s0) as (s1 & -> & Ht) end.
  unfold ret. eexists. split; [reflexivity|]. simpl. by rewrite Ht.
Qed.

Lemma fold_schema_NoDup props acc :
  NoDup (obj_keys acc) ->
  NoDup (obj_keys (fold_left schema_entry_mapping props acc)).
Proof.
  revert acc. induction props as [|e props IH]; intros acc H; [done|].
  simpl. apply IH. unfold schema_entry_mapping.
  destruct (property_type_of e.2); [by apply obj_set_NoDup|done].
Qed.

Lemma fold_schema_sound props acc name pm :
  (name, pm) ∈ fold_left schema_entry_mapping props acc ->
  (name, pm) ∈ acc \/
  (exists tag, (name, tag) ∈ props
               /\ property_type_of tag = Some (notionType pm)
               /\ postgresType pm = TYPE_MAP (notionType pm)
               /\ columnName pm = sanitizeColumnName name).
Proof.
  revert acc. induction props as [|[n tag] props IH]; intros acc; [by left|].
  simpl. intros [H|(tag' & Hin & ?)]%IH.
  - unfold schema_entry_mapping in H. simpl in H.
    destruct (property_type_of tag) as [t|] eqn:Et; [|by left].
    apply obj_set_elem in H as [[-> ->]|H]; [|by left].
    right. exists tag. split; [by left|]. done.
  - right. exists tag'. split; [by right|done].
Qed.

Lemma fold_schema_complete props acc name :
  (name ∈ obj_keys acc \/
   exists tag t, (name, tag) ∈ props /\ property_type_of tag = Some t
                 /\ name <> js "__proto__") ->
  name ∈ obj_keys (fold_left schema_entry_mapping props acc).
Proof.
  revert acc. induction props as [|[n tag] props IH]; intros acc.
  - intros [H|(? & ? & H & _)]; [done|]. by apply elem_of_nil in H.
  - simpl. intros [H|(tag' & t & Hin & Ht & Hp)]; apply IH.
    + left. unfold schema_entry_mapping.
      destruct (property_type_of _); [by apply obj_set_keys_mono|done].
    + apply elem_of_cons in Hin as [[= -> ->]|Hin].
      * left. unfold schema_entry_mapping. simpl. rewrite Ht.
        by apply obj_set_keys_new.
      * right. by exists tag', t.
Qed.

(** C3 (amended).  [fetchNotionSchema] keeps one entry for every property
    of a supported type, under its own name, with the sanitised name as
    column name; entries are unique by property name, and nothing compares
    their column names. *)
Theorem fetchNotionSchema_entries notion id props s :
  databases_retrieve notion id = Ok (Some props) ->
  exists mapping s',
    fetchNotionSchema notion id s = (Ok mapping, s')
    /\ NoDup (obj_keys mapping)
    /\ (forall name pm, (name, pm) ∈ mapping ->
          columnName pm = sanitizeColumnName name
          /\ postgresType pm = TYPE_MAP (notionType pm)
          /\ exists tag, (name, tag) ∈ props
                         /\ property_type_of tag = Some (notionType pm))
    /\ (forall name tag t, (name, tag) ∈ props ->
          property_type_of tag = Some t -> name <> js "__proto__" ->
          name ∈ obj_keys mapping).
Proof.
  intros H. destruct (fetchNotionSchema_returns notion id props s H) as (s' & Hs & _).
  exists (mapping_of props), s'. split; [done|]. split; [|split].
  - apply fold_schema_NoDup. apply NoDup_nil_2.
  - intros name pm [Hin|(tag & ? & ? & ? & ?)]%fold_schema_sound.
    + by apply elem_of_nil in Hin.
    + eauto 10.
  - intros name tag t ? ? ?. apply fold_schema_complete. right. eauto.
Qed.

Lemma fetchNotionSchema_entries_witness :
  exists mapping s',
    fetchNotionSchema (sample_client sample_schema nothing_more) (js "db") init
    = (Ok mapping, s')
    /\ NoDup (obj_keys mapping)
    /\ (forall name pm, (name, pm) ∈ mapping ->
          columnName pm = sanitizeColumnName name).
Proof.
  destruct (fetchNotionSchema_entries
              (sample_client sample_schema nothing_more) (js "db")
              sample_schema init eq_refl)
    as (mapping & s' & Hrun & Hnd & Hall & _).
  exists mapping, s'. split; [exact Hrun|]. split; [exact Hnd|].
  intros name pm Hin. exact (proj1 (Hall name pm Hin)).
Defined.

(** C3 as stated fails: "Due Date" and "Due-Date" both become the column
    due_date; both entries stay in the mapping, the call returns normally
    and logs nothing but its two information lines. *)
Lemma fetchNotionSchema_collision_undetected :
  fetchNotionSchema (sample_client colliding_schema nothing_more) (js "db") init
  = (Ok [(js "Due Date", {| notionType := P_date;
                            postgresType := js "TIMESTAMPTZ";
                            columnName := js "due_date" |});
         (js "Due-Date", {| notionType := P_date;
                            postgresType := js "TIMESTAMPTZ";
                            columnName := js "due_date" |})],
     {| tables := ∅;
        trace := [EvLog INFO schema_log (js "Fetching schema for database: db");
                  EvRetrieve (js "db");
                  EvLog INFO schema_log (js "Found 2 supported properties")] |})
  /\ ~ NoDup [js "due_date"; js "due_date"].
Proof.
  split; [reflexivity|].
  intros [Hn _]%NoDup_cons. apply Hn. by left.
Qed.

(** ** Value extraction on samples *)

Example extract_title :
  extractPropertyValue
    (VObj [(js "type", VStr (js "title"));
           (js "title", VArr [VObj [(js "plain_text", VStr (js "Hello, "))];
                              VObj [(js "plain_text", VStr (js "world"))]])])
    init
  = (Ok (VStr (js "Hello, world")), init).
Proof. reflexivity. Qed.

Example extract_multi_select :
  extractPropertyValue
    (VObj [(js "type", VStr (js "multi_select"));
           (js "multi_select", VArr [VObj [(js "name", VStr (js "a"))];
                                     VObj [(js "name", VStr (js "b"))]])])
    init
  = (Ok (VArr [VStr (js "a"); VStr (js "b")]), init).
Proof. reflexivity. Qed.

Example extract_select_unset :
  extractPropertyValue
    (VObj [(js "type", VStr (js "select")); (js "select", VNull)]) init
  = (Ok VNull, init).
Proof. reflexivity. Qed.

Example extract_checkbox_unset :
  extractPropertyValue (VObj [(js "type", VStr (js "checkbox"))]) init
  = (Ok (VBool false), init).
Proof. reflexivity. Qed.

Example extract_files :
  extractPropertyValue
    (VObj [(js "type", VStr (js "files"));
           (js "files",
            VArr [VObj [(js "name", VStr (js "a.pdf"));
                        (js "file", VObj [(js "url", VStr (js "https://f/a"))])];
                  VObj [(js "name", VStr (js "no url"))];
                  VObj [(js "external", VObj [(js "url", VStr (js "https://e/b"))])]])])
    init
  = (Ok (VArr [VStr (js "https://f/a"); VStr (js "https://e/b")]), init).
Proof. reflexivity. Qed.

Example extract_unique_id :
  extractPropertyValue
    (VObj [(js "type", VStr (js "unique_id"));
           (js "unique_id", VObj [(js "prefix", VStr (js "TASK"));
                                  (js "number", VNum (js "42"))])])
    init
  = (Ok (VStr (js "TASK-42")), init).
Proof. reflexivity. Qed.

Example extract_unknown_type :
  extractPropertyValue (VObj [(js "type", VStr (js "button"))]) init
  = (Ok VNull,
     {| tables := ∅;
        trace := [EvLog WARN (js "page-reader")
                        (js "Unknown property type: button")] |}).
Proof. reflexivity. Qed.

Example extract_malformed_title :
  extractPropertyValue
    (VObj [(js "type", VStr (js "title")); (js "title", VArr [VNull])]) init
  = (Throw (TypeError (js "Cannot read properties of null (reading 'plain_text')")),
     init).
Proof. reflexivity. Qed.

(** ** Computed properties: formula and rollup *)

Example extract_formula_number :
  extractPropertyValue (VObj (formula_of formula_number_3)) init
  = (Ok (VNum (js "3")), init).
Proof. reflexivity. Qed.

Example stringify_array :
  JSON_stringify (VArr [VNum (js "1.5"); VNull; VUndefined; VBool true; VArr []])
  = Some (js "[1.5,null,null,true,[]]").
Proof. reflexivity. Qed.

Example stringify_object :
  JSON_stringify (VObj [(js "a", VStr (js "x\y")); (js "b", VUndefined)])
  = Some (js "{" ++ [34] ++ js "a" ++ [34] ++ js ":"
          ++ [34] ++ js "x\\y" ++ [34] ++ js "}").
Proof. reflexivity. Qed.

Lemma member_obj k fs : member k (VObj fs) = Ok (default VUndefined (obj_get k fs)).
Proof. reflexivity. Qed.

Lemma coalesce_first_populated k r o :
  coalesce (default VUndefined (obj_get k o)) (first_populated r o)
  = first_populated (k :: r) o.
Proof.
  simpl. destruct (obj_get k o) as [v|]; [|done].
  unfold coalesce. simpl. by destruct (nullish v).
Qed.

Lemma extract_typed fs tag t s :
  obj_get (js "type") fs = Some (VStr tag) ->
  property_type_of tag = Some t ->
  extractPropertyValue (VObj fs) s = (extract_case t (VObj fs), s).
Proof.
  intros Hty Ht. unfold extractPropertyValue, bind, lift.
  rewrite member_obj, Hty. simpl. by rewrite Ht.
Qed.

(** C6.  A formula resolves to the first populated of its string, number,
    boolean and date sub-results, in that order.  A rollup whose type is
    "array" is serialised with JSON.stringify.  Any other rollup resolves
    likewise to the first populated of the four sub-results: Notion gives
    the result of a rollup as a number or a date, never as a string or a
    boolean, and of a rollup without string and boolean the code reads the
    number, then the date. *)
Theorem extractPropertyValue_computed (fs : list (jstring * value)) (s : State) :
  (forall o,
      obj_get (js "type") fs = Some (VStr (js "formula")) ->
      obj_get (js "formula") fs = Some (VObj o) ->
      extractPropertyValue (VObj fs) s
      = (Ok (first_populated computed_keys o), s))
  /\ (forall o items,
      obj_get (js "type") fs = Some (VStr (js "rollup")) ->
      obj_get (js "rollup") fs = Some (VObj o) ->
      obj_get (js "type") o = Some (VStr (js "array")) ->
      obj_get (js "array") o = Some (VArr items) ->
      exists text, JSON_stringify (VArr items) = Some text
        /\ extractPropertyValue (VObj fs) s = (Ok (VStr text), s))
  /\ (forall o,
      obj_get (js "type") fs = Some (VStr (js "rollup")) ->
      obj_get (js "rollup") fs = Some (VObj o) ->
      obj_get (js "type") o <> Some (VStr (js "array")) ->
      nullish (default VUndefined (obj_get (js "string") o)) = true ->
      nullish (default VUndefined (obj_get (js "boolean") o)) = true ->
      extractPropertyValue (VObj fs) s
      = (Ok (first_populated computed_keys o), s)).
Proof.
  split; [|split].
  - intros o Hty Hf. rewrite (extract_typed fs _ P_formula s Hty eq_refl).
    unfold extract_case. rewrite member_obj, Hf. simpl default.
    unfold res_bind at 1. simpl truthy. simpl negb. cbv iota.
    rewrite !member_obj. unfold res_bind.
    unfold computed_keys. by rewrite <- !coalesce_first_populated.
  - intros o items Hty Hr Harr Hitems. eexists. split; [reflexivity|].
    rewrite (extract_typed fs _ P_rollup s Hty eq_refl).
    unfold extract_case. rewrite member_obj, Hr. simpl default.
    unfold res_bind at 1. simpl truthy. simpl negb. cbv iota.
    rewrite !member_obj, Harr, Hitems. reflexivity.
  - intros o Hty Hr Hna Hstring Hboolean.
    rewrite (extract_typed fs _ P_rollup s Hty eq_refl).
    unfold extract_case. rewrite member_obj, Hr. simpl default.
    unfold res_bind at 1. simpl truthy. simpl negb. cbv iota.
    rewrite !member_obj. unfold res_bind.
    assert (E : (if default VUndefined (obj_get (js "type") o) is VStr tag
                 then jstring_eqb tag (js "array") else false) = false).
    { destruct (obj_get (js "type") o) as [[]|]; try done. simpl.
      apply jstring_eqb_neq. congruence. }
    rewrite E. unfold computed_keys. rewrite <- !coalesce_first_populated.
    unfold coalesce. by rewrite Hstring, Hboolean.
Qed.

Lemma extractPropertyValue_computed_witness :
  extractPropertyValue (VObj (formula_of formula_number_3)) init
  = (Ok (first_populated computed_keys formula_number_3), init)
  /\ (exists text, JSON_stringify (VArr [VObj [(js "type", VStr (js "number"));
                                                (js "number", VNum (js "1.5"))];
                                         VObj [(js "type", VStr (js "title"));
                                               (js "title", VArr [])]]) = Some text
        /\ extractPropertyValue (VObj (rollup_of rollup_array)) init
           = (Ok (VStr text), init))
  /\ extractPropertyValue (VObj (rollup_of rollup_date)) init
     = (Ok (first_populated computed_keys rollup_date), init).
Proof.
  split; [|split].
  - apply (proj1 (extractPropertyValue_computed (formula_of formula_number_3) init));
      reflexivity.
  - apply (proj1 (proj2 (extractPropertyValue_computed (rollup_of rollup_array) init))
             rollup_array); reflexivity.
  - apply (proj2 (proj2 (extractPropertyValue_computed (rollup_of rollup_date) init))
             rollup_date);
      [reflexivity|reflexivity|vm_compute; congruence|reflexivity|reflexivity].
Defined.

(** The rollup arm reads the number and the date only: given a rollup
    object with a string member, which Notion does not send, it resolves to
    null. *)
Lemma extractPropertyValue_rollup_ignores_string :
  extractPropertyValue (VObj (rollup_of rollup_string)) init = (Ok VNull, init)
  /\ first_populated computed_keys rollup_string = VStr (js "x").
Proof. split; reflexivity. Qed.

(** ** Effects of the page loop *)

Lemma extractPropertyValue_pure p s :
  exists s', extractPropertyValue p s = (extract_result p, s')
             /\ tables s' = tables s.
Proof.
  destruct p as [| | | | |items|fields]; try (by eexists).
  unfold extractPropertyValue, extract_result, bind, lift, res_bind.
  rewrite member_obj.
  destruct (if default VUndefined (obj_get (js "type") fields) is VStr tag
            then property_type_of tag else None) as [t|].
  - by eexists.
  - destruct (toString _) as [text|e]; [|by eexists].
    unfold log, emit, bind, ret. by eexists.
Qed.

Lemma for_of_extract_entry schemaMapping pageProps acc s :
  exists s', for_of schemaMapping acc (extract_entry pageProps) s
             = (extract_all schemaMapping pageProps acc, s')
             /\ tables s' = tables s.
Proof.
  revert acc s. induction schemaMapping as [|[propName propDef] rest IH];
    intros acc s; [by eexists|].
  change (for_of ((propName, propDef) :: rest) acc (extract_entry pageProps) s)
    with (bind (extract_entry pageProps acc (propName, propDef))
               (fun acc' => for_of rest acc' (extract_entry pageProps)) s).
  unfold bind at 1, extract_entry. simpl extract_all.
  destruct (truthy (default VUndefined (obj_get propName pageProps))).
  - unfold bind at 1.
    destruct (extractPropertyValue_pure
                (default VUndefined (obj_get propName pageProps)) s)
      as (s1 & -> & Ht).
    destruct (extract_result _) as [v|e]; unfold res_bind.
    + destruct (IH (obj_set (columnName propDef) v acc) s1)
        as (s2 & Hs2 & Ht2). exists s2. split; [exact Hs2|congruence].
    + by exists s1.
  - apply IH.
Qed.

Lemma pageToMarkdown_pure notion pageId s :
  exists s', pageToMarkdown notion pageId s = (Ok (markdown_of notion pageId), s')
             /\ tables s' = tables s.
Proof.
  unfold pageToMarkdown, markdown_of, try_catch, bind, emit, lift, log, ret.
  simpl. destruct (n2m_parent notion SKIP_TYPES pageId) as [[c|]|e]; by eexists.
Qed.

Lemma syncPage_outcome notion sql t schemaMapping cols pageId pageProps s :
  exists s', syncPage notion sql t schemaMapping cols pageId pageProps s
             = ((page_outcome notion sql t schemaMapping cols (tables s)
                              pageId pageProps).1, s')
             /\ tables s'
                = (page_outcome notion sql t schemaMapping cols (tables s)
                                pageId pageProps).2.
Proof.
  unfold syncPage, page_outcome. unfold bind at 1.
  destruct (for_of_extract_entry schemaMapping pageProps [] s) as (s1 & -> & Ht1).
  destruct (extract_all schemaMapping pageProps []) as [properties|e];
    [|by exists s1].
  unfold bind at 1.
  destruct (pageToMarkdown_pure notion pageId s1) as (s2 & -> & Ht2).
  unfold upsertRecord, bind, sql_query, log, emit. rewrite Ht2, Ht1.
  destruct (pg_run sql _ (tables s)) as [[rows|e] db']; by eexists.
Qed.

Arguments pg_run : simpl never.

Lemma pg_run_throw_same sql st db e db' :
  pg_run sql st db = (Throw e, db') -> db' = db.
Proof.
  unfold pg_run. destruct st; try done.
  - repeat (match goal with |- context [if ?b then _ else _] => destruct b end;
            try congruence).
  - destruct (jstring_eqb _ _); [congruence|]. destruct (db !! t); [|congruence].
    repeat (match goal with |- context [if ?b then _ else _] => destruct b end;
            try congruence).
  - destruct (db !! t); [|congruence].
    repeat (match goal with |- context [if ?b then _ else _] => destruct b end;
            try congruence).
    destruct (obj_get pk_name (combine cols vals)) as [[]|]; congruence.
Qed.

Lemma pg_run_upsert_outcome sql t cols vals db db' :
  columns_of db t = columns_of db' t ->
  (pg_run sql (Upsert t cols vals) db).1 = (pg_run sql (Upsert t cols vals) db').1.
Proof.
  unfold columns_of, pg_run. intros H.
  destruct (db !! t) as [tbl|], (db' !! t) as [tbl'|]; simpl in H; try done.
  injection H as H. rewrite <- H.
  repeat (match goal with |- context [if ?b then _ else _] => destruct b end;
          try done).
  destruct (obj_get pk_name (combine cols vals)) as [[]|]; done.
Qed.

Lemma pg_run_upsert_columns sql t cols vals db t' :
  columns_of (pg_run sql (Upsert t cols vals) db).2 t' = columns_of db t'.
Proof.
  unfold columns_of, pg_run.
  destruct (db !! t) as [tbl|] eqn:Et; [|done].
  repeat (match goal with |- context [if ?b then _ else _] => destruct b end;
          try done).
  destruct (obj_get pk_name (combine cols vals)) as [[]|]; try done.
  simpl. destruct (decide (t = t')) as [->|Hne].
  - by rewrite lookup_insert_eq, Et.
  - by rewrite lookup_insert_ne.
Qed.

Lemma pg_run_upsert_rows sql t cols vals db rows db' id :
  pg_run sql (Upsert t cols vals) db = (Ok rows, db') ->
  (is_Some (rows_of db t !! id) -> is_Some (rows_of db' t !! id))
  /\ (obj_get pk_name (combine cols vals) = Some (VStr id) ->
      is_Some (rows_of db' t !! id)).
Proof.
  unfold rows_of, pg_run.
  destruct (db !! t) as [tbl|] eqn:Et; [|done].
  repeat (match goal with |- context [if ?b then _ else _] => destruct b end;
          try done).
  destruct (obj_get pk_name (combine cols vals)) as [[| | | |id'| |]|]; try done.
  intros [= _ <-]. rewrite lookup_insert_eq. simpl. split.
  - intros H. destruct (decide (id' = id)) as [->|Hne].
    + by rewrite lookup_insert_eq.
    + by rewrite lookup_insert_ne.
  - intros [= ->]. by rewrite lookup_insert_eq.
Qed.

Lemma page_outcome_columns notion sql t schemaMapping cols db db' pageId pageProps :
  columns_of db t = columns_of db' t ->
  (page_outcome notion sql t schemaMapping cols db pageId pageProps).1
  = (page_outcome notion sql t schemaMapping cols db' pageId pageProps).1.
Proof.
  intros H. unfold page_outcome.
  destruct (extract_all schemaMapping pageProps []) as [properties|e]; [|done].
  unfold upsert_stmt.
  match goal with |- context [pg_run sql (Upsert t ?c ?v) db] =>
    pose proof (pg_run_upsert_outcome sql t c v db db' H) as Ho;
    destruct (pg_run sql (Upsert t c v) db) as [[]?],
             (pg_run sql (Upsert t c v) db') as [[]?] end;
    cbn [fst snd] in *; congruence.
Qed.

Lemma page_outcome_keeps_columns notion sql t schemaMapping cols db pageId pageProps t' :
  columns_of (page_outcome notion sql t schemaMapping cols db pageId pageProps).2 t'
  = columns_of db t'.
Proof.
  unfold page_outcome.
  destruct (extract_all schemaMapping pageProps []) as [properties|e]; [|done].
  unfold upsert_stmt.
  match goal with |- context [pg_run sql (Upsert t ?c ?v) db] =>
    pose proof (pg_run_upsert_columns sql t c v db t') as Hc;
    destruct (pg_run sql (Upsert t c v) db) as [[]?] end; exact Hc.
Qed.

Lemma page_outcome_rows notion sql t schemaMapping cols db pageId pageProps id :
  (is_Some (rows_of db t !! id) ->
   is_Some (rows_of (page_outcome notion sql t schemaMapping cols db
                                  pageId pageProps).2 t !! id))
  /\ ((page_outcome notion sql t schemaMapping cols db pageId pageProps).1 = Ok tt ->
      is_Some (rows_of (page_outcome notion sql t schemaMapping cols db
                                     pageId pageProps).2 t !! pageId)).
Proof.
  unfold page_outcome.
  destruct (extract_all schemaMapping pageProps []) as [properties|e]; [|done].
  unfold upsert_stmt.
  match goal with |- context [pg_run sql (Upsert t ?c ?v) db] =>
    destruct (pg_run sql (Upsert t c v) db) as [[rows|e] db1] eqn:E end.
  - cbn [fst snd] in *. split.
    + intros H. by apply (proj1 (pg_run_upsert_rows _ _ _ _ _ _ _ id E)).
    + intros _. apply (proj2 (pg_run_upsert_rows _ _ _ _ _ _ _ pageId E)).
      reflexivity.
  - cbn [fst snd]. split; [|done].
    by rewrite (pg_run_throw_same _ _ _ _ _ E).
Qed.

Lemma page_synced_columns notion sql t schemaMapping db db' page :
  columns_of db t = columns_of db' t ->
  page_synced notion sql t schemaMapping db page
  = page_synced notion sql t schemaMapping db' page.
Proof.
  intros H. unfold page_synced. destruct (page_properties page); [|done].
  by rewrite (page_outcome_columns _ _ _ _ _ db db' _ _ H).
Qed.

Lemma page_error_columns notion sql t schemaMapping db db' page :
  columns_of db t = columns_of db' t ->
  page_error notion sql t schemaMapping db page
  = page_error notion sql t schemaMapping db' page.
Proof.
  intros H. unfold page_error. destruct (page_properties page); [|done].
  by rewrite (page_outcome_columns _ _ _ _ _ db db' _ _ H).
Qed.

(** One turn of the loop: it always completes, and counts the page by the
    way its [try] block ends. *)
Lemma processPage_step notion sql t schemaMapping r page s :
  exists s',
    processPage notion sql t schemaMapping
                (List.map columnName (obj_values schemaMapping)) r page s
    = (Ok {| processedCount :=
               processedCount r
               + (if page_synced notion sql t schemaMapping (tables s) page
                  then 1 else 0);
             errorCount :=
               errorCount r
               + length (option_list
                           (page_error notion sql t schemaMapping (tables s) page));
             errors :=
               errors r
               ++ option_list
                    (page_error notion sql t schemaMapping (tables s) page) |}, s')
    /\ (forall t', columns_of (tables s') t' = columns_of (tables s) t')
    /\ (forall id, is_Some (rows_of (tables s) t !! id) ->
                   is_Some (rows_of (tables s') t !! id))
    /\ (page_synced notion sql t schemaMapping (tables s) page = true ->
        is_Some (rows_of (tables s') t !! page_id page)).
Proof.
  unfold processPage, page_synced, page_error.
  destruct (page_properties page) as [pageProps|].
  - unfold try_catch, bind at 1.
    destruct (syncPage_outcome notion sql t schemaMapping
                (List.map columnName (obj_values schemaMapping))
                (page_id page) pageProps s) as (s1 & -> & Ht).
    pose proof (page_outcome_keeps_columns notion sql t schemaMapping
                  (List.map columnName (obj_values schemaMapping))
                  (tables s) (page_id page) pageProps) as Hc.
    pose proof (page_outcome_rows notion sql t schemaMapping
                  (List.map columnName (obj_values schemaMapping))
                  (tables s) (page_id page) pageProps) as Hr.
    rewrite <- Ht in Hc, Hr.
    destruct (page_outcome _ _ _ _ _ _ _ _).1 as [[]|e].
    + exists s1. unfold ret. simpl. rewrite app_nil_r.
      replace (processedCount r + 1)%nat with (S (processedCount r)) by lia.
      replace (errorCount r + 0)%nat with (errorCount r) by lia.
      split; [done|]. split; [done|]. split; [apply Hr|].
      intros _. by apply (Hr (page_id page)).
    + unfold bind, log, emit, ret. simpl. eexists. split.
      { replace (processedCount r + 0)%nat with (processedCount r) by lia.
        replace (errorCount r + 1)%nat with (S (errorCount r)) by lia.
        reflexivity. }
      simpl. split; [done|]. split; [apply Hr|done].
  - exists s. unfold ret. simpl. rewrite app_nil_r.
    replace (processedCount r + 0)%nat with (processedCount r) by lia.
    replace (errorCount r + 0)%nat with (errorCount r) by lia.
    by destruct r.
Qed.

(** The whole loop, counted against the tables [db0] it starts from. *)
Lemma processPages_counts notion sql t schemaMapping pages :
  forall r s db0,
    columns_of (tables s) t = columns_of db0 t ->
    exists r' s',
      for_of pages r
             (processPage notion sql t schemaMapping
                          (List.map columnName (obj_values schemaMapping))) s
      = (Ok r', s')
      /\ processedCount r'
         = (processedCount r
            + length (List.filter (page_synced notion sql t schemaMapping db0) pages))%nat
      /\ errorCount r'
         = (errorCount r
            + length (omap (page_error notion sql t schemaMapping db0) pages))%nat
      /\ errors r' = errors r ++ omap (page_error notion sql t schemaMapping db0) pages
      /\ columns_of (tables s') t = columns_of db0 t
      /\ (forall id, is_Some (rows_of (tables s) t !! id) ->
                     is_Some (rows_of (tables s') t !! id))
      /\ (forall p, p ∈ pages ->
                    page_synced notion sql t schemaMapping db0 p = true ->
                    is_Some (rows_of (tables s') t !! page_id p)).
Proof.
  induction pages as [|page pages IH]; intros r s db0 Hcols.
  - exists r, s. simpl. rewrite app_nil_r. unfold ret.
    repeat split; try done; try lia. intros p Hp. by apply elem_of_nil in Hp.
  - change (for_of (page :: pages) r ?f s)
      with (bind (f r page) (fun acc' => for_of pages acc' f) s).
    unfold bind at 1.
    destruct (processPage_step notion sql t schemaMapping r page s)
      as (s1 & -> & Hc1 & Hr1 & Hs1).
    rewrite (page_synced_columns _ _ _ _ _ db0 page Hcols) in *.
    rewrite (page_error_columns _ _ _ _ _ db0 page Hcols) in *.
    match goal with |- context [for_of pages ?r1 _ s1] =>
      destruct (IH r1 s1 db0) as (r' & s' & -> & Hp & He & Hm & Hc & Hr & Hs) end.
    { by rewrite Hc1. }
    exists r', s'. cbn [processedCount errorCount errors] in Hp, He, Hm.
    split; [done|].
    rewrite Hp, He, Hm. cbn [List.filter omap list_omap].
    destruct (page_synced notion sql t schemaMapping db0 page) eqn:Esy,
             (page_error notion sql t schemaMapping db0 page);
      unfold option_list, option_rect; cbn [length]; rewrite <- ?app_assoc;
      (split; [lia|]); (split; [lia|]); (split; [done|]).
    all: split; [done|]; split; [by intros id H; apply Hr, Hr1|].
    all: intros p [->|Hin]%elem_of_cons Hsy; [|by apply Hs].
    all: try congruence; by apply Hr, Hs1.
Qed.

(** ** One invocation *)

Lemma runSync_after_schema notion sql options state s schemaMapping s1 :
  prepareSchema notion sql options state s = (Ok schemaMapping, s1) ->
  runSync notion sql options state s
  = syncBatch notion sql options state schemaMapping s1.
Proof. intros H. unfold runSync, bind. by rewrite H. Qed.

(** Once the query has answered, the batch runs to its end: no failure of a
    page escapes the loop. *)
Lemma syncBatch_returns notion sql options state schemaMapping s q :
  databases_query notion (queryParamsOf options state) = Ok q ->
  exists r s',
    syncBatch notion sql options state schemaMapping s
    = (Ok {| result := r; nextState := nextStateOf state q;
             hasMore := has_more q |}, s')
    /\ processedCount r
       = length (List.filter
                   (page_synced notion sql (getTableName (databaseId options))
                                schemaMapping (tables s)) (results q))
    /\ errors r
       = omap (page_error notion sql (getTableName (databaseId options))
                          schemaMapping (tables s)) (results q)
    /\ errorCount r = length (errors r)
    /\ (forall p, p ∈ results q ->
          page_synced notion sql (getTableName (databaseId options))
                      schemaMapping (tables s) p = true ->
          is_Some (rows_of (tables s') (getTableName (databaseId options))
                   !! page_id p)).
Proof.
  intros Hq. unfold syncBatch. unfold bind at 1, emit.
  unfold bind at 1, lift. rewrite Hq.
  unfold bind at 1, log, emit.
  unfold bind at 1.
  match goal with |- context [for_of (results q) ?r0 _ ?s0] =>
    destruct (processPages_counts notion sql (getTableName (databaseId options))
                schemaMapping (results q) r0 s0 (tables s) eq_refl)
      as (r & s1 & -> & Hp & He & Hm & _ & _ & Hrows) end.
  unfold bind, ret. eexists r, _. split; [reflexivity|].
  simpl in Hp, He, Hm. rewrite Hm. repeat split; try done.
Qed.

Example table_name_sample : sample_table = js "notion_8a1b2c3d_4e5f_6a7b_8".
Proof. reflexivity. Qed.

Example first_run_creates_table :
  columns_of (tables ready) sample_table
  = Some [ {| pg_name := js "notion_page_id"; pg_type := js "TEXT"; pg_pk := true |};
           {| pg_name := js "page_content"; pg_type := js "TEXT"; pg_pk := false |};
           {| pg_name := js "synced_at"; pg_type := js "TIMESTAMPTZ"; pg_pk := false |};
           {| pg_name := js "title"; pg_type := js "TEXT"; pg_pk := false |};
           {| pg_name := js "status"; pg_type := js "TEXT"; pg_pk := false |} ].
Proof. vm_compute. reflexivity. Qed.

Example five_pages_run :
  exists out s',
    runSync (sample_client sample_schema five_pages) lenient_sql sample_options
            (Some watermark_state) ready = (Ok out, s')
    /\ processedCount (result out) = 4%nat
    /\ errorCount (result out) = 1%nat
    /\ errors (result out) = [js "Page p3: TypeError: items?.map is not a function"]
    /\ nextState out = Some {| lastSyncTime := Some (js "2024-05-02T08:04:00.000Z");
                               cursor := None |}
    /\ List.map (fun id => bool_decide
                   (is_Some (rows_of (tables s') sample_table !! js id)))
                ["p1"; "p2"; "p3"; "p4"; "p5"]%string
       = [true; true; false; true; true].
Proof.
  eexists _, _. split; [vm_compute; reflexivity|].
  repeat split; vm_compute; reflexivity.
Qed.

Example write_failure_run :
  exists out s',
    runSync (sample_client sample_schema five_full_pages) picky_sql sample_options
            (Some watermark_state) ready = (Ok out, s')
    /\ processedCount (result out) = 4%nat
    /\ errorCount (result out) = 1%nat
    /\ errors (result out) = [js "Page p2: NeonDbError: invalid input value"]
    /\ List.map (fun id => bool_decide
                   (is_Some (rows_of (tables s') sample_table !! js id)))
                ["p1"; "p2"; "p3"; "p4"; "p5"]%string
       = [true; false; true; true; true].
Proof.
  eexists _, _. split; [vm_compute; reflexivity|].
  repeat split; vm_compute; reflexivity.
Qed.

(** C1 (amended).  When the remote reports [has_more] with a non-empty next
    cursor, the returned state carries that cursor, and the watermark of the
    state the invocation started from, if it had one. *)
Theorem runSync_continuation notion sql options state s schemaMapping s1 q c :
  prepareSchema notion sql options state s = (Ok schemaMapping, s1) ->
  databases_query notion (queryParamsOf options state) = Ok q ->
  has_more q = true -> next_cursor q = Some c -> c <> [] ->
  exists out s',
    runSync notion sql options state s = (Ok out, s')
    /\ nextState out = Some {| lastSyncTime := state ≫= lastSyncTime;
                               cursor := Some c |}
    /\ hasMore out = true.
Proof.
  intros Hprep Hq Hmore Hc Hne.
  rewrite (runSync_after_schema _ _ _ _ _ _ _ Hprep).
  destruct (syncBatch_returns notion sql options state schemaMapping s1 q Hq)
    as (r & s' & -> & _).
  eexists _, s'. split; [reflexivity|]. cbn [nextState hasMore].
  split; [|done]. unfold nextStateOf. rewrite Hmore, Hc. simpl.
  apply jstring_eqb_neq in Hne. by rewrite Hne.
Qed.

Lemma runSync_continuation_witness :
  exists out s',
    runSync (sample_client sample_schema first_of_two) lenient_sql sample_options
            (Some cursor_state) ready = (Ok out, s')
    /\ nextState out = Some {| lastSyncTime := None; cursor := Some (js "cursor-2") |}
    /\ hasMore out = true.
Proof.
  apply (runSync_continuation
           (sample_client sample_schema first_of_two) lenient_sql sample_options
           (Some cursor_state) ready (mapping_of sample_schema)
           (prepareSchema (sample_client sample_schema first_of_two) lenient_sql
                          sample_options (Some cursor_state) ready).2
           first_of_two (js "cursor-2")).
  - vm_compute. reflexivity.
  - reflexivity.
  - reflexivity.
  - reflexivity.
  - vm_compute. discriminate.
Defined.

(** C1 as stated fails: started from a watermark, a page with more to come
    returns a state that holds the next cursor and that watermark. *)
Lemma runSync_continuation_keeps_watermark :
  databases_query (sample_client sample_schema first_of_two)
                  (queryParamsOf sample_options (Some watermark_state))
  = Ok first_of_two
  /\ has_more first_of_two = true
  /\ next_cursor first_of_two = Some (js "cursor-2")
  /\ exists out s',
       runSync (sample_client sample_schema first_of_two) lenient_sql
               sample_options (Some watermark_state) ready = (Ok out, s')
       /\ nextState out
          = Some {| lastSyncTime := Some (js "2024-05-01T10:00:00.000Z");
                    cursor := Some (js "cursor-2") |}.
Proof.
  repeat split. eexists _, _. split; vm_compute; reflexivity.
Qed.

(** C2 (amended).  When the remote returns at least one record without
    announcing a further page, and the last record is a full page object,
    which carries [last_edited_time], the returned state holds that time as
    watermark and no cursor; when the last record is a partial object, the
    returned state is undefined. *)
Theorem runSync_watermark notion sql options state s schemaMapping s1 q lastPage :
  prepareSchema notion sql options state s = (Ok schemaMapping, s1) ->
  databases_query notion (queryParamsOf options state) = Ok q ->
  has_more q = false ->
  last (results q) = Some lastPage ->
  exists out s',
    runSync notion sql options state s = (Ok out, s')
    /\ hasMore out = false
    /\ nextState out
       = match page_last_edited_time lastPage with
         | Some t => Some {| lastSyncTime := Some t; cursor := None |}
         | None => None
         end.
Proof.
  intros Hprep Hq Hmore Hlast.
  rewrite (runSync_after_schema _ _ _ _ _ _ _ Hprep).
  destruct (syncBatch_returns notion sql options state schemaMapping s1 q Hq)
    as (r & s' & -> & _).
  eexists _, s'. split; [reflexivity|]. cbn [nextState hasMore].
  split; [done|]. unfold nextStateOf. by rewrite Hmore, Hlast.
Qed.

Lemma runSync_watermark_witness :
  exists out s',
    runSync (sample_client sample_schema last_is_full) lenient_sql sample_options
            (Some cursor_state) ready = (Ok out, s')
    /\ hasMore out = false
    /\ nextState out = Some {| lastSyncTime := Some (js "2024-05-03T09:30:00.000Z");
                               cursor := None |}.
Proof.
  apply (runSync_watermark
           (sample_client sample_schema last_is_full) lenient_sql sample_options
           (Some cursor_state) ready (mapping_of sample_schema)
           (prepareSchema (sample_client sample_schema last_is_full) lenient_sql
                          sample_options (Some cursor_state) ready).2
           last_is_full
           (full_page (js "p2") (js "World") (js "2024-05-03T09:30:00.000Z"))).
  - vm_compute. reflexivity.
  - reflexivity.
  - reflexivity.
  - reflexivity.
Defined.

(** C2 as stated fails: two records, no further page, the last one a partial
    page object; the returned state is undefined. *)
Lemma runSync_partial_last_page_no_watermark :
  databases_query (sample_client sample_schema last_is_partial)
                  (queryParamsOf sample_options (Some cursor_state))
  = Ok last_is_partial
  /\ length (results last_is_partial) = 2%nat
  /\ has_more last_is_partial = false
  /\ exists out s',
       runSync (sample_client sample_schema last_is_partial) lenient_sql
               sample_options (Some cursor_state) ready = (Ok out, s')
       /\ nextState out = None.
Proof.
  repeat split. eexists _, _. split; vm_compute; reflexivity.
Qed.

(** ** Isolation of failures *)

Lemma page_error_not_synced notion sql t schemaMapping db p :
  is_Some (page_error notion sql t schemaMapping db p) ->
  page_synced notion sql t schemaMapping db p = false.
Proof.
  unfold page_error, page_synced. destruct (page_properties p); [|done].
  destruct (page_outcome _ _ _ _ _ _ _ _).1; [by intros [? [=]]|done].
Qed.

Lemma page_synced_no_error notion sql t schemaMapping db p :
  page_synced notion sql t schemaMapping db p = true ->
  page_error notion sql t schemaMapping db p = None.
Proof.
  unfold page_error, page_synced. destruct (page_properties p); [|done].
  by destruct (page_outcome _ _ _ _ _ _ _ _).1.
Qed.

(** C4.  A record whose extraction or write fails is caught: it adds one to
    the error counter and one message, and the records after it are still
    processed.  The counters of a batch are the number of records whose own
    sync succeeds and the number whose own sync fails, each judged against
    the tables the batch started from; the records that succeed are in the
    table afterwards.  A batch of five where only the third fails gives
    processedCount 4 and errorCount 1. *)
Theorem runSync_error_isolation notion sql options state s schemaMapping s1 q :
  prepareSchema notion sql options state s = (Ok schemaMapping, s1) ->
  databases_query notion (queryParamsOf options state) = Ok q ->
  exists out s',
    runSync notion sql options state s = (Ok out, s')
    /\ processedCount (result out)
       = length (List.filter
                   (page_synced notion sql (getTableName (databaseId options))
                                schemaMapping (tables s1)) (results q))
    /\ errorCount (result out)
       = length (omap (page_error notion sql (getTableName (databaseId options))
                                  schemaMapping (tables s1)) (results q))
    /\ errors (result out)
       = omap (page_error notion sql (getTableName (databaseId options))
                          schemaMapping (tables s1)) (results q)
    /\ (forall p, p ∈ results q ->
          page_synced notion sql (getTableName (databaseId options))
                      schemaMapping (tables s1) p = true ->
          is_Some (rows_of (tables s') (getTableName (databaseId options))
                   !! page_id p))
    /\ (forall p1 p2 p3 p4 p5,
          results q = [p1; p2; p3; p4; p5] ->
          page_synced notion sql (getTableName (databaseId options))
                      schemaMapping (tables s1) p1 = true ->
          page_synced notion sql (getTableName (databaseId options))
                      schemaMapping (tables s1) p2 = true ->
          is_Some (page_error notion sql (getTableName (databaseId options))
                              schemaMapping (tables s1) p3) ->
          page_synced notion sql (getTableName (databaseId options))
                      schemaMapping (tables s1) p4 = true ->
          page_synced notion sql (getTableName (databaseId options))
                      schemaMapping (tables s1) p5 = true ->
          processedCount (result out) = 4%nat
          /\ errorCount (result out) = 1%nat
          /\ length (errors (result out)) = 1%nat).
Proof.
  intros Hprep Hq.
  rewrite (runSync_after_schema _ _ _ _ _ _ _ Hprep).
  destruct (syncBatch_returns notion sql options state schemaMapping s1 q Hq)
    as (r & s' & -> & Hp & Hm & He & Hrows).
  eexists _, s'. split; [reflexivity|]. cbn [result].
  split; [done|]. split; [by rewrite He, Hm|]. split; [done|].
  split; [done|].
  intros p1 p2 p3 p4 p5 Hres H1 H2 H3 H4 H5.
  rewrite He, Hp, Hm, Hres.
  pose proof (page_error_not_synced _ _ _ _ _ _ H3) as H3'.
  cbn [List.filter omap list_omap].
  rewrite H1, H2, H3', H4, H5.
  rewrite (page_synced_no_error _ _ _ _ _ _ H1),
          (page_synced_no_error _ _ _ _ _ _ H2),
          (page_synced_no_error _ _ _ _ _ _ H4),
          (page_synced_no_error _ _ _ _ _ _ H5).
  destruct H3 as [m ->]. done.
Qed.

Lemma runSync_error_isolation_witness :
  exists out s',
    runSync (sample_client sample_schema five_pages) lenient_sql sample_options
            (Some watermark_state) ready = (Ok out, s')
    /\ processedCount (result out) = 4%nat
    /\ errorCount (result out) = 1%nat
    /\ length (errors (result out)) = 1%nat.
Proof.
  destruct (runSync_error_isolation
              (sample_client sample_schema five_pages) lenient_sql sample_options
              (Some watermark_state) ready (mapping_of sample_schema)
              (prepareSchema (sample_client sample_schema five_pages) lenient_sql
                             sample_options (Some watermark_state) ready).2
              five_pages)
    as (out & s' & Hrun & _ & _ & _ & _ & Hfive).
  - vm_compute. reflexivity.
  - reflexivity.
  - exists out, s'. split; [exact Hrun|].
    apply (Hfive (full_page (js "p1") (js "A") (js "2024-05-02T08:00:00.000Z"))
                 (full_page (js "p2") (js "B") (js "2024-05-02T08:01:00.000Z"))
                 (bad_page (js "p3") (js "2024-05-02T08:02:00.000Z"))
                 (full_page (js "p4") (js "D") (js "2024-05-02T08:03:00.000Z"))
                 (full_page (js "p5") (js "E") (js "2024-05-02T08:04:00.000Z")));
      first [ reflexivity | vm_compute; reflexivity
            | vm_compute; eexists; reflexivity ].
Defined.

(** ** Content flattening *)

(** C9.  [pageToMarkdown] always returns: when the conversion fails it
    returns the empty string.  A page whose conversion fails is written with
    empty content and counted as processed, not as an error, whenever its
    extraction and its write go through. *)
Theorem pageToMarkdown_never_raises notion s :
  (forall pageId,
      exists content s',
        pageToMarkdown notion pageId s = (Ok content, s')
        /\ tables s' = tables s
        /\ (forall e, n2m_parent notion SKIP_TYPES pageId = Throw e ->
                      content = []))
  /\ (forall sql t schemaMapping r page pageProps e propertyValues rows db',
      page_properties page = Some pageProps ->
      n2m_parent notion SKIP_TYPES (page_id page) = Throw e ->
      extract_all schemaMapping pageProps [] = Ok propertyValues ->
      pg_run sql
             (upsert_stmt t {| notion_page_id := page_id page;
                               page_content := [];
                               synced_at := now notion;
                               properties := propertyValues |}
                          (List.map columnName (obj_values schemaMapping)))
             (tables s) = (Ok rows, db') ->
      exists s',
        processPage notion sql t schemaMapping
                    (List.map columnName (obj_values schemaMapping)) r page s
        = (Ok {| processedCount := S (processedCount r);
                 errorCount := errorCount r;
                 errors := errors r |}, s')
        /\ tables s' = db').
Proof.
  split.
  - intros pageId.
    destruct (pageToMarkdown_pure notion pageId s) as (s' & Hrun & Ht).
    exists (markdown_of notion pageId), s'. split; [done|]. split; [done|].
    intros e He. unfold markdown_of. by rewrite He.
  - intros sql t schemaMapping r page pageProps e propertyValues rows db'
           Hprops Hmd Hex Hrun.
    unfold processPage. rewrite Hprops. unfold try_catch, bind at 1.
    destruct (syncPage_outcome notion sql t schemaMapping
                (List.map columnName (obj_values schemaMapping))
                (page_id page) pageProps s) as (s1 & -> & Ht).
    revert Ht. unfold page_outcome. rewrite Hex.
    unfold markdown_of. rewrite Hmd, Hrun. cbn [fst snd]. intros Ht.
    exists s1. by unfold ret.
Qed.

Lemma pageToMarkdown_never_raises_witness :
  (exists content s',
      pageToMarkdown (unconvertible_client sample_schema nothing_more)
                     (js "p1") ready = (Ok content, s')
      /\ content = [])
  /\ exists s',
      processPage (unconvertible_client sample_schema nothing_more) lenient_sql
                  sample_table title_only [js "title"]
                  {| processedCount := 0; errorCount := 0; errors := [] |}
                  (full_page (js "p1") (js "Hello") (js "2024-05-02T08:00:00.000Z"))
                  ready
      = (Ok {| processedCount := 1; errorCount := 0; errors := [] |}, s').
Proof.
  pose proof (pageToMarkdown_never_raises
                (unconvertible_client sample_schema nothing_more) ready)
    as [Hmd Hpage].
  split.
  - destruct (Hmd (js "p1")) as (content & s' & Hrun & _ & Hempty).
    exists content, s'. split; [exact Hrun|].
    apply (Hempty (JsError (js "APIResponseError") (js "Could not find block"))).
    reflexivity.
  - destruct (Hpage lenient_sql sample_table title_only
                {| processedCount := 0; errorCount := 0; errors := [] |}
                (full_page (js "p1") (js "Hello") (js "2024-05-02T08:00:00.000Z"))
                [(js "Title", title_of (js "Hello"));
                 (js "Status", select_of (js "Done"))]
                (JsError (js "APIResponseError") (js "Could not find block"))
                [(js "title", VStr (js "Hello"))]
                RowsNone
                (pg_run lenient_sql
                   (upsert_stmt sample_table
                      {| notion_page_id := js "p1"; page_content := [];
                         synced_at := js "2024-06-01T00:00:00.000Z";
                         properties := [(js "title", VStr (js "Hello"))] |}
                      [js "title"]) (tables ready)).2)
      as (s' & Hrun & _).
    + reflexivity.
    + reflexivity.
    + reflexivity.
    + vm_compute. reflexivity.
    + exists s'. exact Hrun.
Defined.

(** ** Traces *)

Section emits_rules.
Context (P : Event -> Prop).

Lemma emits_ret {A} (a : A) : emits P (ret a).
Proof. intros s. exists []. by rewrite app_nil_r. Qed.

Lemma emits_throw {A} e : emits P (@throw A e).
Proof. intros s. exists []. by rewrite app_nil_r. Qed.

Lemma emits_lift {A} (r : res A) : emits P (lift r).
Proof. intros s. exists []. by rewrite app_nil_r. Qed.

Lemma emits_emit e : P e -> emits P (emit e).
Proof. intros H s. exists [e]. split; [done|]. by apply Forall_singleton. Qed.

Lemma emits_log lvl scope msg : P (EvLog lvl scope msg) -> emits P (log lvl scope msg).
Proof. apply emits_emit. Qed.

Lemma emits_sql_query sql st : P (EvSql st) -> emits P (sql_query sql st).
Proof.
  intros H s. exists [EvSql st]. unfold sql_query.
  destruct (pg_run sql st (tables s)). split; [done|]. by apply Forall_singleton.
Qed.

Lemma emits_bind {A B} (m : M A) (k : A -> M B) :
  emits P m -> (forall a, emits P (k a)) -> emits P (bind m k).
Proof.
  intros Hm Hk s. unfold bind. destruct (Hm s) as (tr & Htr & HP).
  destruct (m s) as [[a|e] s1]; simpl in Htr.
  - destruct (Hk a s1) as (tr' & Htr' & HP'). exists (tr ++ tr').
    rewrite Htr', Htr, app_assoc. split; [done|]. by apply Forall_app.
  - by exists tr.
Qed.

Lemma emits_try_catch {A} (m : M A) (h : exn -> M A) :
  emits P m -> (forall e, emits P (h e)) -> emits P (try_catch m h).
Proof.
  intros Hm Hh s. unfold try_catch. destruct (Hm s) as (tr & Htr & HP).
  destruct (m s) as [[a|e] s1]; simpl in Htr.
  - by exists tr.
  - destruct (Hh e s1) as (tr' & Htr' & HP'). exists (tr ++ tr').
    rewrite Htr', Htr, app_assoc. split; [done|]. by apply Forall_app.
Qed.

Lemma emits_for_of {A B} (l : list A) (acc : B) (body : B -> A -> M B) :
  (forall acc x, x ∈ l -> emits P (body acc x)) -> emits P (for_of l acc body).
Proof.
  revert acc. induction l as [|x l IH]; intros acc Hb; [apply emits_ret|].
  simpl. apply emits_bind.
  - apply Hb. by left.
  - intros acc'. apply IH. intros acc0 y Hy. apply Hb. by right.
Qed.
End emits_rules.

Lemma emits_weaken {A} (P Q : Event -> Prop) (m : M A) :
  (forall e, P e -> Q e) -> emits P m -> emits Q m.
Proof.
  intros HPQ Hm s. destruct (Hm s) as (tr & Htr & HP). exists tr.
  split; [done|]. by eapply Forall_impl.
Qed.

(** An event emitted first is in the trace, whatever follows. *)
Lemma emits_first {A} (e : Event) (k : unit -> M A) s :
  (forall u, emits (fun _ => True) (k u)) ->
  exists tr, trace (bind (emit e) k s).2 = trace s ++ e :: tr.
Proof.
  intros Hk. unfold bind, emit.
  destruct (Hk tt {| tables := tables s; trace := trace s ++ [e] |})
    as (tr & Htr & _).
  exists tr. rewrite Htr. simpl. by rewrite <- app_assoc.
Qed.

Ltac emits_step :=
  first
    [ apply emits_ret | apply emits_throw | apply emits_lift
    | apply emits_log | apply emits_emit | apply emits_sql_query
    | apply emits_bind; [|intros ?]
    | apply emits_try_catch; [|intros ?]
    | match goal with
      | |- emits _ (match ?x with _ => _ end) => destruct x
      end ].

Lemma emits_extractPropertyValue P p :
  (forall lvl scope msg, P (EvLog lvl scope msg)) -> emits P (extractPropertyValue p).
Proof.
  intros HP. unfold extractPropertyValue.
  destruct p; repeat emits_step; apply HP.
Qed.

Lemma emits_pageToMarkdown P notion pageId :
  (forall lvl scope msg, P (EvLog lvl scope msg)) ->
  P (EvMarkdown SKIP_TYPES pageId) ->
  emits P (pageToMarkdown notion pageId).
Proof.
  intros HP Hmd. unfold pageToMarkdown. repeat emits_step; done || apply HP.
Qed.

Lemma emits_upsertRecord P sql t record cols :
  (forall lvl scope msg, P (EvLog lvl scope msg)) ->
  (forall cs vs, P (EvSql (Upsert t cs vs))) ->
  emits P (upsertRecord sql t record cols).
Proof.
  intros HP Hup. unfold upsertRecord, upsert_stmt.
  repeat emits_step; done || apply HP || apply Hup.
Qed.

Lemma emits_processPage P notion sql t schemaMapping cols r page :
  (forall lvl scope msg, P (EvLog lvl scope msg)) ->
  (forall skip id, P (EvMarkdown skip id)) ->
  (forall cs vs, P (EvSql (Upsert t cs vs))) ->
  emits P (processPage notion sql t schemaMapping cols r page).
Proof.
  intros HP Hmd Hup. unfold processPage. destruct (page_properties page).
  - apply emits_try_catch; [|intros ?; repeat emits_step; apply HP].
    apply emits_bind; [|intros ?; apply emits_ret].
    unfold syncPage. apply emits_bind.
    { apply emits_for_of. intros acc [n d] _. unfold extract_entry.
      destruct (truthy _); [|apply emits_ret].
      apply emits_bind; [by apply emits_extractPropertyValue|].
      intros ?. apply emits_ret. }
    intros ?. apply emits_bind; [by apply emits_pageToMarkdown|].
    intros ?. by apply emits_upsertRecord.
  - apply emits_ret.
Qed.

Lemma emits_syncBatch P notion sql options state schemaMapping :
  (forall lvl scope msg, P (EvLog lvl scope msg)) ->
  (forall skip id, P (EvMarkdown skip id)) ->
  (forall t cs vs, P (EvSql (Upsert t cs vs))) ->
  P (EvQuery (queryParamsOf options state)) ->
  emits P (syncBatch notion sql options state schemaMapping).
Proof.
  intros HP Hmd Hup Hq. unfold syncBatch.
  apply emits_bind; [by apply emits_emit|]. intros _.
  apply emits_bind; [apply emits_lift|]. intros q.
  apply emits_bind; [apply emits_log, HP|]. intros _.
  apply emits_bind.
  { apply emits_for_of. intros acc p _. by apply emits_processPage. }
  intros r. apply emits_bind; [apply emits_log, HP|]. intros _. apply emits_ret.
Qed.

Lemma emits_fetchNotionSchema P notion id :
  (forall lvl scope msg, P (EvLog lvl scope msg)) ->
  P (EvRetrieve id) ->
  emits P (fetchNotionSchema notion id).
Proof.
  intros HP Hr. unfold fetchNotionSchema.
  apply emits_bind; [apply emits_log, HP|]. intros _.
  apply emits_bind; [by apply emits_emit|]. intros _.
  apply emits_bind; [apply emits_lift|]. intros [props|]; [|apply emits_throw].
  apply emits_bind.
  { apply emits_for_of. intros acc [n tag] _. unfold schema_entry.
    destruct (property_type_of tag); [apply emits_ret|].
    apply emits_bind; [apply emits_log, HP|]. intros _. apply emits_ret. }
  intros m. apply emits_bind; [apply emits_log, HP|]. intros _. apply emits_ret.
Qed.

Lemma emits_syncSchema P sql t schema :
  (forall lvl scope msg, P (EvLog lvl scope msg)) ->
  P (EvSql (SelectTableExists t)) ->
  P (EvSql (SelectColumns t)) ->
  (forall defs, P (EvSql (CreateTable t defs))) ->
  (forall pm, pm ∈ obj_values schema -> P (EvSql (AddColumn t (def_of_property pm)))) ->
  P (EvSql (AddColumn t def_page_content)) ->
  P (EvSql (AddColumn t def_synced_at)) ->
  emits P (syncSchema sql t schema).
Proof.
  intros HP Hex Hcols Hcreate Hprop Hpc Hsa. unfold syncSchema.
  apply emits_bind.
  { unfold tableExists. apply emits_bind; [by apply emits_sql_query|].
    intros ?. apply emits_ret. }
  intros [|]; cbn [negb].
  - apply emits_bind.
    { unfold getTableColumns. apply emits_bind; [by apply emits_sql_query|].
      intros ?. apply emits_ret. }
    intros existingCols. apply emits_bind.
    { apply emits_for_of. intros acc pm Hpm. unfold add_property_column.
      destruct (negb _); [|apply emits_ret].
      apply emits_bind; [by apply emits_sql_query, Hprop|]. intros _.
      apply emits_bind; [apply emits_log, HP|]. intros _. apply emits_ret. }
    intros r. apply emits_bind; [|intros ?; apply emits_ret].
    apply emits_for_of. intros acc col Hcol. unfold add_special_column.
    destruct (negb _); [|apply emits_ret].
    destruct (jstring_eqb (cd_name col) (js "notion_page_id")) eqn:Epk.
    { apply emits_bind; [apply emits_log, HP|]. intros _. apply emits_ret. }
    apply emits_bind.
    { apply emits_sql_query. unfold specialCols in Hcol.
      apply elem_of_cons in Hcol as [->|Hcol]; [done|].
      apply elem_of_cons in Hcol as [->|Hcol]; [done|].
      apply list_elem_of_singleton in Hcol as ->. done. }
    intros _. apply emits_bind; [apply emits_log, HP|]. intros _. apply emits_ret.
  - apply emits_bind; [apply emits_sql_query, Hcreate|]. intros _.
    apply emits_bind; [apply emits_log, HP|]. intros _. apply emits_ret.
Qed.

(** ** Schema reconciliation *)

Lemma utf8_width_le c : (utf8_width c <= 4)%nat.
Proof.
  unfold utf8_width.
  repeat (match goal with |- context [if ?b then _ else _] => destruct b end); lia.
Qed.

(** A prefix cut well below the budget is the whole name. *)
Lemma clip_short b s : (4 * (length (clip b s) + 1) <= b)%nat -> clip b s = s.
Proof.
  revert b. induction s as [|c r IH]; intros b; [done|]. cbn [clip].
  pose proof (utf8_width_le c) as Hw.
  destruct (utf8_width c <=? b)%nat eqn:E.
  - cbn [length]. intros H. f_equal. apply IH. lia.
  - apply Nat.leb_gt in E. cbn [length]. lia.
Qed.

(** Only a name of 15 code units or more can be cut, and then to no less
    than that: a name cut to a short one, such as the name of a special
    column, is that name. *)
Lemma pg_ident_short s k : pg_ident s = k -> (length k < 15)%nat -> s = k.
Proof.
  intros <- Hk. symmetry. apply clip_short. unfold pg_ident in Hk. lia.
Qed.

(** Twenty-two ideographs take 66 bytes: the engine keeps twenty-one.  A
    character outside the basic plane is kept or dropped whole. *)
Example pg_ident_multibyte :
  pg_ident (repeat 0x540D 22%nat) = repeat 0x540D 21%nat
  /\ pg_ident (js "abcdefghijklmnopqrstuvwxyz0123456789_abcdefghijklmnopqrstuvwxy"
               ++ [0xD83D; 0xDE00])
     = js "abcdefghijklmnopqrstuvwxyz0123456789_abcdefghijklmnopqrstuvwxy".
Proof. split; reflexivity. Qed.

Lemma has_column_spec c cols : has_column c cols = true <-> c ∈ List.map pg_name cols.
Proof.
  unfold has_column. rewrite existsb_exists, list_elem_of_In, in_map_iff. split.
  - intros (x & Hin & Heq%jstring_eqb_eq). by exists x.
  - intros (x & Heq & Hin). exists x. split; [done|]. by apply jstring_eqb_eq.
Qed.

Lemma has_column_app c cols extra :
  has_column c (cols ++ extra) = has_column c cols || has_column c extra.
Proof. unfold has_column. apply existsb_app. Qed.

Lemma existing_names_spec c cols :
  bool_decide (c ∈ existing_names cols) = has_column c cols.
Proof.
  unfold existing_names. apply eq_true_iff_eq.
  rewrite bool_decide_eq_true, elem_of_list_to_set. symmetry. apply has_column_spec.
Qed.

Lemma tableExists_run sql t s :
  tableExists sql t s
  = (Ok (bool_decide (is_Some (tables s !! t))),
     {| tables := tables s; trace := trace s ++ [EvSql (SelectTableExists t)] |}).
Proof. reflexivity. Qed.

Lemma getTableColumns_run sql t s tbl :
  tables s !! t = Some tbl ->
  exists cols,
    getTableColumns sql t s
    = (Ok cols,
       {| tables := tables s; trace := trace s ++ [EvSql (SelectColumns t)] |})
    /\ (list_to_set (List.map column_name cols) : gset (list N))
       = existing_names (pg_columns tbl).
Proof.
  intros Ht. unfold getTableColumns, bind, sql_query, ret, pg_run. rewrite Ht.
  eexists. split; [reflexivity|]. simpl. unfold existing_names.
  by rewrite List.map_map.
Qed.

(** [ALTER TABLE ... ADD COLUMN] either fails and changes nothing, or puts
    the column last. *)
Lemma executeRaw_add_column sql t d s tbl r s' :
  tables s !! t = Some tbl ->
  executeRaw sql (AddColumn t d) s = (Ok r, s') ->
  tables s' = <[t := {| pg_columns := pg_columns tbl ++ [column_of_def d];
                        pg_rows := pg_rows tbl |}]> (tables s)
  /\ trace s' = trace s ++ [EvSql (AddColumn t d)]
  /\ has_column (pg_ident (cd_name d)) (pg_columns tbl) = false.
Proof.
  intros Ht. unfold executeRaw, sql_query, pg_run.
  destruct (jstring_eqb (cd_name d) []); [done|]. rewrite Ht.
  destruct (is_system_column _); [done|].
  destruct (has_column _ (pg_columns tbl)); [done|].
  by intros [= _ <-].
Qed.

Lemma table_eta tbl :
  {| pg_columns := pg_columns tbl ++ []; pg_rows := pg_rows tbl |} = tbl.
Proof. destruct tbl. simpl. by rewrite app_nil_r. Qed.

(** "Add missing property columns": when the loop completes, the table has
    gained, in order, exactly the columns the result lists, and holds a
    column for every property. *)
Lemma add_property_columns_run sql t E props :
  forall r s tbl r' s',
    tables s !! t = Some tbl ->
    for_of props r (add_property_column sql t E) s = (Ok r', s') ->
    exists defs,
      tables s' !! t = Some {| pg_columns := pg_columns tbl
                                             ++ List.map column_of_def defs;
                               pg_rows := pg_rows tbl |}
      /\ created r' = created r
      /\ columnsAdded r' = columnsAdded r ++ List.map cd_name defs
      /\ (forall pm, pm ∈ props ->
            columnName pm ∈ E
            \/ has_column (pg_ident (columnName pm))
                          (pg_columns tbl ++ List.map column_of_def defs) = true)
      /\ (forall d, d ∈ defs ->
            exists pm, pm ∈ props /\ d = def_of_property pm).
Proof.
  induction props as [|pm rest IH]; intros r s tbl r' s' Ht Hrun.
  - injection Hrun as <- <-. exists []. rewrite table_eta, app_nil_r.
    repeat split; try done.
    + intros pm Hpm. by apply elem_of_nil in Hpm.
    + intros c Hc. by apply elem_of_nil in Hc.
  - change (for_of (pm :: rest) r ?f s)
      with (bind (f r pm) (fun acc' => for_of rest acc' f) s) in Hrun.
    unfold bind at 1, add_property_column at 1 in Hrun.
    destruct (bool_decide (columnName pm ∈ E)) eqn:EE; cbn [negb] in Hrun.
    + unfold ret in Hrun. destruct (IH _ _ _ _ _ Ht Hrun)
        as (extra & Ht' & Hc & Ha & Hall & Hex).
      exists extra. repeat split; try done.
      * intros pm' [->|Hin]%elem_of_cons; [|by apply Hall].
        left. by apply bool_decide_eq_true in EE.
      * intros c Hc'. destruct (Hex c Hc') as (pm' & ? & ?).
        exists pm'. split; [by right|done].
    + unfold bind at 1 in Hrun.
      destruct (executeRaw sql (AddColumn t (def_of_property pm)) s)
        as [[rows|e] sa] eqn:Eexec; [|done].
      destruct (executeRaw_add_column _ _ _ _ _ _ _ Ht Eexec) as (Hta & _ & Hfresh).
      unfold bind, log, emit, ret in Hrun. cbn [tables] in Hrun.
      match type of Hrun with for_of rest ?r1 _ ?sb = _ =>
        destruct (IH r1 sb {| pg_columns := pg_columns tbl
                                ++ [column_of_def (def_of_property pm)];
                              pg_rows := pg_rows tbl |} r' s')
          as (extra & Ht' & Hc & Ha & Hall & Hex) end.
      { cbn [tables]. rewrite Hta. apply lookup_insert_eq. }
      { exact Hrun. }
      cbn [pg_columns pg_rows created columnsAdded] in *.
      exists (def_of_property pm :: extra). cbn [List.map].
      rewrite <- app_assoc in Ht', Hall. rewrite <- app_assoc in Ha.
      repeat split; try done.
      * intros pm' [->|Hin]%elem_of_cons; [|by apply Hall].
        right. rewrite has_column_app. apply orb_true_iff. right.
        simpl. unfold jstring_eqb. by rewrite bool_decide_eq_true_2.
      * intros c [->|Hin]%elem_of_cons.
        -- exists pm. split; [by left|done].
        -- destruct (Hex c Hin) as (pm' & ? & ?). exists pm'. split; [by right|done].
Qed.

(** "Ensure special columns exist": when the loop completes, every missing
    column but [notion_page_id] has been added and listed; for a missing
    [notion_page_id] a warning has been logged and nothing else done. *)
Lemma add_special_columns_run sql t E cols :
  forall r s tbl r' s',
    tables s !! t = Some tbl ->
    for_of cols r (add_special_column sql t E) s = (Ok r', s') ->
    exists defs tr,
      tables s' !! t = Some {| pg_columns := pg_columns tbl
                                             ++ List.map column_of_def defs;
                               pg_rows := pg_rows tbl |}
      /\ trace s' = trace s ++ tr
      /\ created r' = created r
      /\ columnsAdded r' = columnsAdded r ++ List.map cd_name defs
      /\ (forall d, d ∈ defs -> d ∈ cols /\ cd_name d <> pk_name)
      /\ (forall col, col ∈ cols -> cd_name col ∉ E ->
            if jstring_eqb (cd_name col) pk_name
            then pk_warning ∈ tr
            else col ∈ defs /\ EvSql (AddColumn t col) ∈ tr).
Proof.
  induction cols as [|col rest IH]; intros r s tbl r' s' Ht Hrun.
  - injection Hrun as <- <-. exists [], []. rewrite table_eta, !app_nil_r.
    do 4 (split; [done|]). split; intros c Hc; by apply elem_of_nil in Hc.
  - change (for_of (col :: rest) r ?f s)
      with (bind (f r col) (fun acc' => for_of rest acc' f) s) in Hrun.
    unfold bind at 1, add_special_column at 1 in Hrun.
    destruct (bool_decide (cd_name col ∈ E)) eqn:EE; cbn [negb] in Hrun.
    { unfold ret in Hrun. destruct (IH _ _ _ _ _ Ht Hrun)
        as (extra & tr & Ht' & Htr & Hc & Ha & Hex & Hall).
      exists extra, tr. do 4 (split; [done|]). split.
      - intros c Hc'. destruct (Hex c Hc') as (? & ?). split; [by right|done].
      - intros col' [->|Hin]%elem_of_cons Hmiss; [|by apply Hall].
        by apply bool_decide_eq_true in EE. }
    change (js "notion_page_id") with pk_name in Hrun.
    destruct (jstring_eqb (cd_name col) pk_name) eqn:Epk.
    { unfold bind, log, emit, ret in Hrun.
      match type of Hrun with for_of rest ?r1 _ ?sb = _ =>
        destruct (IH r1 sb tbl r' s' Ht Hrun)
          as (extra & tr & Ht' & Htr & Hc & Ha & Hex & Hall) end.
      cbn [trace] in Htr. rewrite <- app_assoc in Htr.
      eexists extra, _. split; [exact Ht'|]. split; [exact Htr|].
      do 2 (split; [done|]). split.
      - intros c Hc'. destruct (Hex c Hc') as (? & ?). split; [by right|done].
      - intros col' [->|Hin]%elem_of_cons Hmiss.
        + rewrite Epk. by left.
        + specialize (Hall col' Hin Hmiss).
          destruct (jstring_eqb (cd_name col') pk_name); [by right|].
          destruct Hall. split; [done|]. by right. }
    unfold bind at 1 in Hrun.
    destruct (executeRaw sql (AddColumn t col) s) as [[rows|e] sa] eqn:Eexec; [|done].
    destruct (executeRaw_add_column _ _ _ _ _ _ _ Ht Eexec) as (Hta & Htra & Hfresh).
    unfold bind, log, emit, ret in Hrun. cbn [tables] in Hrun.
    match type of Hrun with for_of rest ?r1 _ ?sb = _ =>
      destruct (IH r1 sb {| pg_columns := pg_columns tbl ++ [column_of_def col];
                            pg_rows := pg_rows tbl |} r' s')
        as (extra & tr & Ht' & Htr & Hc & Ha & Hex & Hall) end.
    { cbn [tables]. rewrite Hta. apply lookup_insert_eq. }
    { exact Hrun. }
    cbn [pg_columns pg_rows created columnsAdded trace] in *.
    rewrite Htra in Htr. rewrite <- !app_assoc in Htr.
    rewrite <- app_assoc in Ht'. rewrite <- app_assoc in Ha.
    eexists (col :: extra), _. cbn [List.map].
    split; [exact Ht'|]. split; [exact Htr|].
    do 2 (split; [done|]). split.
    + intros c [->|Hin]%elem_of_cons.
      * split; [by left|]. by apply jstring_eqb_neq.
      * destruct (Hex c Hin) as (? & ?). split; [by right|done].
    + intros col' [->|Hin]%elem_of_cons Hmiss.
      * rewrite Epk. split; by left.
      * specialize (Hall col' Hin Hmiss).
        destruct (jstring_eqb (cd_name col') pk_name).
        -- by do 2 right.
        -- destruct Hall. split; [by right|by do 2 right].
Qed.

Lemma for_of_noop {A B} (l : list A) (body : B -> A -> M B) acc s :
  (forall x acc s, x ∈ l -> body acc x s = (Ok acc, s)) ->
  for_of l acc body s = (Ok acc, s).
Proof.
  intros H. induction l as [|x l IH]; [done|].
  simpl. unfold bind. rewrite H by (by left).
  apply IH. intros y acc' s' Hy. apply H. by right.
Qed.

Lemma run_trace {A} (m : M A) s r s' :
  emits (fun _ => True) m -> m s = (r, s') -> exists tr, trace s' = trace s ++ tr.
Proof. intros Hm Hrun. destruct (Hm s) as (tr & Htr & _). exists tr. by rewrite Hrun in Htr. Qed.

Lemma emits_add_property_columns sql t E props r :
  emits (fun _ => True) (for_of props r (add_property_column sql t E)).
Proof.
  apply emits_for_of. intros acc pm _. unfold add_property_column.
  destruct (negb _); [|apply emits_ret]. repeat emits_step; done.
Qed.

(** Reconciliation of a table that exists. *)
Lemma syncSchema_existing sql t schema s tbl r s' :
  tables s !! t = Some tbl ->
  syncSchema sql t schema s = (Ok r, s') ->
  exists defs tr,
    tables s' !! t = Some {| pg_columns := pg_columns tbl
                                           ++ List.map column_of_def defs;
                             pg_rows := pg_rows tbl |}
    /\ trace s' = trace s ++ tr
    /\ created r = false
    /\ columnsAdded r = List.map cd_name defs
    /\ (forall pm, pm ∈ obj_values schema ->
          has_column (columnName pm) (pg_columns tbl) = true
          \/ has_column (pg_ident (columnName pm))
                        (pg_columns tbl ++ List.map column_of_def defs) = true)
    /\ (forall d, d ∈ defs ->
          (exists pm, pm ∈ obj_values schema /\ d = def_of_property pm)
          \/ d = def_page_content
          \/ d = def_synced_at)
    /\ (has_column pk_name (pg_columns tbl) = false -> pk_warning ∈ tr)
    /\ (forall col, col = def_page_content \/ col = def_synced_at ->
          has_column (cd_name col)
                     (pg_columns tbl ++ List.map column_of_def defs) = true
          /\ (has_column (cd_name col) (pg_columns tbl) = false ->
              cd_name col ∈ columnsAdded r /\ EvSql (AddColumn t col) ∈ tr)).
Proof.
  intros Ht Hrun. unfold syncSchema in Hrun. unfold bind at 1 in Hrun.
  rewrite tableExists_run in Hrun.
  rewrite bool_decide_eq_true_2 in Hrun by (by rewrite Ht). cbn [negb] in Hrun.
  unfold bind at 1 in Hrun.
  destruct (getTableColumns_run sql t
              {| tables := tables s;
                 trace := trace s ++ [EvSql (SelectTableExists t)] |} tbl Ht)
    as (cols & Hcols & HE).
  rewrite Hcols in Hrun. rewrite HE in Hrun. cbn [tables trace] in Hrun.
  unfold bind at 1 in Hrun.
  match type of Hrun with context [for_of (obj_values schema) ?r0 ?f ?s0] =>
    destruct (for_of (obj_values schema) r0 f s0) as [[r1|e] s1] eqn:Eloop1;
      [|done];
    destruct ((fun H => add_property_columns_run _ _ _ _ _ _ tbl _ _ H Eloop1) Ht)
      as (extra1 & Ht1 & Hc1 & Ha1 & Hall1 & Hex1);
    destruct (run_trace _ _ _ _ (emits_add_property_columns _ _ _ _ _) Eloop1)
      as (tr1 & Htr1)
  end.
  unfold bind at 1 in Hrun.
  destruct (for_of specialCols r1 _ s1) as [[r2|e] s2] eqn:Eloop2; [|done].
  injection Hrun as <- <-.
  destruct (add_special_columns_run _ _ _ _ _ _ _ _ _ Ht1 Eloop2)
    as (extra2 & tr2 & Ht2 & Htr2 & Hc2 & Ha2 & Hex2 & Hall2).
  cbn [pg_columns pg_rows created columnsAdded trace] in *.
  rewrite <- app_assoc in Ht2.
  exists (extra1 ++ extra2), ([EvSql (SelectTableExists t); EvSql (SelectColumns t)]
                              ++ tr1 ++ tr2).
  rewrite List.map_app.
  split; [exact Ht2|].
  split. { rewrite Htr2, Htr1, <- !app_assoc. reflexivity. }
  split. { congruence. }
  split. { rewrite Ha2, Ha1, List.map_app. reflexivity. }
  split.
  { intros pm Hpm. destruct (Hall1 pm Hpm) as [Hin|Hin].
    - left. rewrite <- existing_names_spec. by apply bool_decide_eq_true.
    - right. rewrite app_assoc, has_column_app. apply orb_true_iff. by left. }
  split.
  { intros c [Hc|Hc]%elem_of_app.
    - left. by apply Hex1.
    - right. destruct (Hex2 c Hc) as (Hcol & Hnpk).
      unfold specialCols in Hcol.
      apply elem_of_cons in Hcol as [->|Hcol]; [done|].
      apply elem_of_cons in Hcol as [->|Hcol]; [by left|].
      apply list_elem_of_singleton in Hcol as ->. by right. }
  split.
  { intros Hnopk. apply elem_of_app. right. apply elem_of_app. right.
    apply (Hall2 def_notion_page_id); [by left|].
    rewrite <- existing_names_spec in Hnopk.
    by apply bool_decide_eq_false in Hnopk. }
  intros col Hcol.
  assert (Hin : col ∈ specialCols).
  { destruct Hcol as [->| ->]; unfold specialCols; [by right; left|by do 2 right; left]. }
  assert (Hnpk : jstring_eqb (cd_name col) pk_name = false)
    by (by destruct Hcol as [->| ->]).
  assert (Hadded : cd_name col ∉ existing_names (pg_columns tbl) ->
                   col ∈ extra2 /\ EvSql (AddColumn t col) ∈ tr2).
  { intros Hmiss. specialize (Hall2 col Hin Hmiss). by rewrite Hnpk in Hall2. }
  split.
  - destruct (has_column (cd_name col) (pg_columns tbl)) eqn:Ehas.
    + by rewrite has_column_app, Ehas.
    + rewrite <- existing_names_spec in Ehas. apply bool_decide_eq_false in Ehas.
      destruct (Hadded Ehas) as [Hex _].
      rewrite !has_column_app. apply orb_true_iff. right. apply orb_true_iff. right.
      apply has_column_spec. apply list_elem_of_In, in_map_iff.
      exists (column_of_def col). split; [by destruct Hcol as [->| ->]|].
      apply in_map. by apply list_elem_of_In.
  - intros Ehas. rewrite <- existing_names_spec in Ehas.
    apply bool_decide_eq_false in Ehas. destruct (Hadded Ehas) as [Hex Hev].
    split.
    + rewrite Ha2. apply elem_of_app. right. apply list_elem_of_In, in_map.
      by apply list_elem_of_In.
    + do 2 right. apply elem_of_app. by right.
Qed.


(** Reconciliation of a table that lacks nothing, except possibly the key
    column: no statement changes it. *)
Lemma syncSchema_up_to_date sql t schema s tbl :
  tables s !! t = Some tbl ->
  (forall pm, pm ∈ obj_values schema ->
     has_column (columnName pm) (pg_columns tbl) = true) ->
  has_column (js "page_content") (pg_columns tbl) = true ->
  has_column (js "synced_at") (pg_columns tbl) = true ->
  exists s',
    syncSchema sql t schema s
    = (Ok {| created := false; columnsAdded := [] |}, s')
    /\ tables s' = tables s.
Proof.
  intros Ht Hprops Hpc Hsa. unfold syncSchema. unfold bind at 1.
  rewrite tableExists_run.
  rewrite bool_decide_eq_true_2 by (by rewrite Ht). cbn [negb].
  unfold bind at 1.
  destruct (getTableColumns_run sql t
              {| tables := tables s;
                 trace := trace s ++ [EvSql (SelectTableExists t)] |} tbl Ht)
    as (cols & -> & ->).
  unfold bind at 1. rewrite for_of_noop.
  2:{ intros pm acc s0 Hpm. unfold add_property_column.
      by rewrite existing_names_spec, (Hprops pm Hpm). }
  assert (Hskip : forall (r0 : SchemaSyncResult) col s0,
             has_column (cd_name col) (pg_columns tbl) = true ->
             add_special_column sql t (existing_names (pg_columns tbl)) r0 col s0
             = (Ok r0, s0)).
  { intros r0 col s0 H. unfold add_special_column.
    by rewrite existing_names_spec, H. }
  assert (Hpk : forall (r0 : SchemaSyncResult) s0,
             exists s0',
               add_special_column sql t (existing_names (pg_columns tbl)) r0
                                  def_notion_page_id s0 = (Ok r0, s0')
               /\ tables s0' = tables s0).
  { intros r0 s0. unfold add_special_column.
    destruct (negb _); [|by eexists].
    change (jstring_eqb (cd_name def_notion_page_id) (js "notion_page_id"))
      with true. cbn iota. unfold bind, log, emit, ret. by eexists. }
  unfold specialCols, for_of, bind.
  match goal with |- context [add_special_column sql t ?E ?r0 def_notion_page_id ?s0] =>
    destruct (Hpk r0 s0) as (s0' & -> & Ht0) end.
  rewrite (Hskip _ def_page_content) by done.
  rewrite (Hskip _ def_synced_at) by done.
  unfold ret. by eexists.
Qed.

Lemma has_column_defs d defs :
  d ∈ defs ->
  has_column (pg_ident (cd_name d)) (List.map column_of_def defs) = true.
Proof.
  intros H. apply has_column_spec. rewrite List.map_map.
  apply list_elem_of_In, in_map_iff. exists d. split; [done|].
  by apply list_elem_of_In.
Qed.

Example create_table_text :
  render_ddl (CreateTable (js "notion_8a1b")
                ([def_notion_page_id; def_page_content; def_synced_at]
                 ++ List.map def_of_property (obj_values (mapping_of sample_schema))))
  = Some (js "CREATE TABLE " ++ [34] ++ js "notion_8a1b" ++ [34]
          ++ js " (notion_page_id TEXT PRIMARY KEY, page_content TEXT, synced_at TIMESTAMPTZ DEFAULT NOW(), "
          ++ [34] ++ js "title" ++ [34] ++ js " TEXT, "
          ++ [34] ++ js "status" ++ [34] ++ js " TEXT)").
Proof. reflexivity. Qed.

Example add_column_text :
  render_ddl (AddColumn (js "notion_8a1b") def_synced_at)
  = Some (js "ALTER TABLE " ++ [34] ++ js "notion_8a1b" ++ [34]
          ++ js " ADD COLUMN synced_at TIMESTAMPTZ DEFAULT NOW()").
Proof. reflexivity. Qed.




(** C8 (amended).  On a table that exists without [notion_page_id], and
    provided no property of the schema has [notion_page_id] as its column
    name, [syncSchema] issues no add-column statement for that column,
    however the run ends.  When the run completes (no statement failed) it
    has logged the warning, the table still has no such column, and every
    other special column that was missing has been added and reported. *)
Theorem syncSchema_missing_primary_key sql t schema s tbl :
  tables s !! t = Some tbl ->
  has_column pk_name (pg_columns tbl) = false ->
  (forall pm, pm ∈ obj_values schema -> columnName pm <> pk_name) ->
  exists tr,
    trace (syncSchema sql t schema s).2 = trace s ++ tr
    /\ Forall not_add_pk tr
    /\ forall r s',
        syncSchema sql t schema s = (Ok r, s') ->
        exists tbl',
          tables s' !! t = Some tbl'
          /\ has_column pk_name (pg_columns tbl') = false
          /\ (pk_name ∉ columnsAdded r)
          /\ (pk_warning ∈ tr)
          /\ (forall col, col = def_page_content \/ col = def_synced_at ->
                has_column (cd_name col) (pg_columns tbl') = true
                /\ (has_column (cd_name col) (pg_columns tbl) = false ->
                    cd_name col ∈ columnsAdded r
                    /\ EvSql (AddColumn t col) ∈ tr)).
Proof.
  intros Ht Hnopk Hschema.
  assert (Hem : emits not_add_pk (syncSchema sql t schema)).
  { apply emits_syncSchema; try done.
    all: intros pm Hpm; simpl; by apply Hschema. }
  destruct (Hem s) as (tr & Htr & Hsafe).
  exists tr. split; [done|]. split; [done|].
  intros r s' Hrun. rewrite Hrun in Htr. cbn [snd] in Htr.
  destruct (syncSchema_existing _ _ _ _ _ _ _ Ht Hrun)
    as (extra & tr' & Ht' & Htr' & _ & Ha & _ & Hex & Hwarn & Hspecial).
  rewrite Htr in Htr'. apply app_inv_head in Htr' as ->.
  assert (Hnames : forall d, d ∈ extra -> cd_name d <> pk_name).
  { intros d Hd. destruct (Hex d Hd) as [(pm & Hpm & ->)|[-> | ->]]; try done.
    by apply (Hschema pm Hpm). }
  assert (Hextra : has_column pk_name (List.map column_of_def extra) = false).
  { apply not_true_iff_false. intros Hhas%has_column_spec.
    rewrite List.map_map in Hhas.
    apply list_elem_of_In, in_map_iff in Hhas as (d & Heq & Hd).
    apply list_elem_of_In in Hd. apply (Hnames d Hd).
    by apply (pg_ident_short _ _ Heq); vm_compute; lia. }
  eexists. split; [exact Ht'|]. cbn [pg_columns].
  split. { by rewrite has_column_app, Hnopk, Hextra. }
  split. { rewrite Ha. intros (d & Heq & Hd)%list_elem_of_In%in_map_iff.
           apply list_elem_of_In in Hd. by apply (Hnames d Hd). }
  split. { by apply Hwarn. }
  exact Hspecial.
Qed.

Lemma syncSchema_missing_primary_key_witness :
  exists tr,
    trace (syncSchema lenient_sql sample_table (mapping_of sample_schema) legacy).2
    = trace legacy ++ tr
    /\ Forall not_add_pk tr.
Proof.
  destruct (syncSchema_missing_primary_key lenient_sql sample_table
              (mapping_of sample_schema) legacy
              {| pg_columns := [ {| pg_name := js "title"; pg_type := js "TEXT";
                                    pg_pk := false |} ];
                 pg_rows := ∅ |})
    as (tr & Htr & Hsafe & _).
  - reflexivity.
  - reflexivity.
  - intros pm Hpm. vm_compute in Hpm.
    apply elem_of_cons in Hpm as [->|Hpm]; [vm_compute; discriminate|].
    apply elem_of_cons in Hpm as [->|Hpm]; [vm_compute; discriminate|].
    by apply elem_of_nil in Hpm.
  - exists tr. split; [exact Htr|exact Hsafe].
Defined.

(** C8 as stated fails: with a property named "Notion Page ID", whose
    column name is notion_page_id, the run on a table that lacks the key
    column issues an add-column statement for that very name. *)
Lemma syncSchema_adds_column_named_like_key :
  columns_of (tables legacy) sample_table
  = Some [ {| pg_name := js "title"; pg_type := js "TEXT"; pg_pk := false |} ]
  /\ (syncSchema lenient_sql sample_table (mapping_of pk_named_schema) legacy).1
     = Ok {| created := false;
             columnsAdded := [js "notion_page_id"; js "page_content";
                              js "synced_at"] |}
  /\ trace (syncSchema lenient_sql sample_table (mapping_of pk_named_schema)
                       legacy).2
     = [ EvSql (SelectTableExists sample_table);
         EvSql (SelectColumns sample_table);
         EvSql (AddColumn sample_table
                  {| cd_name := js "notion_page_id"; cd_quoted := true;
                     cd_type := js "TEXT"; cd_clause := [] |});
         EvLog INFO schema_log (js "Added column: notion_page_id");
         pk_warning;
         EvSql (AddColumn sample_table def_page_content);
         EvLog INFO schema_log (js "Added special column: page_content");
         EvSql (AddColumn sample_table def_synced_at);
         EvLog INFO schema_log (js "Added special column: synced_at") ].
Proof. repeat split; vm_compute; reflexivity. Qed.

(** ** First runs *)

Ltac emits_all :=
  repeat first [ emits_step | apply emits_for_of; intros ? ? _ ].

(** Reconciliation starts by asking whether the table exists. *)
Lemma syncSchema_trace_head sql t schema s :
  exists tr,
    trace (syncSchema sql t schema s).2
    = trace s ++ EvSql (SelectTableExists t) :: tr.
Proof.
  unfold syncSchema. unfold bind at 1. rewrite tableExists_run.
  match goal with |- context [trace (?k ?s0).2] =>
    assert (Hk : emits (fun _ => True) k) end.
  { destruct (negb _);
      unfold getTableColumns, executeRaw, add_property_column, add_special_column;
      emits_all; done. }
  match goal with |- context [trace (?k ?s0).2] =>
    destruct (Hk s0) as (tr & -> & _) end.
  exists tr. cbn [trace]. by rewrite <- app_assoc.
Qed.

Lemma prepareSchema_first_run notion sql options s schemaMapping s1 :
  prepareSchema notion sql options None s = (Ok schemaMapping, s1) ->
  exists tr,
    trace s1 = trace s ++ tr
    /\ EvSql (SelectTableExists (getTableName (databaseId options))) ∈ tr.
Proof.
  unfold prepareSchema. unfold bind at 1, log at 1, emit. unfold bind at 1.
  match goal with |- context [fetchNotionSchema notion ?i ?s0] =>
    destruct (fetchNotionSchema notion i s0) as [[m|e] sb] eqn:Efetch; [|done];
    destruct (run_trace _ _ _ _
                (emits_fetchNotionSchema (fun _ => True) notion i
                   (fun _ _ _ => I) I) Efetch) as (trf & Htrf)
  end.
  cbn [trace] in Htrf. unfold bind at 1. unfold bind at 1.
  pose proof (syncSchema_trace_head sql (getTableName (databaseId options)) m sb)
    as (trs & Htrs).
  destruct (syncSchema sql (getTableName (databaseId options)) m sb)
    as [[r|e] sc] eqn:Esync; [|done].
  cbn [snd] in Htrs.
  assert (Hlast : forall (k : M unit) r' s', emits (fun _ => True) k ->
            k sc = (r', s') ->
            exists tr, trace s' = trace s ++ tr
              /\ EvSql (SelectTableExists (getTableName (databaseId options))) ∈ tr).
  { intros k r' s' Hk Hrun. destruct (run_trace _ _ _ _ Hk Hrun) as (trk & Htrk).
    eexists. rewrite Htrk, Htrs, Htrf, <- !app_assoc. split; [reflexivity|].
    apply elem_of_app. right. apply elem_of_app. right. by left. }
  match goal with |- context [match ?k sc with _ => _ end] =>
    destruct (k sc) as [[[]|e] sd] eqn:Elog; [|done];
    intros [= _ <-]; apply (Hlast k (Ok tt) sd); [|exact Elog]
  end.
  destruct (created r); [emits_all; done|].
  destruct (_ <? _)%nat; emits_all; done.
Qed.

Lemma syncBatch_trace_head notion sql options state schemaMapping s :
  exists tr,
    trace (syncBatch notion sql options state schemaMapping s).2
    = trace s ++ EvQuery (queryParamsOf options state) :: tr.
Proof.
  unfold syncBatch. apply emits_first. intros _.
  apply emits_bind; [apply emits_lift|]. intros q.
  apply emits_bind; [by apply emits_log|]. intros _.
  apply emits_bind.
  { apply emits_for_of. intros acc p _. by apply emits_processPage. }
  intros r. apply emits_bind; [by apply emits_log|]. intros _. apply emits_ret.
Qed.

Lemma emits_runSync_resumed notion sql options st :
  emits not_reconcile (runSync notion sql options (Some st)).
Proof.
  unfold runSync. apply emits_bind.
  - unfold prepareSchema. apply emits_bind; [by apply emits_log|]. intros _.
    apply emits_bind; [by apply emits_fetchNotionSchema|]. intros m.
    apply emits_bind; apply emits_ret || (intros; apply emits_ret).
  - intros m. by apply emits_syncBatch.
Qed.

(** C10 (amended).  When the query returns no record and does not announce
    a further page with a non-empty cursor, the returned state is undefined,
    whatever state was carried in.  An invocation without carried state that
    completes has run the reconciliation and queried without cursor or
    filter; an invocation with a carried state issues no reconciliation
    statement. *)
Theorem runSync_empty_batch notion sql options s :
  (forall state schemaMapping s1 q,
      prepareSchema notion sql options state s = (Ok schemaMapping, s1) ->
      databases_query notion (queryParamsOf options state) = Ok q ->
      results q = [] ->
      has_more q && present (next_cursor q) = false ->
      exists out s',
        runSync notion sql options state s = (Ok out, s')
        /\ nextState out = None)
  /\ (forall out,
      (runSync notion sql options None s).1 = Ok out ->
      exists tr,
        trace (runSync notion sql options None s).2 = trace s ++ tr
        /\ EvSql (SelectTableExists (getTableName (databaseId options))) ∈ tr
        /\ EvQuery (full_fetch options) ∈ tr)
  /\ (forall st,
      exists tr,
        trace (runSync notion sql options (Some st) s).2 = trace s ++ tr
        /\ Forall not_reconcile tr).
Proof.
  split; [|split].
  - intros state schemaMapping s1 q Hprep Hq Hres Hnone.
    rewrite (runSync_after_schema _ _ _ _ _ _ _ Hprep).
    destruct (syncBatch_returns notion sql options state schemaMapping s1 q Hq)
      as (r & s' & -> & _).
    eexists _, s'. split; [reflexivity|]. cbn [nextState].
    unfold nextStateOf. by rewrite Hnone, Hres.
  - intros out Hrun. unfold runSync, bind in *.
    destruct (prepareSchema notion sql options None s) as [[m|e] s1] eqn:Hprep;
      [|done].
    destruct (prepareSchema_first_run _ _ _ _ _ _ Hprep) as (trp & Htrp & Hex).
    destruct (syncBatch_trace_head notion sql options None m s1) as (trb & Htrb).
    exists (trp ++ EvQuery (queryParamsOf options None) :: trb).
    rewrite Htrb, Htrp, <- app_assoc.
    split; [done|]. split.
    + apply elem_of_app. by left.
    + apply elem_of_app. right. by left.
  - intros st. apply emits_runSync_resumed.
Qed.

Lemma runSync_empty_batch_witness :
  (exists out s',
      runSync (sample_client sample_schema nothing_more) lenient_sql sample_options
              (Some watermark_state) ready = (Ok out, s')
      /\ nextState out = None)
  /\ exists tr,
       trace (runSync (sample_client sample_schema nothing_more) lenient_sql
                      sample_options None ready).2
       = trace ready ++ tr
       /\ EvSql (SelectTableExists sample_table) ∈ tr
       /\ EvQuery (full_fetch sample_options) ∈ tr.
Proof.
  pose proof (runSync_empty_batch (sample_client sample_schema nothing_more)
                lenient_sql sample_options ready) as (Hempty & Hfirst & _).
  split.
  - apply (Hempty (Some watermark_state) (mapping_of sample_schema)
             (prepareSchema (sample_client sample_schema nothing_more) lenient_sql
                            sample_options (Some watermark_state) ready).2
             nothing_more).
    + vm_compute. reflexivity.
    + reflexivity.
    + reflexivity.
    + reflexivity.
  - apply (Hfirst {| result := {| processedCount := 0; errorCount := 0;
                                  errors := [] |};
                     nextState := None; hasMore := false |}).
    vm_compute. reflexivity.
Defined.

(** C10 as stated fails: an empty page that announces a further page with
    a cursor returns a state that holds that cursor. *)
Lemma runSync_empty_page_with_cursor :
  databases_query (sample_client sample_schema empty_with_cursor)
                  (queryParamsOf sample_options (Some cursor_state))
  = Ok empty_with_cursor
  /\ results empty_with_cursor = []
  /\ exists out s',
       runSync (sample_client sample_schema empty_with_cursor) lenient_sql
               sample_options (Some cursor_state) ready = (Ok out, s')
       /\ nextState out = Some {| lastSyncTime := None;
                                  cursor := Some (js "cursor-9") |}.
Proof.
  repeat split. eexists _, _. split; vm_compute; reflexivity.
Qed.

(** * Further properties *)

(** ** Table names *)



(** ** What sanitisation keeps *)

Lemma filter_alnum_replace s :
  List.filter is_alnum (Sanitize.replace_non_word s) = List.filter is_alnum s.
Proof.
  induction s as [|c s IH]; [done|]. simpl. rewrite IH.
  unfold is_word. destruct (is_alnum c) eqn:E; simpl; [by rewrite E|].
  by destruct (c =? u_us) eqn:Eu; simpl; [rewrite E|].
Qed.

Lemma is_alnum_us c : (c =? u_us) = true -> is_alnum c = false.
Proof. intros ->%N.eqb_eq. reflexivity. Qed.

Lemma filter_alnum_drop_us s :
  List.filter is_alnum (Sanitize.drop_us s) = List.filter is_alnum s.
Proof.
  induction s as [|c s IH]; [done|]. simpl.
  destruct (c =? u_us) eqn:E; [|done]. by rewrite (is_alnum_us c E).
Qed.

Lemma filter_rev {A} (f : A -> bool) l :
  List.filter f (rev l) = rev (List.filter f l).
Proof.
  induction l as [|a l IH]; [done|]. simpl. rewrite List.filter_app, IH. simpl.
  destruct (f a); simpl; [done|by rewrite app_nil_r].
Qed.

Lemma filter_alnum_strip s :
  List.filter is_alnum (Sanitize.strip_us s) = List.filter is_alnum s.
Proof.
  unfold Sanitize.strip_us.
  by rewrite filter_rev, filter_alnum_drop_us, filter_rev, rev_involutive,
    filter_alnum_drop_us.
Qed.

Lemma filter_alnum_collapse s :
  List.filter is_alnum (Sanitize.collapse_us s) = List.filter is_alnum s.
Proof.
  induction s as [|c s IH]; [done|]. destruct s as [|c' s']; [done|].
  rewrite SanitizeFacts.collapse_us_unfold.
  destruct ((c =? u_us) && (c' =? u_us)) eqn:E.
  - apply andb_true_iff in E as [E _]. rewrite IH.
    change (List.filter is_alnum (c :: c' :: s'))
      with (if is_alnum c then c :: List.filter is_alnum (c' :: s')
            else List.filter is_alnum (c' :: s')).
    by rewrite (is_alnum_us c E).
  - change (List.filter is_alnum (c :: ?l))
      with (if is_alnum c then c :: List.filter is_alnum l
            else List.filter is_alnum l).
    by rewrite IH.
Qed.

Lemma lower_unit_alnum c : existsb is_alnum (Sanitize.lower_unit c) = alnum_source c.
Proof.
  unfold Sanitize.lower_unit, alnum_source.
  destruct (is_upper c) eqn:Eu.
  - rewrite orb_true_r. simpl. rewrite orb_false_r.
    unfold is_upper in Eu. unfold is_alnum, is_lower.
    apply andb_true_iff in Eu as [H1%N.leb_le H2%N.leb_le].
    apply orb_true_iff. left. apply andb_true_iff. split; apply N.leb_le; lia.
  - rewrite orb_false_r. destruct (N.eqb_spec c 0x212A) as [->|_]; [done|].
    destruct (N.eqb_spec c 0x130) as [->|_]; [done|].
    simpl. by rewrite !orb_false_r.
Qed.

Lemma existsb_toLowerCase x :
  existsb is_alnum (Sanitize.toLowerCase x) = existsb alnum_source x.
Proof.
  unfold Sanitize.toLowerCase. induction x as [|c x IH]; [done|].
  simpl. by rewrite existsb_app, lower_unit_alnum, IH.
Qed.

Lemma filter_nil_existsb {A} (f : A -> bool) l :
  List.filter f l = [] <-> existsb f l = false.
Proof.
  induction l as [|a l IH]; [done|]. simpl. destruct (f a); simpl; [|done].
  split; done.
Qed.

Lemma sanitize_keeps_alnum name :
  List.filter is_alnum (sanitizeColumnName name)
  = List.filter is_alnum (Sanitize.toLowerCase name).
Proof.
  unfold sanitizeColumnName, Sanitize.sanitizeColumnName.
  by rewrite filter_alnum_collapse, filter_alnum_strip, filter_alnum_replace.
Qed.

Lemma sanitize_nil_iff name :
  sanitizeColumnName name = [] <-> existsb alnum_source name = false.
Proof.
  rewrite <- existsb_toLowerCase, <- filter_nil_existsb, <- sanitize_keeps_alnum.
  split.
  - by intros ->.
  - intros Hnil. destruct (SanitizeFacts.sanitize_clean name) as (Hw & Hh & _).
    fold sanitizeColumnName in Hw, Hh.
    destruct (sanitizeColumnName name) as [|c r]; [done|].
    apply andb_true_iff in Hw as [Hc _].
    simpl in Hnil. rewrite (SanitizeFacts.word_not_us_alnum c Hc Hh) in Hnil.
    done.
Qed.

(** X2.  Sanitisation only touches separators: the letters and digits of
    the result are those of the lower-cased name, in the same order.  The
    result is empty exactly when the name holds no code unit that
    lower-cases to a letter or a digit. *)
Theorem sanitizeColumnName_keeps_alnum (name : jstring) :
  List.filter is_alnum (sanitizeColumnName name)
  = List.filter is_alnum (Sanitize.toLowerCase name)
  /\ (sanitizeColumnName name = [] <-> existsb alnum_source name = false).
Proof. split; [apply sanitize_keeps_alnum|apply sanitize_nil_iff]. Qed.

(** ** The schema read from Notion *)

Lemma obj_put_fresh {A} k (v : A) o :
  k ∉ obj_keys o -> obj_put k v o = o ++ [(k, v)].
Proof.
  induction o as [|[k' v'] o IH]; [done|].
  intros Hk. apply not_elem_of_cons in Hk as [Hne Hk]. simpl.
  rewrite (proj2 (jstring_eqb_neq k k')) by done. by rewrite IH.
Qed.

Lemma fold_schema_supported props acc :
  NoDup (obj_keys acc ++ props.*1) ->
  fold_left schema_entry_mapping props acc = acc ++ supported_entries props.
Proof.
  revert acc. induction props as [|[n tag] props IH]; intros acc Hnd.
  { simpl. by rewrite app_nil_r. }
  simpl in Hnd. apply NoDup_app in Hnd as (Hacc & Hdisj & Hprops).
  apply NoDup_cons in Hprops as [Hn Hprops].
  assert (Hfresh : n ∉ obj_keys acc).
  { intros Hin. apply (Hdisj n Hin). by left. }
  assert (Hskip : NoDup (obj_keys acc ++ props.*1)).
  { apply NoDup_app. split; [done|]. split; [|done].
    intros x Hx Hx'. apply (Hdisj x Hx). by right. }
  change (fold_left schema_entry_mapping ((n, tag) :: props) acc)
    with (fold_left schema_entry_mapping props (schema_entry_mapping acc (n, tag))).
  unfold supported_entries. cbn [omap list_omap]. fold (supported_entries props).
  unfold schema_entry_mapping, obj_set. cbn [fst snd].
  destruct (jstring_eqb n (js "__proto__")).
  { destruct (property_type_of tag); by apply IH. }
  destruct (property_type_of tag) as [t|]; [|by apply IH].
  rewrite obj_put_fresh by done. rewrite IH.
  - by rewrite <- app_assoc.
  - unfold obj_keys. rewrite fmap_app. cbn [fmap list_fmap fst].
    rewrite <- app_assoc. cbn [app]. apply NoDup_app. split; [done|].
    split; [|by apply NoDup_cons].
    intros x Hx [->|Hx']%elem_of_cons; [done|]. apply (Hdisj x Hx). by right.
Qed.

Lemma for_of_schema_entry_trace props acc s :
  for_of props acc schema_entry s
  = (Ok (fold_left schema_entry_mapping props acc),
     {| tables := tables s; trace := trace s ++ unsupported_warnings props |}).
Proof.
  revert acc s. induction props as [|[name tag] props IH]; intros acc s.
  { destruct s. simpl. unfold ret. by rewrite app_nil_r. }
  change (for_of ((name, tag) :: props) acc schema_entry s)
    with (bind (schema_entry acc (name, tag))
               (fun acc' => for_of props acc' schema_entry) s).
  change (fold_left schema_entry_mapping ((name, tag) :: props) acc)
    with (fold_left schema_entry_mapping props
                    (schema_entry_mapping acc (name, tag))).
  unfold unsupported_warnings. cbn [omap list_omap]. fold (unsupported_warnings props).
  unfold bind at 1, schema_entry, schema_entry_mapping. cbn [fst snd].
  destruct (property_type_of tag) as [t|].
  - unfold ret. apply IH.
  - unfold bind, log, emit, ret. rewrite IH. cbn [tables trace].
    by rewrite <- app_assoc.
Qed.

Lemma fetchNotionSchema_run notion id props s :
  databases_retrieve notion id = Ok (Some props) ->
  NoDup props.*1 ->
  fetchNotionSchema notion id s
  = (Ok (supported_entries props),
     {| tables := tables s;
        trace := trace s
                 ++ [EvLog INFO schema_log (js "Fetching schema for database: " ++ id);
                     EvRetrieve id]
                 ++ unsupported_warnings props
                 ++ [EvLog INFO schema_log
                       (js "Found " ++ nat_str (length (supported_entries props))
                        ++ js " supported properties")] |}).
Proof.
  intros Hret Hnd.
  unfold fetchNotionSchema, bind, log, emit, lift. cbn [tables trace]. rewrite Hret.
  rewrite for_of_schema_entry_trace. cbn [tables trace]. unfold ret.
  rewrite (fold_schema_supported props []) by done. cbn [app].
  unfold obj_keys. rewrite length_fmap.
  by rewrite <- !app_assoc.
Qed.

(** X3.  When the database answers with properties of distinct names,
    [fetchNotionSchema] returns one entry per property of a supported type,
    in the order the properties come, and nothing else; it leaves the tables
    alone and logs, between its two information lines and after the one
    retrieval, exactly one warning per property of an unsupported type, in
    order. *)
Theorem fetchNotionSchema_supported notion id props s :
  databases_retrieve notion id = Ok (Some props) ->
  NoDup props.*1 ->
  fetchNotionSchema notion id s
  = (Ok (supported_entries props),
     {| tables := tables s;
        trace := trace s
                 ++ [EvLog INFO schema_log (js "Fetching schema for database: " ++ id);
                     EvRetrieve id]
                 ++ unsupported_warnings props
                 ++ [EvLog INFO schema_log
                       (js "Found " ++ nat_str (length (supported_entries props))
                        ++ js " supported properties")] |}).
Proof.
  intros Hret Hnd.
  unfold fetchNotionSchema. unfold bind at 1, log at 1, emit at 1.
  unfold bind at 1, emit at 1. unfold bind at 1, lift. rewrite Hret.
  unfold bind at 1. rewrite for_of_schema_entry_trace.
  unfold bind, log, emit, ret. cbn [tables trace].
  rewrite (fold_schema_supported props []) by done. cbn [app].
  unfold obj_keys. rewrite length_fmap.
  by rewrite <- !app_assoc.
Qed.

Lemma fetchNotionSchema_supported_witness :
  fetchNotionSchema (sample_client mixed_schema nothing_more) (js "db") init
  = (Ok [(js "Title", {| notionType := P_title; postgresType := js "TEXT";
                         columnName := js "title" |});
         (js "Status", {| notionType := P_select; postgresType := js "TEXT";
                          columnName := js "status" |})],
     {| tables := ∅;
        trace := [EvLog INFO schema_log (js "Fetching schema for database: db");
                  EvRetrieve (js "db");
                  EvLog WARN schema_log
                    (js "Unsupported property type: button for property: Press");
                  EvLog INFO schema_log (js "Found 2 supported properties")] |}).
Proof.
  rewrite (fetchNotionSchema_supported
             (sample_client mixed_schema nothing_more) (js "db") mixed_schema init
             eq_refl).
  - reflexivity.
  - apply (bool_decide_unpack _). vm_compute. reflexivity.
Defined.

(** X4.  When the database cannot be retrieved, or is retrieved without
    properties, the invocation ends with that failure (the error of the
    client, or "Unable to retrieve database properties") after its two
    opening log lines: it sends no statement to Postgres, does not query the
    database, and leaves every table as it was, with or without a carried
    state. *)
Theorem runSync_schema_unavailable notion sql options state s e :
  databases_retrieve notion (databaseId options) = Throw e
  \/ (databases_retrieve notion (databaseId options) = Ok None
      /\ e = Error (js "Unable to retrieve database properties")) ->
  runSync notion sql options state s
  = (Throw e,
     {| tables := tables s;
        trace := trace s
                 ++ [EvLog INFO sync_log
                       (js "Starting sync for database: " ++ databaseId options
                        ++ js ", table: " ++ getTableName (databaseId options));
                     EvLog INFO schema_log
                       (js "Fetching schema for database: " ++ databaseId options);
                     EvRetrieve (databaseId options)] |}).
Proof.
  intros H. unfold runSync, prepareSchema, fetchNotionSchema.
  unfold bind, log, emit, lift, throw. cbn [tables trace].
  destruct H as [->|[-> ->]]; by rewrite <- !app_assoc.
Qed.

Lemma runSync_schema_unavailable_witness :
  (runSync {| databases_retrieve := fun _ => Ok None;
              databases_query := fun _ => Ok nothing_more;
              n2m_parent := fun _ _ => Ok (Some []);
              now := [] |}
           lenient_sql sample_options None init).1
  = Throw (Error (js "Unable to retrieve database properties")).
Proof.
  rewrite (runSync_schema_unavailable
             {| databases_retrieve := fun _ => Ok None;
                databases_query := fun _ => Ok nothing_more;
                n2m_parent := fun _ _ => Ok (Some []);
                now := [] |}
             lenient_sql sample_options None init
             (Error (js "Unable to retrieve database properties"))).
  - reflexivity.
  - right. split; reflexivity.
Defined.

(** ** What an action leaves of the tables *)

Section keeps_rules.
Context (R : gmap (list N) PgTable -> gmap (list N) PgTable -> Prop).
Hypothesis R_refl : forall db, R db db.
Hypothesis R_trans : forall a b c, R a b -> R b c -> R a c.

Lemma keeps_ret {A} (a : A) : keeps R (ret a).
Proof. intros s. apply R_refl. Qed.

Lemma keeps_throw {A} e : keeps R (@throw A e).
Proof. intros s. apply R_refl. Qed.

Lemma keeps_lift {A} (r : res A) : keeps R (lift r).
Proof. intros s. apply R_refl. Qed.

Lemma keeps_emit e : keeps R (emit e).
Proof. intros s. apply R_refl. Qed.

Lemma keeps_log lvl scope msg : keeps R (log lvl scope msg).
Proof. intros s. apply R_refl. Qed.

Lemma keeps_sql_query sql st :
  (forall db, R db (pg_run sql st db).2) -> keeps R (sql_query sql st).
Proof.
  intros H s. unfold sql_query. specialize (H (tables s)).
  by destruct (pg_run sql st (tables s)).
Qed.

Lemma keeps_bind {A B} (m : M A) (k : A -> M B) :
  keeps R m -> (forall a, keeps R (k a)) -> keeps R (bind m k).
Proof.
  intros Hm Hk s. unfold bind. specialize (Hm s).
  destruct (m s) as [[a|e] s1]; [|done].
  exact (R_trans _ _ _ Hm (Hk a s1)).
Qed.

Lemma keeps_try_catch {A} (m : M A) (h : exn -> M A) :
  keeps R m -> (forall e, keeps R (h e)) -> keeps R (try_catch m h).
Proof.
  intros Hm Hh s. unfold try_catch. specialize (Hm s).
  destruct (m s) as [[a|e] s1]; [done|].
  exact (R_trans _ _ _ Hm (Hh e s1)).
Qed.

Lemma keeps_for_of {A B} (l : list A) (acc : B) (body : B -> A -> M B) :
  (forall acc x, x ∈ l -> keeps R (body acc x)) -> keeps R (for_of l acc body).
Proof.
  revert acc. induction l as [|x l IH]; intros acc H; [apply keeps_ret|].
  cbn [for_of]. apply keeps_bind; [apply H; by left|].
  intros acc'. apply IH. intros ? ? ?. apply H. by right.
Qed.

End keeps_rules.

Lemma grown_at_refl t db : grown_at t db db.
Proof.
  split; [done|]. intros tbl Ht. exists []. by rewrite table_eta.
Qed.

Lemma grown_at_trans t a b c : grown_at t a b -> grown_at t b c -> grown_at t a c.
Proof.
  intros [Ho1 Ht1] [Ho2 Ht2]. split.
  - intros t' Hne. by rewrite Ho2, Ho1.
  - intros tbl Ha. destruct (Ht1 tbl Ha) as (e1 & Hb).
    destruct (Ht2 _ Hb) as (e2 & Hc). exists (e1 ++ e2).
    rewrite Hc. cbn [pg_columns pg_rows]. by rewrite app_assoc.
Qed.

Lemma grown_at_select_exists sql t db :
  grown_at t db (pg_run sql (SelectTableExists t) db).2.
Proof. apply grown_at_refl. Qed.

Lemma grown_at_select_columns sql t db :
  grown_at t db (pg_run sql (SelectColumns t) db).2.
Proof. apply grown_at_refl. Qed.

Lemma grown_at_create sql t defs db :
  grown_at t db (pg_run sql (CreateTable t defs) db).2.
Proof.
  unfold pg_run. destruct (existsb _ defs); [apply grown_at_refl|].
  destruct (bool_decide (is_Some (db !! t))) eqn:Ex; [apply grown_at_refl|].
  destruct (has_dup _); [apply grown_at_refl|].
  destruct (existsb _ defs); [apply grown_at_refl|].
  cbn [snd]. split.
  - intros t' Hne. by rewrite lookup_insert_ne.
  - intros tbl Ht. apply bool_decide_eq_false in Ex. destruct Ex. by rewrite Ht.
Qed.

Lemma grown_at_add_column sql t d db :
  grown_at t db (pg_run sql (AddColumn t d) db).2.
Proof.
  unfold pg_run. destruct (jstring_eqb (cd_name d) []); [apply grown_at_refl|].
  destruct (db !! t) as [tbl|] eqn:Ht; [|apply grown_at_refl].
  destruct (is_system_column _); [apply grown_at_refl|].
  destruct (has_column _ _); [apply grown_at_refl|].
  cbn [snd]. split.
  - intros t' Hne. by rewrite lookup_insert_ne.
  - intros tbl' Ht'. rewrite Ht in Ht'. injection Ht' as <-.
    exists [column_of_def d]. by rewrite lookup_insert_eq.
Qed.

(** ** Reconciliation, further *)

Lemma syncSchema_keeps_grown sql t schema :
  keeps (grown_at t) (syncSchema sql t schema).
Proof.
  pose proof (grown_at_refl t) as Hr. pose proof (grown_at_trans t) as Ht.
  unfold syncSchema. apply keeps_bind; [done| |].
  { unfold tableExists. apply keeps_bind; [done| |].
    - apply keeps_sql_query. apply grown_at_select_exists.
    - intros ?. by apply keeps_ret. }
  intros [|]; cbn [negb].
  - apply keeps_bind; [done| |].
    { unfold getTableColumns. apply keeps_bind; [done| |].
      - apply keeps_sql_query. apply grown_at_select_columns.
      - intros ?. by apply keeps_ret. }
    intros cols. apply keeps_bind; [done| |].
    { apply keeps_for_of; [done..|]. intros acc pm _. unfold add_property_column.
      destruct (negb _); [|by apply keeps_ret].
      apply keeps_bind; [done| |].
      - apply keeps_sql_query. apply grown_at_add_column.
      - intros _. apply keeps_bind; [done|by apply keeps_log|].
        intros _. by apply keeps_ret. }
    intros r. apply keeps_bind; [done| |intros ?; by apply keeps_ret].
    apply keeps_for_of; [done..|]. intros acc col _. unfold add_special_column.
    destruct (negb _); [|by apply keeps_ret].
    destruct (jstring_eqb _ _).
    { apply keeps_bind; [done|by apply keeps_log|]. intros _. by apply keeps_ret. }
    apply keeps_bind; [done| |].
    + apply keeps_sql_query. apply grown_at_add_column.
    + intros _. apply keeps_bind; [done|by apply keeps_log|].
      intros _. by apply keeps_ret.
  - apply keeps_bind; [done| |].
    + apply keeps_sql_query. apply grown_at_create.
    + intros _. apply keeps_bind; [done|by apply keeps_log|].
      intros _. by apply keeps_ret.
Qed.

(** X5.  Whatever the mapping and however it ends, [syncSchema] on the table
    [t] sends nothing but the two catalogue queries and the CREATE TABLE and
    ADD COLUMN statements of [t] itself (no statement on rows, no call to
    Notion), and the tables it leaves differ from those it found at most in
    that [t] was created or has gained columns at its end: the rows of [t],
    the columns it had, and every other table are as before, also when a
    statement fails midway. *)
Theorem syncSchema_only_grows sql t schema :
  emits (reconciles_only t) (syncSchema sql t schema)
  /\ keeps (grown_at t) (syncSchema sql t schema).
Proof. split; [by apply emits_syncSchema|apply syncSchema_keeps_grown]. Qed.

Lemma syncSchema_create_run sql t schema s :
  tables s !! t = None ->
  creatable (create_defs schema) = true ->
  syncSchema sql t schema s
  = (Ok {| created := true; columnsAdded := [] |},
     {| tables := <[t := {| pg_columns := List.map column_of_def (create_defs schema);
                            pg_rows := ∅ |}]> (tables s);
        trace := trace s
                 ++ [EvSql (SelectTableExists t);
                     EvSql (CreateTable t (create_defs schema))]
                 ++ [EvLog INFO schema_log (js "Created table: " ++ t)] |}).
Proof.
  intros Ht Hok. unfold creatable in Hok.
  apply andb_true_iff in Hok as [[Hnamed Hdup]%andb_true_iff Hsys].
  apply negb_true_iff in Hnamed, Hdup, Hsys.
  unfold syncSchema. unfold bind at 1. rewrite tableExists_run.
  rewrite bool_decide_eq_false_2 by (rewrite Ht; by intros [? [=]]).
  cbn [negb]. fold (create_defs schema).
  unfold bind at 1, executeRaw, sql_query. cbn [tables trace]. unfold pg_run.
  rewrite Hnamed.
  rewrite bool_decide_eq_false_2 by (rewrite Ht; by intros [? [=]]).
  rewrite Hdup, Hsys. unfold bind, log, emit, ret. cbn [tables trace].
  by rewrite <- !app_assoc.
Qed.

Lemma syncSchema_create_refused sql t schema s :
  tables s !! t = None ->
  creatable (create_defs schema) = false ->
  exists e,
    syncSchema sql t schema s
    = (Throw e,
       {| tables := tables s;
          trace := trace s ++ [EvSql (SelectTableExists t);
                               EvSql (CreateTable t (create_defs schema))] |}).
Proof.
  intros Ht Hbad.
  assert (Hrun : syncSchema sql t schema s
                 = bind (executeRaw sql (CreateTable t (create_defs schema)))
                        (fun _ => bind (log INFO schema_log (js "Created table: " ++ t))
                                       (fun _ => ret {| created := true;
                                                        columnsAdded := [] |}))
                        {| tables := tables s;
                           trace := trace s ++ [EvSql (SelectTableExists t)] |}).
  { unfold syncSchema. unfold bind at 1. rewrite tableExists_run.
    by rewrite bool_decide_eq_false_2 by (rewrite Ht; by intros [? [=]]). }
  rewrite Hrun. unfold bind at 1, executeRaw, sql_query. cbn [tables trace].
  pose proof (pg_run_throw_same sql (CreateTable t (create_defs schema)) (tables s))
    as Hsame.
  destruct (pg_run sql (CreateTable t (create_defs schema)) (tables s))
    as [[rows|e] db] eqn:Hpg.
  - exfalso. unfold pg_run in Hpg. unfold creatable in Hbad.
    destruct (existsb _ (create_defs schema)); [done|].
    destruct (bool_decide _); [done|].
    destruct (has_dup _); [done|].
    destruct (existsb _ (create_defs schema)); done.
  - exists e. rewrite (Hsame e db eq_refl). by rewrite <- app_assoc.
Qed.

(** X6.  On a database without the table, [syncSchema] asks whether the
    table exists and sends one CREATE TABLE listing [notion_page_id],
    [page_content], [synced_at] and then one column per mapping entry, in
    mapping order.  When the call completes, the table has been created
    empty with exactly those columns, each under the first 63 bytes of its
    name, the report is [created] with no added column, and the columns
    were such as the engine takes: no name empty, no two names equal in
    their first 63 bytes, none the name of a system column.  When the
    columns are not such, the call raises, nothing is created and the
    creation is not logged. *)
Theorem syncSchema_creates sql t schema s :
  tables s !! t = None ->
  (forall r s',
      syncSchema sql t schema s = (Ok r, s') ->
      creatable (create_defs schema) = true
      /\ r = {| created := true; columnsAdded := [] |}
      /\ s' = {| tables :=
                   <[t := {| pg_columns := List.map column_of_def (create_defs schema);
                             pg_rows := ∅ |}]> (tables s);
                 trace := trace s
                          ++ [EvSql (SelectTableExists t);
                              EvSql (CreateTable t (create_defs schema))]
                          ++ [EvLog INFO schema_log (js "Created table: " ++ t)] |})
  /\ (creatable (create_defs schema) = false ->
      exists e,
        syncSchema sql t schema s
        = (Throw e,
           {| tables := tables s;
              trace := trace s ++ [EvSql (SelectTableExists t);
                                   EvSql (CreateTable t (create_defs schema))] |})).
Proof.
  intros Ht. split; [|by apply syncSchema_create_refused].
  intros r s' Hrun. destruct (creatable (create_defs schema)) eqn:Hok.
  - rewrite (syncSchema_create_run sql t schema s Ht Hok) in Hrun.
    by injection Hrun as <- <-.
  - destruct (syncSchema_create_refused sql t schema s Ht Hok) as (e & He).
    by rewrite He in Hrun.
Qed.

Lemma syncSchema_creates_witness :
  columns_of
    (tables (syncSchema lenient_sql sample_table (mapping_of sample_schema) init).2)
    sample_table
  = Some (List.map column_of_def (create_defs (mapping_of sample_schema)))
  /\ exists e,
       syncSchema lenient_sql sample_table (mapping_of system_named_schema) init
       = (Throw e,
          {| tables := ∅;
             trace := [EvSql (SelectTableExists sample_table);
                       EvSql (CreateTable sample_table
                                (create_defs (mapping_of system_named_schema)))] |}).
Proof.
  split.
  - destruct (proj1 (syncSchema_creates lenient_sql sample_table
                       (mapping_of sample_schema) init eq_refl)
                {| created := true; columnsAdded := [] |}
                (syncSchema lenient_sql sample_table (mapping_of sample_schema)
                            init).2)
      as (_ & _ & ->); [vm_compute; reflexivity|].
    cbn [tables]. unfold columns_of. by rewrite lookup_insert_eq.
  - apply (proj2 (syncSchema_creates lenient_sql sample_table
                    (mapping_of system_named_schema) init eq_refl)).
    vm_compute. reflexivity.
Defined.

Lemma add_property_columns_exact sql t E props :
  forall r s tbl r' s',
    tables s !! t = Some tbl ->
    for_of props r (add_property_column sql t E) s = (Ok r', s') ->
    tables s'
    = <[t := {| pg_columns :=
                  pg_columns tbl
                  ++ List.map column_of_def
                       (List.filter (fun d => negb (bool_decide (cd_name d ∈ E)))
                                    (List.map def_of_property props));
                pg_rows := pg_rows tbl |}]> (tables s)
    /\ created r' = created r
    /\ columnsAdded r'
       = columnsAdded r
         ++ List.map cd_name
              (List.filter (fun d => negb (bool_decide (cd_name d ∈ E)))
                           (List.map def_of_property props)).
Proof.
  induction props as [|pm rest IH]; intros r s tbl r' s' Ht Hrun.
  - injection Hrun as <- <-. cbn [List.map List.filter].
    rewrite table_eta, app_nil_r. by rewrite insert_id.
  - change (for_of (pm :: rest) r ?f s)
      with (bind (f r pm) (fun acc' => for_of rest acc' f) s) in Hrun.
    unfold bind at 1, add_property_column at 1 in Hrun.
    cbn [List.map List.filter]. change (cd_name (def_of_property pm)) with (columnName pm).
    destruct (bool_decide (columnName pm ∈ E)) eqn:EE; cbn [negb] in *.
    + unfold ret in Hrun. by apply IH.
    + unfold bind at 1 in Hrun.
      destruct (executeRaw sql (AddColumn t (def_of_property pm)) s)
        as [[rows|e] sa] eqn:Eexec; [|done].
      destruct (executeRaw_add_column _ _ _ _ _ _ _ Ht Eexec) as (Hta & _ & _).
      unfold bind, log, emit, ret in Hrun. cbn [tables] in Hrun.
      match type of Hrun with for_of rest ?r1 _ ?sb = _ =>
        destruct (IH r1 sb {| pg_columns := pg_columns tbl
                                ++ [column_of_def (def_of_property pm)];
                              pg_rows := pg_rows tbl |} r' s')
          as (Ht' & Hc & Ha) end.
      { cbn [tables]. rewrite Hta. apply lookup_insert_eq. }
      { exact Hrun. }
      cbn [tables pg_columns pg_rows created columnsAdded] in *.
      rewrite Ht', Hta, insert_insert_eq, Ha, <- !app_assoc. done.
Qed.

Lemma add_special_columns_exact sql t E cols :
  forall r s tbl r' s',
    tables s !! t = Some tbl ->
    for_of cols r (add_special_column sql t E) s = (Ok r', s') ->
    tables s'
    = <[t := {| pg_columns :=
                  pg_columns tbl
                  ++ List.map column_of_def
                       (List.filter (fun d => negb (bool_decide (cd_name d ∈ E))
                                              && negb (jstring_eqb (cd_name d) pk_name))
                                    cols);
                pg_rows := pg_rows tbl |}]> (tables s)
    /\ created r' = created r
    /\ columnsAdded r'
       = columnsAdded r
         ++ List.map cd_name
              (List.filter (fun d => negb (bool_decide (cd_name d ∈ E))
                                     && negb (jstring_eqb (cd_name d) pk_name))
                           cols).
Proof.
  induction cols as [|col rest IH]; intros r s tbl r' s' Ht Hrun.
  - injection Hrun as <- <-. cbn [List.map List.filter].
    rewrite table_eta, app_nil_r. by rewrite insert_id.
  - change (for_of (col :: rest) r ?f s)
      with (bind (f r col) (fun acc' => for_of rest acc' f) s) in Hrun.
    unfold bind at 1, add_special_column at 1 in Hrun.
    cbn [List.map List.filter]. change (js "notion_page_id") with pk_name in Hrun.
    destruct (bool_decide (cd_name col ∈ E)) eqn:EE; cbn [negb andb] in *.
    + unfold ret in Hrun. by apply IH.
    + destruct (jstring_eqb (cd_name col) pk_name) eqn:Epk; cbn [negb] in *.
      * unfold bind at 1, log, emit, ret in Hrun.
        match type of Hrun with for_of rest ?r1 _ ?sb = _ =>
          destruct (IH r1 sb tbl r' s' Ht Hrun) as (Ht' & Hc & Ha) end.
        done.
      * unfold bind at 1 in Hrun.
        destruct (executeRaw sql (AddColumn t col) s)
          as [[rows|e] sa] eqn:Eexec; [|done].
        destruct (executeRaw_add_column _ _ _ _ _ _ _ Ht Eexec) as (Hta & _ & _).
        unfold bind, log, emit, ret in Hrun. cbn [tables] in Hrun.
        match type of Hrun with for_of rest ?r1 _ ?sb = _ =>
          destruct (IH r1 sb {| pg_columns := pg_columns tbl ++ [column_of_def col];
                                pg_rows := pg_rows tbl |} r' s')
            as (Ht' & Hc & Ha) end.
        { cbn [tables]. rewrite Hta. apply lookup_insert_eq. }
        { exact Hrun. }
        cbn [tables pg_columns pg_rows created columnsAdded] in *.
        rewrite Ht', Hta, insert_insert_eq, Ha, <- !app_assoc. done.
Qed.

Lemma filter_ext_eq {A} (f g : A -> bool) l :
  (forall x, f x = g x) -> List.filter f l = List.filter g l.
Proof. intros H. induction l as [|a l IH]; [done|]. simpl. by rewrite H, IH. Qed.

(** X7.  When [syncSchema] completes on a table that exists, the table has
    gained, at its end and in this order, one column for each mapping entry
    whose column name, as written, the table did not have, then
    [page_content] and [synced_at] if it did not have them; its rows and the
    other tables are untouched.  The report is not [created] and lists the
    names of those columns in that order, as the mapping writes them; the
    table holds each under the first 63 bytes of its name, which is what
    the engine keeps. *)
Theorem syncSchema_reconciles sql t schema s tbl r s' :
  tables s !! t = Some tbl ->
  syncSchema sql t schema s = (Ok r, s') ->
  tables s'
  = <[t := {| pg_columns :=
                pg_columns tbl
                ++ List.map column_of_def (missing_defs schema (pg_columns tbl));
              pg_rows := pg_rows tbl |}]> (tables s)
  /\ r = {| created := false;
            columnsAdded := List.map cd_name (missing_defs schema (pg_columns tbl)) |}.
Proof.
  intros Ht Hrun. unfold syncSchema in Hrun. unfold bind at 1 in Hrun.
  rewrite tableExists_run in Hrun.
  rewrite bool_decide_eq_true_2 in Hrun by (by rewrite Ht). cbn [negb] in Hrun.
  unfold bind at 1 in Hrun.
  destruct (getTableColumns_run sql t
              {| tables := tables s;
                 trace := trace s ++ [EvSql (SelectTableExists t)] |} tbl Ht)
    as (cols & Hcols & HE).
  rewrite Hcols in Hrun. rewrite HE in Hrun. cbn [tables trace] in Hrun.
  unfold bind at 1 in Hrun.
  match type of Hrun with context [for_of (obj_values schema) ?r0 ?f ?s0] =>
    destruct (for_of (obj_values schema) r0 f s0) as [[r1|e] s1] eqn:Eloop1;
      [|done];
    destruct ((fun H => add_property_columns_exact _ _ _ _ _ _ tbl _ _ H Eloop1) Ht)
      as (Ht1 & Hc1 & Ha1)
  end.
  unfold bind at 1 in Hrun.
  destruct (for_of specialCols r1 _ s1) as [[r2|e] s2] eqn:Eloop2; [|done].
  injection Hrun as <- <-.
  cbn [tables created columnsAdded app] in Ht1, Hc1, Ha1.
  destruct (add_special_columns_exact _ _ _ _ _ _ _ _ _
              (eq_trans (f_equal (fun db => db !! t) Ht1) (lookup_insert_eq _ _ _))
              Eloop2)
    as (Ht2 & Hc2 & Ha2).
  cbn [pg_columns pg_rows] in Ht2.
  assert (Hmissing :
    missing_defs schema (pg_columns tbl)
    = List.filter (fun d => negb (bool_decide (cd_name d ∈ existing_names (pg_columns tbl))))
                  (List.map def_of_property (obj_values schema))
      ++ List.filter (fun d => negb (bool_decide (cd_name d ∈ existing_names (pg_columns tbl)))
                               && negb (jstring_eqb (cd_name d) pk_name))
                     specialCols).
  { unfold missing_defs. rewrite List.filter_app. f_equal.
    - apply filter_ext_eq. intros d. by rewrite existing_names_spec.
    - unfold specialCols. cbn [List.filter].
      change (jstring_eqb (cd_name def_notion_page_id) pk_name) with true.
      change (jstring_eqb (cd_name def_page_content) pk_name) with false.
      change (jstring_eqb (cd_name def_synced_at) pk_name) with false.
      rewrite !existing_names_spec, andb_false_r, !andb_true_r. done. }
  split.
  - rewrite Ht2, Ht1, insert_insert_eq, Hmissing, List.map_app, <- app_assoc. done.
  - destruct r2 as [c2 a2]. cbn [created columnsAdded] in *.
    rewrite Hc2, Hc1, Ha2, Ha1, Hmissing, List.map_app. done.
Qed.

Lemma syncSchema_reconciles_witness :
  columnsAdded
    match (syncSchema lenient_sql sample_table (mapping_of sample_schema) legacy).1 with
    | Ok r => r
    | Throw _ => {| created := false; columnsAdded := [] |}
    end
  = [js "status"; js "page_content"; js "synced_at"].
Proof.
  destruct (syncSchema_reconciles lenient_sql sample_table
              (mapping_of sample_schema) legacy
              {| pg_columns := [ {| pg_name := js "title"; pg_type := js "TEXT";
                                    pg_pk := false |} ];
                 pg_rows := ∅ |}
              {| created := false;
                 columnsAdded := [js "status"; js "page_content"; js "synced_at"] |}
              (syncSchema lenient_sql sample_table (mapping_of sample_schema)
                          legacy).2)
    as [_ Hr].
  - reflexivity.
  - vm_compute. reflexivity.
  - vm_compute. reflexivity.
Defined.

(** A column of a long name added to a table that exists: the report gives
    the name as the mapping writes it, the table holds its first 63
    bytes. *)
Example syncSchema_reconciles_long_name :
  (syncSchema lenient_sql sample_table (mapping_of long_named_schema) legacy).1
  = Ok {| created := false;
          columnsAdded :=
            [js "estimated_number_of_working_days_remaining_until_the_customer_go_live_date";
             js "page_content"; js "synced_at"] |}
  /\ List.map pg_name
       (default [] (columns_of
                      (tables (syncSchema lenient_sql sample_table
                                          (mapping_of long_named_schema) legacy).2)
                      sample_table))
     = [js "title";
        js "estimated_number_of_working_days_remaining_until_the_customer_g";
        js "page_content"; js "synced_at"].
Proof. split; vm_compute; reflexivity. Qed.

Lemma syncSchema_create_unnamed sql t schema s :
  tables s !! t = None ->
  existsb (fun pm => jstring_eqb (columnName pm) []) (obj_values schema) = true ->
  syncSchema sql t schema s
  = (Throw (pg_error (js "zero-length delimited identifier")),
     {| tables := tables s;
        trace := trace s ++ [EvSql (SelectTableExists t);
                             EvSql (CreateTable t (create_defs schema))] |}).
Proof.
  intros Ht Hex.
  assert (Hempty : existsb (fun d => jstring_eqb (cd_name d) []) (create_defs schema)
                   = true).
  { unfold create_defs. rewrite existsb_app. apply orb_true_iff. right.
    apply existsb_exists in Hex as (pm & Hin & Hpm). apply existsb_exists.
    exists (def_of_property pm). split; [by apply in_map|done]. }
  unfold syncSchema. unfold bind at 1. rewrite tableExists_run.
  rewrite bool_decide_eq_false_2 by (rewrite Ht; by intros [? [=]]).
  cbn [negb]. fold (create_defs schema).
  unfold bind at 1, executeRaw, sql_query. cbn [tables trace]. unfold pg_run.
  rewrite bool_decide_eq_false_2 by (rewrite Ht; by intros [? [=]]).
  rewrite Hempty. by rewrite <- app_assoc.
Qed.

(** X8.  A supported property whose name holds no code unit that lower-cases
    to an ASCII letter or digit gets the empty column name.  On a first
    invocation against a database that has no table yet, the CREATE TABLE
    then fails on the zero-length identifier: the invocation ends with that
    error, no table is created, and the database is never queried. *)
Theorem runSync_unnameable_property notion sql options s props name tag t :
  databases_retrieve notion (databaseId options) = Ok (Some props) ->
  NoDup props.*1 ->
  (name, tag) ∈ props ->
  property_type_of tag = Some t ->
  name <> js "__proto__" ->
  existsb alnum_source name = false ->
  tables s !! getTableName (databaseId options) = None ->
  exists tr,
    runSync notion sql options None s
    = (Throw (pg_error (js "zero-length delimited identifier")),
       {| tables := tables s; trace := trace s ++ tr |})
    /\ Forall (fun e => is_query e = false /\ is_upsert e = false) tr.
Proof.
  intros Hret Hnd Hin Ht Hproto Halnum Htable.
  assert (Hex : existsb (fun pm => jstring_eqb (columnName pm) [])
                        (obj_values (supported_entries props)) = true).
  { apply existsb_exists.
    exists {| notionType := t; postgresType := TYPE_MAP t;
              columnName := sanitizeColumnName name |}.
    split.
    - apply list_elem_of_In. unfold obj_values. apply list_elem_of_fmap.
      exists (name, {| notionType := t; postgresType := TYPE_MAP t;
                       columnName := sanitizeColumnName name |}).
      split; [done|]. unfold supported_entries. apply list_elem_of_omap.
      exists (name, tag). split; [done|]. cbn [fst snd].
      rewrite (proj2 (jstring_eqb_neq _ _)) by done. by rewrite Ht.
    - cbn [columnName]. apply jstring_eqb_eq. by apply sanitize_nil_iff. }
  unfold runSync, prepareSchema. unfold bind at 1. unfold bind at 1.
  unfold log at 1, emit at 1. unfold bind at 1.
  rewrite (fetchNotionSchema_run _ _ props) by done.
  unfold bind at 1. unfold bind at 1.
  rewrite syncSchema_create_unnamed by done. cbn [tables trace].
  eexists. split; [by rewrite <- !app_assoc|].
  repeat (apply Forall_app; split); repeat constructor.
  unfold unsupported_warnings. apply Forall_forall.
  intros e [[n g] [_ He]]%list_elem_of_omap. cbn [fst snd] in He.
  destruct (property_type_of g); [done|]. by injection He as <-.
Qed.

Lemma runSync_unnameable_property_witness :
  (runSync (sample_client unnameable_schema nothing_more) lenient_sql
           sample_options None init).1
  = Throw (pg_error (js "zero-length delimited identifier")).
Proof.
  destruct (runSync_unnameable_property
              (sample_client unnameable_schema nothing_more) lenient_sql
              sample_options init unnameable_schema
              [0x540D; 0x524D] (js "rich_text") P_rich_text)
    as (tr & Hrun & _).
  - reflexivity.
  - apply (bool_decide_unpack _). vm_compute. reflexivity.
  - right. left.
  - reflexivity.
  - done.
  - reflexivity.
  - reflexivity.
  - by rewrite Hrun.
Defined.

(** ** Value extraction, further *)

Lemma property_type_of_tag tag t : property_type_of tag = Some t -> type_tag t = tag.
Proof.
  unfold property_type_of. intros H. apply find_some in H as [_ H].
  by apply jstring_eqb_eq.
Qed.

Lemma member_defined k v : nullish v = false -> exists w, member k v = Ok w.
Proof. destruct v; try done; by eexists. Qed.

Lemma member_nullish k v :
  nullish v = true -> exists m, member k v = Throw (TypeError m).
Proof. destruct v; try done; by eexists. Qed.

Lemma truthy_defined v : truthy v = true -> nullish v = false.
Proof. by destruct v. Qed.

Lemma opt_member_ok k v : exists w, opt_member k v = Ok w.
Proof.
  unfold opt_member. destruct (nullish v) eqn:E; [by eexists|].
  by apply member_defined.
Qed.

Lemma file_url_defined f : nullish f = false -> exists w, file_url f = Ok w.
Proof.
  intros Hf. unfold file_url.
  destruct (member_defined (js "file") f Hf) as (file & ->). cbn [res_bind].
  destruct (opt_member_ok (js "url") file) as (u & ->). cbn [res_bind].
  destruct (nullish u); [|by eexists].
  destruct (member_defined (js "external") f Hf) as (ext & ->). cbn [res_bind].
  apply opt_member_ok.
Qed.

Lemma file_url_nullish f :
  nullish f = true -> exists m, file_url f = Throw (TypeError m).
Proof.
  intros Hf. unfold file_url.
  destruct (member_nullish (js "file") f Hf) as (m & ->). by exists m.
Qed.

Lemma res_mapM_items (f : value -> res value) items :
  (forall x, nullish x = false -> exists w, f x = Ok w) ->
  (forall x, nullish x = true -> exists m, f x = Throw (TypeError m)) ->
  if existsb nullish items
  then exists m, res_mapM f items = Throw (TypeError m)
  else exists l, res_mapM f items = Ok l.
Proof.
  intros Hok Hthrow. induction items as [|x items IH]; [by eexists|].
  cbn [existsb res_mapM]. destruct (nullish x) eqn:Ex; cbn [orb].
  - destruct (Hthrow x Ex) as (m & ->). by exists m.
  - destruct (Hok x Ex) as (w & ->). cbn [res_bind].
    destruct (existsb nullish items).
    + destruct IH as (m & ->). by exists m.
    + destruct IH as (l & ->). by eexists.
Qed.

Lemma array_map_payload what (f : value -> res value) v :
  (forall x, nullish x = false -> exists w, f x = Ok w) ->
  (forall x, nullish x = true -> exists m, f x = Throw (TypeError m)) ->
  nullish v = false ->
  if match v with VArr items => existsb nullish items | _ => true end
  then exists m, array_map what f v = Throw (TypeError m)
  else exists l, array_map what f v = Ok l.
Proof.
  intros Hok Hthrow Hv.
  destruct v as [| | | | |items|]; try done; try (by eexists).
  by apply res_mapM_items.
Qed.

Lemma list_payload_shape v :
  bad_payload v
  = negb (nullish v)
    && match v with VArr items => existsb nullish items | _ => true end.
Proof. by destruct v. Qed.

(** The three shapes of extraction through [?.map]. *)
Lemma mapped_payload what (f : value -> res value) (wrap : list value -> value) v :
  (forall x, nullish x = false -> exists w, f x = Ok w) ->
  (forall x, nullish x = true -> exists m, f x = Throw (TypeError m)) ->
  forall dflt,
  let r := if nullish v then Ok dflt
           else res_bind (array_map what f v) (fun xs => Ok (wrap xs)) in
  if bad_payload v
  then exists m, r = Throw (TypeError m)
  else exists w, r = Ok w.
Proof.
  intros Hok Hthrow dflt r. subst r. rewrite list_payload_shape.
  destruct (nullish v) eqn:Ev; cbn [negb andb]; [by eexists|].
  pose proof (array_map_payload what f v Hok Hthrow Ev) as H.
  destruct (match v with VArr items => existsb nullish items | _ => true end).
  - destruct H as (m & ->). by exists m.
  - destruct H as (l & ->). by eexists.
Qed.

Lemma no_toString_member_get fs k x :
  forallb (fun kv => no_toString_member (snd kv)) fs = true ->
  obj_get k fs = Some x -> no_toString_member x = true.
Proof.
  induction fs as [|[k' v] fs IH]; [done|]. cbn [forallb obj_get snd].
  intros [Hv Hfs]%andb_prop. destruct (jstring_eqb k k'); [by intros [= <-]|by apply IH].
Qed.

Lemma no_toString_member_member k v w :
  no_toString_member v = true -> member k v = Ok w -> no_toString_member w = true.
Proof.
  destruct v as [| | | | | |fs]; try done; try (by intros _ [= <-]).
  cbn [no_toString_member member]. intros [_ Hfs]%andb_prop [= <-].
  destruct (obj_get k fs) eqn:E; [by eapply no_toString_member_get|done].
Qed.

Lemma no_toString_member_mapM k items texts :
  forallb no_toString_member items = true ->
  res_mapM (member k) items = Ok texts ->
  forallb no_toString_member texts = true.
Proof.
  revert texts. induction items as [|x items IH]; intros texts; [by intros _ [= <-]|].
  cbn [forallb res_mapM]. intros [Hx Hitems]%andb_prop.
  destruct (member k x) as [w|] eqn:Ew; [|done]. cbn [res_bind].
  destruct (res_mapM _ items) as [ws|]; [|done]. cbn [res_bind]. intros [= <-].
  cbn [forallb]. rewrite (no_toString_member_member _ _ _ Hx Ew). by rewrite IH.
Qed.

(** A member of a member of an object with no [toString] member has
    none. *)
Lemma no_toString_member_inner fs k1 k2 x :
  member k2 (default VUndefined (obj_get k1 fs)) = Ok x ->
  no_toString_member x = false -> no_toString_member (VObj fs) = false.
Proof.
  intros Hx Hbad. destruct (no_toString_member (VObj fs)) eqn:T; [|done].
  assert (Ho : no_toString_member (default VUndefined (obj_get k1 fs)) = true)
    by (eapply no_toString_member_member; [exact T|apply member_obj]).
  by rewrite (no_toString_member_member _ _ _ Ho Hx) in Hbad.
Qed.

Lemma join_parts_outcome l :
  Forall (fun v => converts (no_toString_member v) (toString v)) l ->
  converts (forallb no_toString_member l)
           (res_mapM (fun x => if nullish x then Ok [] else toString x) l).
Proof.
  induction 1 as [|x l Hx _ IH]; [left; by eexists|]. cbn [res_mapM forallb].
  assert (Hrest : forall part,
    converts (no_toString_member x && forallb no_toString_member l)
      (res_bind (res_mapM (fun x => if nullish x then Ok [] else toString x) l)
                (fun bs => Ok (part :: bs)))).
  { intros part. destruct IH as [(parts & ->)|(Hl & m & ->)]; [left; by eexists|right].
    split; [by rewrite Hl, andb_false_r|by exists m]. }
  destruct (nullish x) eqn:En; [apply Hrest|].
  destruct Hx as [(t & ->)|(Hx & m & ->)]; [apply Hrest|right].
  rewrite Hx. split; [done|by exists m].
Qed.

Lemma toString_outcome v : converts (no_toString_member v) (toString v).
Proof.
  apply (value_array_ind (fun v => converts (no_toString_member v) (toString v))).
  - intros [| |[]| | | |fs]; try done; try (left; by eexists).
    cbn [toString no_toString_member].
    destruct (obj_get (js "toString") fs); [right|left; by eexists].
    split; [done|by eexists].
  - intros l Hl. cbn [toString no_toString_member].
    destruct (join_parts_outcome l Hl) as [(parts & ->)|(Hbad & m & ->)];
      [left; by eexists|right]. split; [done|by exists m].
Qed.

Lemma array_join_outcome sep l :
  converts (forallb no_toString_member l) (array_join sep l).
Proof.
  unfold array_join.
  destruct (join_parts_outcome l) as [(parts & ->)|(Hbad & m & ->)];
    [apply Forall_forall; intros; apply toString_outcome|left; by eexists|right].
  split; [done|by exists m].
Qed.

(** The text of a title or of a rich text. *)
Lemma text_payload_outcome fs k :
  let payload := default VUndefined (obj_get k fs) in
  let r := if nullish payload then Ok (VStr [])
           else res_bind (array_map (js "items") (member (js "plain_text")) payload)
                  (fun texts =>
                     res_bind (array_join [] texts) (fun text => Ok (VStr text))) in
  if bad_payload payload
  then exists m, r = Throw (TypeError m)
  else converts (no_toString_member (VObj fs)) r.
Proof.
  intros payload r. subst r. rewrite list_payload_shape.
  destruct (nullish payload) eqn:Ev; cbn [negb andb]; [left; by eexists|].
  pose proof (array_map_payload (js "items") (member (js "plain_text")) payload
                (member_defined _) (member_nullish _) Ev) as H.
  destruct payload as [| | | | |items|] eqn:Ep; try done;
    try (destruct H as (m & ->); by exists m).
  destruct (existsb nullish items); [destruct H as (m & ->); by exists m|].
  destruct H as (texts & Htexts). rewrite Htexts. cbn [res_bind].
  destruct (array_join_outcome [] texts) as [(text & ->)|(Hbad & m & ->)];
    [left; by eexists|right]. split; [|by exists m].
  destruct (no_toString_member (VObj fs)) eqn:T; [|done].
  assert (Hp : no_toString_member payload = true)
    by (eapply no_toString_member_member; [exact T|apply member_obj]).
  subst payload. rewrite Ep in Hp. cbn [no_toString_member] in Hp.
  by rewrite (no_toString_member_mapM _ _ _ Hp Htexts) in Hbad.
Qed.

Lemma extract_case_total t fs :
  if is_list_kind t && bad_payload (default VUndefined (obj_get (type_tag t) fs))
  then exists m, extract_case t (VObj fs) = Throw (TypeError m)
  else converts (no_toString_member (VObj fs)) (extract_case t (VObj fs)).
Proof.
  assert (Hm : forall k x, nullish x = false -> exists w, member k x = Ok w)
    by (intros; by apply member_defined).
  assert (Hn : forall k x, nullish x = true -> exists m, member k x = Throw (TypeError m))
    by (intros; by apply member_nullish).
  assert (Hsub : forall k sub,
    converts (no_toString_member (VObj fs)) (subfield_or_null k sub (VObj fs))).
  { intros k sub. left. unfold subfield_or_null. rewrite member_obj. cbn [res_bind].
    destruct (opt_member_ok sub (default VUndefined (obj_get k fs))) as (w & ->).
    by eexists. }
  assert (Hpluck : forall what k sub,
    if bad_payload (default VUndefined (obj_get k fs))
    then exists m, pluck_or_empty what k sub (VObj fs) = Throw (TypeError m)
    else converts (no_toString_member (VObj fs)) (pluck_or_empty what k sub (VObj fs))).
  { intros what k sub. unfold pluck_or_empty. rewrite member_obj. cbn [res_bind].
    pose proof (mapped_payload what (member sub) VArr
                  (default VUndefined (obj_get k fs)) (Hm sub) (Hn sub) (VArr [])) as H.
    cbv zeta in H. destruct (bad_payload _); [exact H|by left]. }
  destruct t; cbn [is_list_kind andb type_tag];
    try (by left; unfold extract_case, field_or; rewrite member_obj; eexists);
    try apply Hsub; try apply Hpluck.
  - (* title *)
    unfold extract_case. rewrite member_obj. cbn [res_bind type_tag].
    apply (text_payload_outcome fs (js "title")).
  - (* rich_text *)
    unfold extract_case. rewrite member_obj. cbn [res_bind type_tag].
    apply (text_payload_outcome fs (js "rich_text")).
  - (* formula *)
    left. unfold extract_case. rewrite member_obj. cbn [res_bind].
    destruct (truthy (default VUndefined (obj_get (js "formula") fs))) eqn:Et;
      cbn [negb]; [|by eexists].
    apply truthy_defined in Et.
    destruct (Hm (js "string") _ Et) as (? & ->).
    destruct (Hm (js "number") _ Et) as (? & ->).
    destruct (Hm (js "boolean") _ Et) as (? & ->).
    destruct (Hm (js "date") _ Et) as (? & ->). by eexists.
  - (* rollup *)
    left. unfold extract_case. rewrite member_obj. cbn [res_bind].
    destruct (truthy (default VUndefined (obj_get (js "rollup") fs))) eqn:Et;
      cbn [negb]; [|by eexists].
    apply truthy_defined in Et.
    destruct (Hm (js "type") _ Et) as (ty & ->). cbn [res_bind].
    destruct (if ty is VStr tag then jstring_eqb tag (js "array") else false).
    + destruct (Hm (js "array") _ Et) as (? & ->). by eexists.
    + destruct (Hm (js "number") _ Et) as (? & ->).
      destruct (Hm (js "date") _ Et) as (? & ->). by eexists.
  - (* files *)
    unfold extract_case. rewrite member_obj. cbn [res_bind].
    pose proof (mapped_payload (js "files") file_url
                  (fun urls => VArr (List.filter truthy urls))
                  (default VUndefined (obj_get (js "files") fs))
                  file_url_defined file_url_nullish (VArr [])) as H.
    cbv zeta in H. destruct (bad_payload _); [exact H|by left].
  - (* unique_id *)
    unfold extract_case. rewrite member_obj. cbn [res_bind].
    destruct (truthy (default VUndefined (obj_get (js "unique_id") fs))) eqn:Et;
      cbn [negb]; [|left; by eexists].
    apply truthy_defined in Et.
    destruct (Hm (js "prefix") _ Et) as (prefix & Hprefix).
    destruct (Hm (js "number") _ Et) as (num & Hnum).
    rewrite Hprefix, Hnum. cbn [res_bind].
    assert (Htail : forall k,
      converts (no_toString_member (VObj fs))
               (res_bind (toString num) (fun tail => Ok (VStr (k tail))))).
    { intros k. destruct (toString_outcome num) as [(tail & ->)|(Hbad & m & ->)];
        [left; by eexists|right]. split; [|by exists m].
      by apply (no_toString_member_inner fs (js "unique_id") (js "number") num). }
    destruct (truthy prefix); [|apply (Htail (fun tail => tail))].
    destruct (toString_outcome prefix) as [(head & ->)|(Hbad & m & ->)];
      [apply (Htail (fun tail => head ++ js "-" ++ tail))|right].
    split; [|by exists m].
    by apply (no_toString_member_inner fs (js "unique_id") (js "prefix") prefix).
Qed.

Lemma extract_result_raises p :
  if malformed_list p
  then exists m, extract_result p = Throw (TypeError m)
  else converts (no_toString_member p) (extract_result p).
Proof.
  destruct p as [| | | | |items|fs]; cbn [malformed_list]; [left; by eexists..|].
  unfold extract_result. rewrite member_obj. cbn [res_bind].
  assert (Hunknown : forall ty,
    obj_get (js "type") fs = ty ->
    converts (no_toString_member (VObj fs))
             (res_bind (toString (default VUndefined ty)) (fun _ => Ok VNull))).
  { intros ty Hty.
    destruct (toString_outcome (default VUndefined ty)) as [(text & ->)|(Hbad & m & ->)];
      [left; by eexists|right]. split; [|by exists m].
    destruct (no_toString_member (VObj fs)) eqn:T; [|done].
    rewrite (no_toString_member_member (js "type") (VObj fs) _ T) in Hbad; [done|].
    by rewrite member_obj, Hty. }
  destruct (obj_get (js "type") fs) as [ty|] eqn:Hty; [|by apply (Hunknown None)].
  destruct ty as [| | | |tag| |]; try by apply (Hunknown (Some _)).
  cbn [default from_option id].
  destruct (property_type_of tag) as [t|] eqn:Ht;
    [|by apply (Hunknown (Some (VStr tag)))].
  pose proof (extract_case_total t fs) as H.
  rewrite (property_type_of_tag tag t Ht) in H. exact H.
Qed.

(** A run of [extractPropertyValue] follows [extract_result]; a run that
    raises has logged nothing. *)
Lemma extractPropertyValue_run p s :
  match extract_result p with
  | Ok v => exists s', extractPropertyValue p s = (Ok v, s') /\ tables s' = tables s
  | Throw e => extractPropertyValue p s = (Throw e, s)
  end.
Proof.
  destruct p as [| | | | |items|fs]; try (by eexists).
  unfold extractPropertyValue, extract_result, bind, lift, res_bind.
  rewrite member_obj.
  destruct (if default VUndefined (obj_get (js "type") fs) is VStr tag
            then property_type_of tag else None) as [t|].
  - destruct (extract_case t (VObj fs)); [by eexists|done].
  - destruct (toString _) as [text|e]; [|done].
    unfold log, emit, bind, ret. by eexists.
Qed.

(** X9.  [extractPropertyValue] raises nothing but a TypeError, and logs
    nothing when it does.  It raises one whenever the property is of a kind
    read with [?.map] (title, rich_text, multi_select, relation, people,
    files) and its payload is there but is not a list, or is a list holding
    [null] or [undefined].  On any other value none of whose objects has a
    member of its own named [toString] (a value passed that is not an
    object, a property of an unknown type, a payload of an unexpected
    shape) it returns a value and changes no table; with such a member the
    conversion of the value to a string can be a further TypeError. *)
Theorem extractPropertyValue_raises (property : value) (s : State) :
  if malformed_list property
  then exists m, extractPropertyValue property s = (Throw (TypeError m), s)
  else (exists v s',
          extractPropertyValue property s = (Ok v, s') /\ tables s' = tables s)
       \/ (no_toString_member property = false
           /\ exists m, extractPropertyValue property s = (Throw (TypeError m), s)).
Proof.
  pose proof (extract_result_raises property) as Hres.
  pose proof (extractPropertyValue_run property s) as Hrun.
  destruct (malformed_list property).
  - destruct Hres as (m & Hm). rewrite Hm in Hrun. by exists m.
  - destruct Hres as [(v & Hv)|(Hbad & m & Hm)].
    + rewrite Hv in Hrun. destruct Hrun as (s' & Hs' & Ht). left. by exists v, s'.
    + rewrite Hm in Hrun. right. split; [exact Hbad|by exists m].
Qed.

(** A property whose type is an object with a [toString] member: the
    message of the warning cannot be built. *)
Example extractPropertyValue_unprintable_type :
  extractPropertyValue
    (VObj [(js "type", VObj [(js "toString", VNum (js "1"))])]) init
  = (Throw (TypeError (js "Cannot convert object to primitive value")), init).
Proof. reflexivity. Qed.

Lemma res_mapM_join_strings texts :
  res_mapM (fun x => if nullish x then Ok [] else toString x) (List.map VStr texts)
  = Ok texts.
Proof.
  induction texts as [|t texts IH]; [done|].
  cbn [List.map res_mapM nullish toString res_bind]. by rewrite IH.
Qed.

Lemma join_empty_sep l : join [] l = concat l.
Proof.
  induction l as [|a l IH]; [done|]. destruct l as [|b l].
  - simpl. by rewrite app_nil_r.
  - change (join [] (a :: b :: l)) with (a ++ [] ++ join [] (b :: l)).
    by rewrite IH.
Qed.

Lemma res_mapM_strings k items vs :
  Forall2 (has_string k) items vs ->
  res_mapM (member k) items = Ok (List.map VStr vs).
Proof.
  induction 1 as [|item v items vs (o & -> & Hk) _ IH]; [done|].
  cbn [res_mapM List.map]. rewrite member_obj, Hk. cbn [res_bind default from_option id].
  by rewrite IH.
Qed.

(** X10.  The text of a title or rich_text property whose payload is a list
    of fragments is the concatenation of the [plain_text] of the fragments,
    in order, with nothing between them; an empty list gives the empty
    string. *)
Theorem extractPropertyValue_text fs tag items texts s :
  tag = js "title" \/ tag = js "rich_text" ->
  obj_get (js "type") fs = Some (VStr tag) ->
  obj_get tag fs = Some (VArr items) ->
  Forall2 (has_string (js "plain_text")) items texts ->
  extractPropertyValue (VObj fs) s = (Ok (VStr (concat texts)), s).
Proof.
  intros Htag Hty Hpayload Hitems.
  assert (Hjoin : array_join [] (List.map VStr texts) = Ok (concat texts)).
  { unfold array_join. rewrite res_mapM_join_strings. cbn [res_bind].
    by rewrite join_empty_sep. }
  destruct Htag as [-> | ->].
  - rewrite (extract_typed fs _ P_title s Hty eq_refl).
    unfold extract_case. rewrite member_obj. cbn [type_tag]. rewrite Hpayload.
    cbn [res_bind default from_option id nullish array_map].
    rewrite (res_mapM_strings _ _ _ Hitems). cbn [res_bind]. by rewrite Hjoin.
  - rewrite (extract_typed fs _ P_rich_text s Hty eq_refl).
    unfold extract_case. rewrite member_obj. cbn [type_tag]. rewrite Hpayload.
    cbn [res_bind default from_option id nullish array_map].
    rewrite (res_mapM_strings _ _ _ Hitems). cbn [res_bind]. by rewrite Hjoin.
Qed.

Lemma extractPropertyValue_text_witness :
  extractPropertyValue
    (VObj [(js "id", VStr (js "title")); (js "type", VStr (js "rich_text"));
           (js "rich_text",
            VArr [VObj [(js "type", VStr (js "text"));
                        (js "plain_text", VStr (js "Hello, "))];
                  VObj [(js "plain_text", VStr (js "world"))]])])
    init
  = (Ok (VStr (js "Hello, world")), init).
Proof.
  eapply (extractPropertyValue_text _ (js "rich_text") _
            [js "Hello, "; js "world"]).
  - by right.
  - reflexivity.
  - reflexivity.
  - repeat constructor; eexists; (split; [reflexivity|reflexivity]).
Defined.

Lemma file_url_entry item u : file_entry item u -> file_url item = Ok (VStr u).
Proof.
  intros (o & -> & [(f & Hf & Hu)|(Hnone & e & He & Hu)]); unfold file_url.
  - rewrite member_obj, Hf. cbn [res_bind default from_option id].
    unfold opt_member. cbn [nullish]. rewrite member_obj, Hu. done.
  - rewrite member_obj, Hnone. cbn [res_bind default from_option id].
    unfold opt_member at 1. cbn [nullish res_bind].
    rewrite member_obj, He. cbn [res_bind default from_option id].
    unfold opt_member. cbn [nullish]. rewrite member_obj, Hu. done.
Qed.

Lemma res_mapM_files items urls :
  Forall2 file_entry items urls ->
  res_mapM file_url items = Ok (List.map VStr urls).
Proof.
  induction 1 as [|item u items urls Hitem _ IH]; [done|].
  cbn [res_mapM List.map]. rewrite (file_url_entry _ _ Hitem). cbn [res_bind].
  by rewrite IH.
Qed.

Lemma filter_truthy_strings urls :
  List.filter truthy (List.map VStr urls)
  = List.map VStr (List.filter (fun u => negb (jstring_eqb u [])) urls).
Proof.
  induction urls as [|u urls IH]; [done|]. cbn [List.map List.filter truthy].
  rewrite IH. by destruct (negb _).
Qed.

(** X11.  The value of a multi_select, relation or people property whose
    payload is a list of options or references is the list of their names
    (multi_select) or ids (relation, people), in order.  The value of a
    files property whose entries are hosted or external files is the list
    of their URLs in order, without the empty ones. *)
Theorem extractPropertyValue_lists fs tag items vs s :
  obj_get (js "type") fs = Some (VStr tag) ->
  obj_get tag fs = Some (VArr items) ->
  (tag = js "multi_select" /\ Forall2 (has_string (js "name")) items vs
   \/ tag = js "relation" /\ Forall2 (has_string (js "id")) items vs
   \/ tag = js "people" /\ Forall2 (has_string (js "id")) items vs
   -> extractPropertyValue (VObj fs) s = (Ok (VArr (List.map VStr vs)), s))
  /\ (tag = js "files" /\ Forall2 file_entry items vs
      -> extractPropertyValue (VObj fs) s
         = (Ok (VArr (List.map VStr
                        (List.filter (fun u => negb (jstring_eqb u [])) vs))), s)).
Proof.
  intros Hty Hpayload. split.
  - intros [[-> Hitems]|[[-> Hitems]|[-> Hitems]]].
    + rewrite (extract_typed fs _ P_multi_select s Hty eq_refl).
      unfold extract_case, pluck_or_empty. rewrite member_obj, Hpayload.
      cbn [res_bind default from_option id nullish array_map].
      by rewrite (res_mapM_strings _ _ _ Hitems).
    + rewrite (extract_typed fs _ P_relation s Hty eq_refl).
      unfold extract_case, pluck_or_empty. rewrite member_obj, Hpayload.
      cbn [res_bind default from_option id nullish array_map].
      by rewrite (res_mapM_strings _ _ _ Hitems).
    + rewrite (extract_typed fs _ P_people s Hty eq_refl).
      unfold extract_case, pluck_or_empty. rewrite member_obj, Hpayload.
      cbn [res_bind default from_option id nullish array_map].
      by rewrite (res_mapM_strings _ _ _ Hitems).
  - intros [-> Hitems].
    rewrite (extract_typed fs _ P_files s Hty eq_refl).
    unfold extract_case. rewrite member_obj, Hpayload.
    cbn [res_bind default from_option id nullish array_map].
    rewrite (res_mapM_files _ _ Hitems). cbn [res_bind].
    by rewrite filter_truthy_strings.
Qed.

Lemma extractPropertyValue_lists_witness :
  extractPropertyValue
    (VObj [(js "type", VStr (js "files")); (js "files", VArr files_sample)]) init
  = (Ok (VArr [VStr (js "https://f/a"); VStr (js "https://e/b")]), init)
  /\ extractPropertyValue
       (VObj [(js "type", VStr (js "multi_select"));
              (js "multi_select", VArr options_sample)]) init
     = (Ok (VArr [VStr (js "a"); VStr (js "b")]), init).
Proof.
  split.
  - apply (proj2 (extractPropertyValue_lists
                    [(js "type", VStr (js "files")); (js "files", VArr files_sample)]
                    (js "files") files_sample
                    [js "https://f/a"; []; js "https://e/b"] init
                    eq_refl eq_refl)).
    split; [reflexivity|].
    repeat constructor; eexists; (split; [reflexivity|]).
    + left. eexists. split; reflexivity.
    + right. split; [reflexivity|]. eexists. split; reflexivity.
    + right. split; [reflexivity|]. eexists. split; reflexivity.
  - apply (proj1 (extractPropertyValue_lists
                    [(js "type", VStr (js "multi_select"));
                     (js "multi_select", VArr options_sample)]
                    (js "multi_select") options_sample
                    [js "a"; js "b"] init eq_refl eq_refl)).
    left. split; [reflexivity|].
    repeat constructor; eexists; (split; reflexivity).
Defined.

(** ** One invocation, further *)

Lemma keeps_weaken {A : Type} (R R' : gmap (list N) PgTable -> gmap (list N) PgTable -> Prop)
    (m : M A) :
  (forall a b, R a b -> R' a b) -> keeps R m -> keeps R' m.
Proof. intros H Hm s. apply H, Hm. Qed.

Lemma extended_at_refl t db : extended_at t db db.
Proof.
  split; [done|]. intros tbl Ht. exists tbl. split; [done|].
  split; [|done]. exists []. by rewrite app_nil_r.
Qed.

Lemma extended_at_trans t a b c :
  extended_at t a b -> extended_at t b c -> extended_at t a c.
Proof.
  intros [Ho1 Ht1] [Ho2 Ht2]. split.
  - intros t' Hne. by rewrite Ho2, Ho1.
  - intros tbl Ha. destruct (Ht1 tbl Ha) as (tb & Hb & (e1 & Hc1) & Hr1).
    destruct (Ht2 tb Hb) as (tc & Hc & (e2 & Hc2) & Hr2).
    exists tc. split; [done|]. split.
    + exists (e1 ++ e2). by rewrite Hc2, Hc1, app_assoc.
    + intros id Hid. by apply Hr2, Hr1.
Qed.

Lemma grown_extended t a b : grown_at t a b -> extended_at t a b.
Proof.
  intros [Ho Ht]. split; [done|]. intros tbl Ha.
  destruct (Ht tbl Ha) as (extra & Hb). eexists. split; [exact Hb|].
  split; [by exists extra|done].
Qed.

Lemma extended_at_upsert sql t cols vals db :
  extended_at t db (pg_run sql (Upsert t cols vals) db).2.
Proof.
  unfold pg_run. destruct (db !! t) as [tbl|] eqn:Ht; [|apply extended_at_refl].
  repeat (match goal with |- context [if ?b then _ else _] => destruct b end;
          [apply extended_at_refl|]).
  destruct (obj_get pk_name (combine cols vals)) as [[| | | |id| |]|];
    try apply extended_at_refl.
  cbn [snd]. split.
  - intros t' Hne. by rewrite lookup_insert_ne.
  - intros tbl' Ht'. rewrite Ht in Ht'. injection Ht' as <-.
    eexists. split; [apply lookup_insert_eq|]. cbn [pg_columns pg_rows].
    split; [exists []; by rewrite app_nil_r|].
    intros id' Hid'. destruct (decide (id = id')) as [->|Hne].
    + rewrite lookup_insert_eq. by eexists.
    + by rewrite lookup_insert_ne.
Qed.

Section keeps_actions.
Context (R : gmap (list N) PgTable -> gmap (list N) PgTable -> Prop).
Hypothesis R_refl : forall db, R db db.
Hypothesis R_trans : forall a b c, R a b -> R b c -> R a c.

Lemma keeps_fetchNotionSchema notion id : keeps R (fetchNotionSchema notion id).
Proof.
  unfold fetchNotionSchema.
  apply keeps_bind; [done|by apply keeps_log|]. intros _.
  apply keeps_bind; [done|by apply keeps_emit|]. intros _.
  apply keeps_bind; [done|by apply keeps_lift|].
  intros [props|]; [|by apply keeps_throw].
  apply keeps_bind; [done| |].
  { apply keeps_for_of; [done..|]. intros acc [n tag] _. unfold schema_entry.
    destruct (property_type_of tag); [by apply keeps_ret|].
    apply keeps_bind; [done|by apply keeps_log|]. intros _. by apply keeps_ret. }
  intros m. apply keeps_bind; [done|by apply keeps_log|]. intros _.
  by apply keeps_ret.
Qed.

Lemma keeps_extractPropertyValue p : keeps R (extractPropertyValue p).
Proof.
  intros s. destruct (extractPropertyValue_pure p s) as (s' & Hrun & Ht).
  rewrite Hrun. cbn [snd]. rewrite Ht. apply R_refl.
Qed.

Lemma keeps_pageToMarkdown notion pageId : keeps R (pageToMarkdown notion pageId).
Proof.
  intros s. destruct (pageToMarkdown_pure notion pageId s) as (s' & Hrun & Ht).
  rewrite Hrun. cbn [snd]. rewrite Ht. apply R_refl.
Qed.

End keeps_actions.

Lemma keeps_prepareSchema notion sql options state :
  keeps (grown_at (getTableName (databaseId options)))
        (prepareSchema notion sql options state).
Proof.
  pose proof (grown_at_refl (getTableName (databaseId options))) as Hr.
  pose proof (grown_at_trans (getTableName (databaseId options))) as Ht.
  unfold prepareSchema.
  apply keeps_bind; [done|by apply keeps_log|]. intros _.
  apply keeps_bind; [done|by apply keeps_fetchNotionSchema|]. intros m.
  apply keeps_bind; [done| |intros _; by apply keeps_ret].
  destruct state; [by apply keeps_ret|].
  apply keeps_bind; [done|apply syncSchema_keeps_grown|]. intros r.
  destruct (created r); [by apply keeps_log|].
  destruct (_ <? _)%nat; [by apply keeps_log|by apply keeps_ret].
Qed.

Lemma keeps_syncBatch notion sql options state schemaMapping :
  keeps (extended_at (getTableName (databaseId options)))
        (syncBatch notion sql options state schemaMapping).
Proof.
  pose proof (extended_at_refl (getTableName (databaseId options))) as Hr.
  pose proof (extended_at_trans (getTableName (databaseId options))) as Ht.
  unfold syncBatch.
  apply keeps_bind; [done|by apply keeps_emit|]. intros _.
  apply keeps_bind; [done|by apply keeps_lift|]. intros q.
  apply keeps_bind; [done|by apply keeps_log|]. intros _.
  apply keeps_bind; [done| |].
  { apply keeps_for_of; [done..|]. intros acc page _. unfold processPage.
    destruct (page_properties page) as [pageProps|]; [|by apply keeps_ret].
    apply keeps_try_catch; [done| |].
    - apply keeps_bind; [done| |intros _; by apply keeps_ret].
      unfold syncPage. apply keeps_bind; [done| |].
      { apply keeps_for_of; [done..|]. intros props [n d] _. unfold extract_entry.
        destruct (truthy _); [|by apply keeps_ret].
        apply keeps_bind; [done|by apply keeps_extractPropertyValue|].
        intros v. by apply keeps_ret. }
      intros props. apply keeps_bind; [done|by apply keeps_pageToMarkdown|].
      intros content. unfold upsertRecord, upsert_stmt.
      apply keeps_bind; [done| |intros _; by apply keeps_log].
      apply keeps_sql_query. apply extended_at_upsert.
    - intros e. apply keeps_bind; [done|by apply keeps_log|].
      intros _. by apply keeps_ret. }
  intros r. apply keeps_bind; [done|by apply keeps_log|]. intros _.
  by apply keeps_ret.
Qed.

(** X12.  An invocation never loses data, however it ends: the tables it
    leaves differ from those it found only at the table of the database,
    which may have been created, have gained columns at its end and have
    gained or rewritten rows.  No other table is touched, no column is
    dropped or moved, no row is deleted. *)
Theorem runSync_never_loses notion sql options state :
  keeps (extended_at (getTableName (databaseId options)))
        (runSync notion sql options state).
Proof.
  unfold runSync. apply keeps_bind.
  - apply extended_at_trans.
  - eapply keeps_weaken; [apply grown_extended|apply keeps_prepareSchema].
  - intros m. apply keeps_syncBatch.
Qed.

(** A completed invocation has prepared the schema and had its query
    answered. *)
Lemma runSync_completed notion sql options state s out :
  (runSync notion sql options state s).1 = Ok out ->
  exists m s1 q,
    prepareSchema notion sql options state s = (Ok m, s1)
    /\ databases_query notion (queryParamsOf options state) = Ok q
    /\ nextState out = nextStateOf state q
    /\ hasMore out = has_more q
    /\ processedCount (result out)
       = length (List.filter
                   (page_synced notion sql (getTableName (databaseId options))
                                m (tables s1)) (results q))
    /\ errors (result out)
       = omap (page_error notion sql (getTableName (databaseId options))
                          m (tables s1)) (results q)
    /\ errorCount (result out) = length (errors (result out)).
Proof.
  unfold runSync, bind.
  destruct (prepareSchema notion sql options state s) as [[m|e] s1] eqn:Hprep;
    [|done].
  destruct (databases_query notion (queryParamsOf options state)) as [q|e] eqn:Hq.
  - destruct (syncBatch_returns notion sql options state m s1 q Hq)
      as (r & s' & -> & Hp & Hm & He & _).
    cbn [fst]. intros [= <-]. exists m, s1, q. cbn [result nextState hasMore].
    done.
  - unfold syncBatch, bind, emit, lift. by rewrite Hq.
Qed.

(** X13.  What a completed invocation hands to the next one (the next
    state and [hasMore]) depends on the carried state and on the answer of
    Notion only: not on the SQL client, not on the tables, and so not on
    whether any record could be written. *)
Theorem runSync_next_state_independent notion options state sql1 sql2 s1 s2 out1 out2 :
  (runSync notion sql1 options state s1).1 = Ok out1 ->
  (runSync notion sql2 options state s2).1 = Ok out2 ->
  nextState out1 = nextState out2 /\ hasMore out1 = hasMore out2.
Proof.
  intros (m1 & ? & q1 & _ & Hq1 & Hn1 & Hh1 & _)%runSync_completed
         (m2 & ? & q2 & _ & Hq2 & Hn2 & Hh2 & _)%runSync_completed.
  rewrite Hq1 in Hq2. injection Hq2 as <-. by rewrite Hn1, Hn2, Hh1, Hh2.
Qed.

Lemma runSync_next_state_independent_witness :
  exists out1 out2,
    (runSync (sample_client sample_schema five_full_pages) lenient_sql
             sample_options (Some watermark_state) ready).1 = Ok out1
    /\ (runSync (sample_client sample_schema five_full_pages) picky_sql
                sample_options (Some watermark_state) init).1 = Ok out2
    /\ processedCount (result out1) = 5%nat
    /\ processedCount (result out2) = 0%nat
    /\ nextState out1 = nextState out2.
Proof.
  eexists _, _.
  split; [vm_compute; reflexivity|]. split; [vm_compute; reflexivity|].
  split; [reflexivity|]. split; [reflexivity|].
  refine (proj1 (runSync_next_state_independent
                   (sample_client sample_schema five_full_pages) sample_options
                   (Some watermark_state) lenient_sql picky_sql ready init
                   _ _ _ _)); vm_compute; reflexivity.
Defined.

(** X14.  The state a completed invocation returns drives the query of the
    next one.  When Notion announced more with a non-empty cursor, the next
    query continues from that cursor and carries no filter, whether or not
    the cycle started from a watermark.  Otherwise the state holds the time
    of the last record, and the next query asks, without cursor, for the
    pages edited after it (for everything when that time is empty). *)
Theorem runSync_resume notion sql options state s out st' :
  (runSync notion sql options state s).1 = Ok out ->
  nextState out = Some st' ->
  exists q,
    databases_query notion (queryParamsOf options state) = Ok q
    /\ if has_more q && present (next_cursor q)
       then exists c, next_cursor q = Some c
                      /\ queryParamsOf options (Some st') = continue_from options c
       else exists p t,
              last (results q) = Some p
              /\ page_last_edited_time p = Some t
              /\ queryParamsOf options (Some st')
                 = if jstring_eqb t [] then full_fetch options
                   else changed_since options t.
Proof.
  intros (m & s1 & q & _ & Hq & Hn & _)%runSync_completed Hst.
  exists q. split; [done|]. rewrite Hn in Hst. unfold nextStateOf in Hst.
  destruct (has_more q && present (next_cursor q)) eqn:Hmore.
  - injection Hst as <-. apply andb_true_iff in Hmore as [_ Hc].
    destruct (next_cursor q) as [c|] eqn:Ec; [|done]. exists c. split; [done|].
    unfold queryParamsOf. cbn [mbind option_bind cursor]. by rewrite Hc.
  - destruct (last (results q)) as [p|]; [|done].
    destruct (page_last_edited_time p) as [t|] eqn:Et; [|done].
    injection Hst as <-. exists p, t. split; [done|]. split; [done|].
    unfold queryParamsOf. cbn [mbind option_bind cursor lastSyncTime present].
    by destruct (jstring_eqb t []).
Qed.

Lemma runSync_resume_witness :
  queryParamsOf sample_options
    (Some {| lastSyncTime := Some (js "2024-05-01T10:00:00.000Z");
             cursor := Some (js "cursor-2") |})
  = continue_from sample_options (js "cursor-2").
Proof.
  destruct (runSync_resume (sample_client sample_schema first_of_two) lenient_sql
              sample_options (Some watermark_state) ready
              {| result := {| processedCount := 1; errorCount := 0; errors := [] |};
                 nextState := Some {| lastSyncTime := Some (js "2024-05-01T10:00:00.000Z");
                                      cursor := Some (js "cursor-2") |};
                 hasMore := true |}
              {| lastSyncTime := Some (js "2024-05-01T10:00:00.000Z");
                 cursor := Some (js "cursor-2") |})
    as (q & Hq & Hnext).
  - vm_compute. reflexivity.
  - reflexivity.
  - injection Hq as <-. destruct Hnext as (c & [= <-] & Hp). exact Hp.
Defined.

Lemma page_synced_or_error notion sql t m db p :
  ((if page_synced notion sql t m db p then 1 else 0)
   + length (option_list (page_error notion sql t m db p))
   = (if has_properties p then 1 else 0))%nat.
Proof.
  unfold page_synced, page_error, has_properties.
  destruct (page_properties p) as [pageProps|]; [|done].
  by destruct (page_outcome _ _ _ _ _ _ _ _).1.
Qed.

Lemma pages_synced_or_error notion sql t m db pages :
  (length (List.filter (page_synced notion sql t m db) pages)
   + length (omap (page_error notion sql t m db) pages)
   = length (List.filter has_properties pages))%nat.
Proof.
  induction pages as [|p pages IH]; [done|].
  pose proof (page_synced_or_error notion sql t m db p) as Hp.
  cbn [List.filter omap list_omap].
  destruct (page_synced notion sql t m db p), (page_error notion sql t m db p),
    (has_properties p); cbn [length option_list] in *;
    unfold option_list, option_rect in Hp; cbn [length] in Hp; lia.
Qed.

(** X15.  In a completed invocation every record that comes with its
    properties is counted once, as processed or as an error, and a record
    without properties is counted nowhere: the two counters add up to the
    number of records with properties.  There is one error message per
    counted error, and each message starts with the identifier of a record
    of the batch that has properties. *)
Theorem runSync_counts_full_pages notion sql options state s out :
  (runSync notion sql options state s).1 = Ok out ->
  exists q,
    databases_query notion (queryParamsOf options state) = Ok q
    /\ (processedCount (result out) + errorCount (result out)
        = length (List.filter has_properties (results q)))%nat
    /\ length (errors (result out)) = errorCount (result out)
    /\ forall msg, msg ∈ errors (result out) ->
         exists p e, p ∈ results q /\ has_properties p = true
                     /\ msg = js "Page " ++ page_id p ++ js ": " ++ render_exn e.
Proof.
  intros (m & s1 & q & _ & Hq & _ & _ & Hp & Hm & He)%runSync_completed.
  exists q. split; [done|]. split; [|split; [done|]].
  - rewrite He, Hp, Hm. apply pages_synced_or_error.
  - intros msg Hmsg. rewrite Hm in Hmsg.
    apply list_elem_of_omap in Hmsg as (p & Hin & Herr).
    unfold page_error in Herr. unfold has_properties.
    destruct (page_properties p) as [pageProps|] eqn:Eprops; [|done].
    destruct (page_outcome _ _ _ _ _ _ _ _).1 as [|e]; [done|].
    injection Herr as <-. exists p, e. by rewrite Eprops.
Qed.

Lemma runSync_counts_full_pages_witness :
  exists out,
    (runSync (sample_client sample_schema last_is_partial) lenient_sql
             sample_options None init).1 = Ok out
    /\ (processedCount (result out) + errorCount (result out) = 1)%nat.
Proof.
  eexists. split; [vm_compute; reflexivity|].
  destruct (runSync_counts_full_pages
              (sample_client sample_schema last_is_partial) lenient_sql
              sample_options None init
              {| result := {| processedCount := 1; errorCount := 0; errors := [] |};
                 nextState := None; hasMore := false |})
    as (q & Hq & Hsum & _).
  - vm_compute. reflexivity.
  - reflexivity.
Defined.

Lemma emits_after_first {A} (P : Event -> Prop) (e : Event) (k : unit -> M A) s :
  (forall u, emits P (k u)) ->
  exists tr, trace (bind (emit e) k s).2 = trace s ++ e :: tr /\ Forall P tr.
Proof.
  intros Hk. unfold bind, emit.
  destruct (Hk tt {| tables := tables s; trace := trace s ++ [e] |})
    as (tr & Htr & HP).
  exists tr. rewrite Htr. cbn [trace]. by rewrite <- app_assoc.
Qed.

Lemma emits_schema_loop P props acc :
  (forall lvl scope msg, P (EvLog lvl scope msg)) ->
  emits P (for_of props acc schema_entry).
Proof.
  intros HP. apply emits_for_of. intros a [n tag] _. unfold schema_entry.
  destruct (property_type_of tag); [apply emits_ret|].
  apply emits_bind; [apply emits_log, HP|]. intros _. apply emits_ret.
Qed.

(** X16.  Every invocation starts by retrieving the database, once; it
    queries the database at most once, after the schema work and with the
    parameters derived from the carried state, and an invocation that
    completes has queried exactly once.  Nothing else it does is a call for
    the database: the rest is log lines, statements and conversions. *)
Theorem runSync_remote_calls notion sql options state s :
  exists tr1 tr2,
    trace (runSync notion sql options state s).2
    = trace s
      ++ [EvLog INFO sync_log
            (js "Starting sync for database: " ++ databaseId options
             ++ js ", table: " ++ getTableName (databaseId options));
          EvLog INFO schema_log
            (js "Fetching schema for database: " ++ databaseId options);
          EvRetrieve (databaseId options)]
      ++ tr1 ++ tr2
    /\ Forall local_event tr1
    /\ (tr2 = []
        \/ exists tr3, tr2 = EvQuery (queryParamsOf options state) :: tr3
                       /\ Forall local_event tr3)
    /\ (forall out, (runSync notion sql options state s).1 = Ok out -> tr2 <> []).
Proof.
  set (s0 := {| tables := tables s;
                trace := trace s
                  ++ [EvLog INFO sync_log
                        (js "Starting sync for database: " ++ databaseId options
                         ++ js ", table: " ++ getTableName (databaseId options));
                      EvLog INFO schema_log
                        (js "Fetching schema for database: " ++ databaseId options);
                      EvRetrieve (databaseId options)] |}).
  set (after_retrieve :=
    let* schemaMapping :=
      (let* db := lift (databases_retrieve notion (databaseId options)) in
       match db with
       | None => throw (Error (js "Unable to retrieve database properties"))
       | Some props =>
           let* mapping := for_of props [] schema_entry in
           let* _ := log INFO schema_log
                         (js "Found " ++ nat_str (length (obj_keys mapping))
                          ++ js " supported properties") in
           ret mapping
       end) in
    let* _ :=
      match state with
      | None =>
          let* schemaResult := syncSchema sql (getTableName (databaseId options))
                                          schemaMapping in
          if created schemaResult then log INFO sync_log (js "Created new table")
          else if (0 <? length (columnsAdded schemaResult))%nat then
            log INFO sync_log
                (js "Added columns: " ++ join (js ", ") (columnsAdded schemaResult))
          else ret tt
      | Some _ => ret tt
      end in
    ret schemaMapping).
  assert (Hprep : prepareSchema notion sql options state s = after_retrieve s0).
  { unfold prepareSchema, fetchNotionSchema, after_retrieve, s0.
    unfold bind at 1. unfold log at 1, emit at 1. cbn [tables trace].
    unfold bind at 1. unfold bind at 1. unfold log at 1, emit at 1.
    cbn [tables trace]. unfold bind at 1. unfold emit at 1. cbn [tables trace].
    unfold bind at 5. unfold bind at 4. rewrite <- !app_assoc. reflexivity. }
  assert (Hafter : emits local_event after_retrieve).
  { unfold after_retrieve. apply emits_bind.
    - apply emits_bind; [apply emits_lift|].
      intros [props|]; [|apply emits_throw].
      apply emits_bind; [by apply emits_schema_loop|]. intros m.
      apply emits_bind; [by apply emits_log|]. intros _. apply emits_ret.
    - intros m. apply emits_bind; [|intros _; apply emits_ret].
      destruct state; [apply emits_ret|].
      apply emits_bind; [by apply emits_syncSchema|]. intros r.
      destruct (created r); [by apply emits_log|].
      destruct (_ <? _)%nat; [by apply emits_log|apply emits_ret]. }
  unfold runSync, bind. rewrite Hprep.
  destruct (Hafter s0) as (tr1 & Htr1 & HP1).
  destruct (after_retrieve s0) as [[m|e] s1]; cbn [snd] in Htr1.
  - assert (Hrest : forall u : unit, emits local_event
              (let* queryResult := lift (databases_query notion
                                           (queryParamsOf options state)) in
               let* _ := log INFO sync_log
                             (js "Queried " ++ nat_str (length (results queryResult))
                              ++ js " pages") in
               let* result :=
                 for_of (results queryResult)
                        {| processedCount := 0; errorCount := 0; errors := [] |}
                        (processPage notion sql (getTableName (databaseId options)) m
                                     (List.map columnName (obj_values m))) in
               let* _ := log INFO sync_log
                             (js "Sync batch complete: "
                              ++ nat_str (processedCount result)
                              ++ js " processed, " ++ nat_str (errorCount result)
                              ++ js " errors, hasMore: "
                              ++ bool_str (has_more queryResult)) in
               ret {| result := result;
                      nextState := nextStateOf state queryResult;
                      hasMore := has_more queryResult |})).
    { intros _. apply emits_bind; [apply emits_lift|]. intros q.
      apply emits_bind; [by apply emits_log|]. intros _.
      apply emits_bind.
      { apply emits_for_of. intros acc p _. by apply emits_processPage. }
      intros r. apply emits_bind; [by apply emits_log|]. intros _.
      apply emits_ret. }
    destruct (emits_after_first local_event (EvQuery (queryParamsOf options state))
                _ s1 Hrest) as (tr3 & Htr3 & HP3).
    exists tr1, (EvQuery (queryParamsOf options state) :: tr3).
    split; [|split; [done|split; [right; by exists tr3|done]]].
    unfold syncBatch. rewrite Htr3, Htr1. unfold s0. cbn [trace].
    by rewrite <- !app_assoc.
  - exists tr1, []. split; [|split; [done|split; [by left|done]]].
    cbn [snd]. rewrite Htr1. unfold s0. cbn [trace].
    by rewrite app_nil_r, <- !app_assoc.
Qed.

Lemma prepareSchema_resumed_tables notion sql options st :
  keeps eq (prepareSchema notion sql options (Some st)).
Proof.
  assert (Hr : forall db : gmap (list N) PgTable, db = db) by done.
  assert (Ht : forall a b c : gmap (list N) PgTable, a = b -> b = c -> a = c)
    by (intros; congruence).
  unfold prepareSchema.
  apply keeps_bind; [done|by apply keeps_log|]. intros _.
  apply keeps_bind; [done|by apply keeps_fetchNotionSchema|]. intros m.
  apply keeps_bind; [done|by apply keeps_ret|]. intros _. by apply keeps_ret.
Qed.

(** X17.  When the query of the database fails, the invocation fails, with
    the error of the query if the schema work had succeeded.  No record has
    been converted or written by then: the tables are those the schema work
    left (on a first run the table may have been created or have gained
    columns, and it stays so), and with a carried state no table has changed
    at all. *)
Theorem runSync_query_failure notion sql options state s e :
  databases_query notion (queryParamsOf options state) = Throw e ->
  exists e' s',
    runSync notion sql options state s = (Throw e', s')
    /\ grown_at (getTableName (databaseId options)) (tables s) (tables s')
    /\ (is_Some state -> tables s' = tables s)
    /\ (forall m s1, prepareSchema notion sql options state s = (Ok m, s1) ->
          e' = e
          /\ s' = {| tables := tables s1;
                     trace := trace s1 ++ [EvQuery (queryParamsOf options state)] |}).
Proof.
  intros Hq.
  pose proof (keeps_prepareSchema notion sql options state s) as Hgrown.
  assert (Hsame : is_Some state ->
                  tables (prepareSchema notion sql options state s).2 = tables s).
  { intros [st ->]. symmetry. apply prepareSchema_resumed_tables. }
  unfold runSync, bind.
  destruct (prepareSchema notion sql options state s) as [[m|e0] s1];
    cbn [snd] in *.
  - exists e. eexists. split.
    { unfold syncBatch, bind, emit, lift. rewrite Hq. reflexivity. }
    cbn [tables]. split; [done|]. split; [done|].
    by intros ? ? [= <- <-].
  - exists e0, s1. split; [done|]. split; [done|]. split; [done|]. done.
Qed.

Lemma runSync_query_failure_witness :
  exists s',
    runSync (unqueryable_client sample_schema) lenient_sql sample_options
            (Some watermark_state) ready
    = (Throw (JsError (js "APIResponseError") (js "Rate limited")), s')
    /\ tables s' = tables ready.
Proof.
  destruct (runSync_query_failure (unqueryable_client sample_schema) lenient_sql
              sample_options (Some watermark_state) ready
              (JsError (js "APIResponseError") (js "Rate limited")) eq_refl)
    as (e' & s' & Hrun & _ & Hsame & Hexact).
  exists s'. split; [|by apply Hsame].
  destruct (prepareSchema (unqueryable_client sample_schema) lenient_sql
              sample_options (Some watermark_state) ready) as [r s1] eqn:Hprep.
  assert (Hok : exists m, r = Ok m).
  { assert (H1 : r = (prepareSchema (unqueryable_client sample_schema) lenient_sql
                        sample_options (Some watermark_state) ready).1)
      by (by rewrite Hprep).
    rewrite H1. eexists. vm_compute. reflexivity. }
  destruct Hok as (m & ->). destruct (Hexact m s1 eq_refl) as [-> _]. exact Hrun.
Defined.

Lemma runSync_remote_calls_witness :
  exists tr1 tr3,
    trace (runSync (sample_client sample_schema last_is_full) lenient_sql
                   sample_options None init).2
    = [EvLog INFO sync_log
         (js "Starting sync for database: " ++ databaseId sample_options
          ++ js ", table: " ++ sample_table);
       EvLog INFO schema_log
         (js "Fetching schema for database: " ++ databaseId sample_options);
       EvRetrieve (databaseId sample_options)]
      ++ tr1 ++ EvQuery (full_fetch sample_options) :: tr3.
Proof.
  destruct (runSync_remote_calls (sample_client sample_schema last_is_full)
              lenient_sql sample_options None init)
    as (tr1 & tr2 & Htr & _ & [->|(tr3 & -> & _)] & Hne).
  - exfalso. eapply Hne; [vm_compute; reflexivity|reflexivity].
  - exists tr1, tr3. exact Htr.
Defined.

(** * The worker process *)

Lemma parseEnv_data rt pe data :
  parseEnv rt pe = Ok data ->
  envSchema_parse pe = Some data.
Proof. unfold parseEnv. by destruct (envSchema_parse pe) as [d|]; intros [= ->]. Qed.

Lemma envSchema_parse_id pe data :
  envSchema_parse pe = Some data ->
  var_NOTION_DATABASE_ID pe = Some (NOTION_DATABASE_ID data)
  /\ uuid_format (NOTION_DATABASE_ID data) = true.
Proof.
  unfold envSchema_parse.
  destruct (var_NOTION_API_TOKEN pe) as [token|]; [|done].
  destruct (var_NOTION_DATABASE_ID pe) as [id|]; [|done].
  destruct (var_NEON_DATABASE_URL pe) as [url|]; [|done].
  destruct (_ && _) eqn:Hok; [|done]. intros [= <-]. cbn [NOTION_DATABASE_ID].
  split; [done|].
  apply andb_true_iff in Hok as [Hok _]. apply andb_true_iff in Hok as [Hok _].
  apply andb_true_iff in Hok as [_ Hok]. by apply andb_true_iff in Hok as [_ Hok].
Qed.

(** X18.  The database id of an environment that passes validation yields a
    table name of exactly 27 code units: "notion_" and twenty code units
    that are hexadecimal digits or underscores.  So the name holds no
    double quote (it is interpolated between double quotes in every
    statement) and is shorter than the 63 bytes Postgres keeps of an
    identifier. *)
Theorem validated_table_name rt pe data :
  parseEnv rt pe = Ok data ->
  length (getTableName (NOTION_DATABASE_ID data)) = 27%nat
  /\ forallb is_hex_or_underscore (skipn 7 (getTableName (NOTION_DATABASE_ID data)))
     = true
  /\ (34 ∉ getTableName (NOTION_DATABASE_ID data)).
Proof.
  intros [_ Hid]%parseEnv_data%envSchema_parse_id.
  unfold uuid_format in Hid.
  apply andb_true_iff in Hid as [Hlen Hhex].
  apply andb_true_iff in Hlen as [Hmin%Nat.leb_le _].
  set (id := NOTION_DATABASE_ID data) in *.
  assert (Hchars : forallb is_hex_or_underscore
                     (firstn 20 (List.map (fun c => if c =? 45 then u_us else c) id))
                   = true).
  { apply forallb_forall. intros c Hc%list_elem_of_In%subseteq_take%list_elem_of_In.
    apply in_map_iff in Hc as (c0 & Hc & Hc0).
    rewrite forallb_forall in Hhex. specialize (Hhex c0 Hc0).
    unfold is_hex_or_hyphen in Hhex. unfold is_hex_or_underscore.
    destruct (N.eqb_spec c0 45) as [Heq|Hne]; subst c; [done|].
    rewrite orb_false_r in Hhex. by rewrite Hhex. }
  unfold getTableName. change (js "notion_") with [110; 111; 116; 105; 111; 110; 95].
  split; [|split].
  - cbn [length app]. rewrite length_firstn, length_map. lia.
  - cbn [skipn app]. exact Hchars.
  - cbn [app]. intros Hin.
    repeat (apply elem_of_cons in Hin as [Hin|Hin]; [done|]).
    rewrite forallb_forall in Hchars.
    apply list_elem_of_In, Hchars in Hin. done.
Qed.

Lemma validated_table_name_witness :
  length (getTableName (js "8a1b2c3d-4e5f-6a7b-8c9d-0e1f2a3b4c5d")) = 27%nat.
Proof.
  apply (validated_table_name sample_runtime sample_env
           {| NOTION_API_TOKEN := js "secret_abc";
              NOTION_DATABASE_ID := js "8a1b2c3d-4e5f-6a7b-8c9d-0e1f2a3b4c5d";
              NEON_DATABASE_URL := js "postgresql://user:pw@host.neon.tech/db";
              LOG_LEVEL := js "INFO" |}).
  reflexivity.
Defined.

Lemma wbind_ok {A B} (m : W A) (k : A -> W B) w a w' :
  m w = (Ok a, w') -> wbind m k w = k a w'.
Proof. intros H. unfold wbind. by rewrite H. Qed.

Lemma wbind_throw {A B} (m : W A) (k : A -> W B) w e w' :
  m w = (Throw e, w') -> wbind m k w = (Throw e, w').
Proof. intros H. unfold wbind. by rewrite H. Qed.

Lemma in_store_run {A} (m : M A) w r s :
  m (store w) = (r, s) -> in_store m w = (r, {| proc := proc w; store := s |}).
Proof. intros H. unfold in_store. by rewrite H. Qed.

Lemma getSqlClient_ready rt w c :
  sqlClient (proc w) = Some c -> getSqlClient rt w = (Ok c, w).
Proof. intros H. unfold getSqlClient. by rewrite H. Qed.

Lemma env_get_ready {A} rt (prop : Env -> A) w data :
  cachedEnv (proc w) = Some data -> env_get rt prop w = (Ok (prop data), w).
Proof. intros H. unfold env_get. by rewrite H. Qed.

(** The first use of the client by a process that has validated nothing
    yet. *)
Lemma getSqlClient_fresh rt pe s :
  getSqlClient rt {| proc := fresh_proc pe; store := s |}
  = match parseEnv rt pe with
    | Ok data =>
        match neon rt (NEON_DATABASE_URL data) with
        | Ok c =>
            (Ok c,
             {| proc := {| process_env := pe; cachedEnv := Some data;
                           sqlClient := Some c |};
                store := {| tables := tables s;
                            trace := trace s
                              ++ [EvLog INFO client_log
                                    (js "Initializing Neon database connection")] |} |})
        | Throw e =>
            (Throw e,
             {| proc := {| process_env := pe; cachedEnv := Some data;
                           sqlClient := None |};
                store := {| tables := tables s;
                            trace := trace s
                              ++ [EvLog INFO client_log
                                    (js "Initializing Neon database connection")] |} |})
        end
    | Throw e =>
        (Throw e,
         {| proc := fresh_proc pe;
            store := {| tables := tables s;
                        trace := trace s
                          ++ [EvLog INFO client_log
                                (js "Initializing Neon database connection")] |} |})
    end.
Proof.
  unfold getSqlClient, fresh_proc. cbn [proc sqlClient].
  unfold wbind at 1, in_store at 1, log, emit. cbn [proc store tables trace].
  unfold wbind at 1, env_get. cbn [proc cachedEnv process_env sqlClient store].
  destruct (parseEnv rt pe) as [data|e]; [|done].
  unfold wbind at 1, in_store at 1, lift. cbn [proc store].
  destruct (neon rt (NEON_DATABASE_URL data)) as [c|e]; [|done].
  reflexivity.
Qed.

Lemma getSqlClient_ok rt w c w' :
  getSqlClient rt w = (Ok c, w') ->
  sqlClient (proc w') = Some c
  /\ (is_Some (cachedEnv (proc w)) -> cachedEnv (proc w') = cachedEnv (proc w))
  /\ tables (store w') = tables (store w).
Proof.
  unfold getSqlClient. destruct (sqlClient (proc w)) as [c0|] eqn:Hc.
  { intros [= <- <-]. done. }
  unfold wbind at 1, in_store at 1, log, emit. cbn [proc store tables trace].
  unfold wbind at 1, env_get. cbn [proc store].
  destruct (cachedEnv (proc w)) as [data|] eqn:Hdata.
  - unfold wbind at 1, in_store at 1, lift. cbn [proc store].
    destruct (neon rt (NEON_DATABASE_URL data)) as [c1|e]; [|done].
    unfold wbind, set_sqlClient, wret. cbn [proc store cachedEnv].
    intros [= <- <-]. cbn [proc store sqlClient cachedEnv tables]. done.
  - destruct (parseEnv rt (process_env (proc w))) as [data|e]; [|done].
    unfold wbind at 1, in_store at 1, lift. cbn [proc store].
    destruct (neon rt (NEON_DATABASE_URL data)) as [c1|e]; [|done].
    unfold wbind, set_sqlClient, wret. cbn [proc store cachedEnv].
    intros [= <- <-]. cbn [proc store sqlClient cachedEnv tables].
    split; [done|]. split; [|done]. by intros [? [=]].
Qed.

Lemma env_get_ok {A} rt (prop : Env -> A) w v w' :
  env_get rt prop w = (Ok v, w') ->
  exists data,
    cachedEnv (proc w') = Some data /\ v = prop data
    /\ sqlClient (proc w') = sqlClient (proc w)
    /\ store w' = store w
    /\ (cachedEnv (proc w) = None -> parseEnv rt (process_env (proc w)) = Ok data).
Proof.
  unfold env_get. destruct (cachedEnv (proc w)) as [data|] eqn:Hdata.
  - intros [= <- <-]. by exists data.
  - destruct (parseEnv rt (process_env (proc w))) as [data|e]; [|done].
    intros [= <- <-]. by exists data.
Qed.

Lemma in_store_ok {A} (m : M A) w r w' :
  in_store m w = (r, w') -> proc w' = proc w /\ m (store w) = (r, store w').
Proof.
  unfold in_store. destruct (m (store w)) as [r0 s0]. by intros [= <- <-].
Qed.

(** X19.  The tool [syncSchema] never rejects: whatever the environment,
    the driver, Notion and Postgres do, it resolves to a string.  Either
    something raised, and the string is "Schema sync failed: " followed by
    the error, which is also the last thing logged, as an error; or the
    environment is validated, the client is initialised, the schema was
    fetched and reconciled on the table of the validated database id, and
    the string reports that reconciliation. *)
Theorem syncSchemaTool_never_rejects rt notion w :
  exists msg w',
    syncSchemaTool rt notion w = (Ok msg, w')
    /\ ((exists e, msg = js "Schema sync failed: " ++ render_exn e
                   /\ last (trace (store w')) = Some (EvLog ERROR worker_log msg))
        \/ (exists data sql m r s0 s1,
              cachedEnv (proc w') = Some data
              /\ sqlClient (proc w') = Some sql
              /\ fetchNotionSchema notion (NOTION_DATABASE_ID data) s0 = (Ok m, s1)
              /\ syncSchema sql (getTableName (NOTION_DATABASE_ID data)) m s1
                 = (Ok r, store w')
              /\ msg = schema_message (getTableName (NOTION_DATABASE_ID data))
                                      (length (obj_keys m)) r)).
Proof.
  unfold syncSchemaTool. unfold wbind at 1, in_store at 1, log at 1, emit at 1.
  cbn [proc store]. unfold wtry.
  match goal with |- context [match ?body ?w0 with _ => _ end] =>
    destruct (body w0) as [[msg|e] w1] eqn:Hbody end.
  - exists msg, w1. split; [done|]. right.
    unfold wbind at 1 in Hbody.
    match type of Hbody with context [getSqlClient rt ?w0] =>
      destruct (getSqlClient rt w0) as [[sql|e] wa] eqn:Hsql; [|done] end.
    apply getSqlClient_ok in Hsql as (Hsql & _ & _).
    unfold wbind at 1 in Hbody.
    destruct (env_get rt NOTION_DATABASE_ID wa) as [[id|e] wb] eqn:Hid; [|done].
    apply env_get_ok in Hid as (data & Hdata & -> & Hsqlb & Hstoreb & _).
    unfold wbind at 1 in Hbody.
    destruct (in_store (fetchNotionSchema notion (NOTION_DATABASE_ID data)) wb)
      as [[m|e] wc] eqn:Hfetch; [|done].
    apply in_store_ok in Hfetch as (Hprocc & Hfetch).
    unfold wbind at 1 in Hbody.
    destruct (in_store (syncSchema sql (getTableName (NOTION_DATABASE_ID data)) m) wc)
      as [[r|e] wd] eqn:Hsync; [|done].
    apply in_store_ok in Hsync as (Hprocd & Hsync).
    unfold wret in Hbody. injection Hbody as <- <-.
    exists data, sql, m, r, (store wb), (store wc).
    rewrite Hprocd, Hprocc. rewrite Hsqlb. done.
  - eexists _, _. split.
    { unfold wbind, in_store, log, emit, wret. reflexivity. }
    left. exists e. split; [done|]. cbn [store trace]. by rewrite last_snoc.
Qed.

(** X20.  In a process whose environment does not pass validation, both
    entry points fail before they reach Notion or Postgres: the tool
    resolves to "Schema sync failed: Error: Environment validation
    failed:..." and the sync rejects with that error, each after logging
    its start, the initialisation of the connection and the failure.
    Nothing is cached: the client stays unset and the next invocation
    validates the environment again. *)
Theorem worker_invalid_environment rt pe s notion state :
  envSchema_parse pe = None ->
  let w := {| proc := fresh_proc pe; store := s |} in
  let e := Error (js "Environment validation failed:" ++ [10] ++ zod_issues rt pe) in
  let after (start failure : jstring) :=
    {| proc := fresh_proc pe;
       store := {| tables := tables s;
                   trace := trace s
                     ++ [EvLog INFO worker_log start;
                         EvLog INFO client_log
                           (js "Initializing Neon database connection");
                         EvLog ERROR worker_log (failure ++ render_exn e)] |} |} in
  syncSchemaTool rt notion w
  = (Ok (js "Schema sync failed: " ++ render_exn e),
     after (js "Executing syncSchema tool") (js "Schema sync failed: "))
  /\ notionPostgresSync rt state notion w
     = (Throw e, after (js "Executing notionPostgresSync") (js "Sync failed: ")).
Proof.
  intros Hbad w e after. subst w e after.
  assert (Hparse : parseEnv rt pe
                   = Throw (Error (js "Environment validation failed:" ++ [10]
                                   ++ zod_issues rt pe))).
  { unfold parseEnv. by rewrite Hbad. }
  split.
  - unfold syncSchemaTool. unfold wbind at 1, in_store at 1, log at 1, emit at 1.
    cbn [proc store tables trace]. unfold wtry. unfold wbind at 1.
    rewrite getSqlClient_fresh, Hparse. cbn [tables trace].
    unfold wbind, in_store, log, emit, wret. cbn [proc store tables trace].
    by rewrite <- !app_assoc.
  - unfold notionPostgresSync. unfold wbind at 1, in_store at 1, log at 1, emit at 1.
    cbn [proc store tables trace]. unfold wtry. unfold wbind at 1.
    rewrite getSqlClient_fresh, Hparse. cbn [tables trace].
    unfold wbind, in_store, log, emit, wthrow. cbn [proc store tables trace].
    by rewrite <- !app_assoc.
Qed.

Lemma worker_invalid_environment_witness :
  (syncSchemaTool sample_runtime (sample_client sample_schema nothing_more)
                  {| proc := fresh_proc invalid_env; store := init |}).1
  = Ok (js "Schema sync failed: Error: Environment validation failed:" ++ [10]
        ++ js "  - NOTION_DATABASE_ID: NOTION_DATABASE_ID must be a valid UUID format").
Proof.
  rewrite (proj1 (worker_invalid_environment sample_runtime invalid_env init
                    (sample_client sample_schema nothing_more) None eq_refl)).
  reflexivity.
Defined.

Lemma created_columns_known schema pm :
  pm ∈ obj_values schema ->
  pg_ident (columnName pm) = columnName pm ->
  has_column (columnName pm) (List.map column_of_def (create_defs schema)) = true.
Proof.
  intros Hpm Hfit. rewrite <- Hfit. apply (has_column_defs (def_of_property pm)).
  unfold create_defs. apply elem_of_app. right.
  apply list_elem_of_In, in_map. by apply list_elem_of_In.
Qed.

Lemma outcome_inj {A B} (a a' : A) (w w' : B) :
  (Ok a, w) = (Ok a', w') -> a = a' /\ w = w'.
Proof. by intros [= -> ->]. Qed.

(** Only a report of creation gives the answer "Created new table". *)
Lemma schema_message_created t n r tail :
  schema_message t n r = js "Created new table " ++ tail -> created r = true.
Proof.
  unfold schema_message. destruct (created r); [done|].
  destruct (0 <? length (columnsAdded r))%nat; intros E;
    apply (f_equal (fun l => List.hd 0%N l)) in E; vm_compute in E; discriminate.
Qed.

Lemma failure_not_created text tail :
  js "Schema sync failed: " ++ text <> js "Created new table " ++ tail.
Proof.
  intros E. apply (f_equal (fun l => List.hd 0%N l)) in E. vm_compute in E.
  discriminate.
Qed.

(** X21.  In a fresh process with a valid environment, for a database with
    properties of distinct names whose column names the engine keeps whole
    (63 bytes at most): when the tool answers "Created new table ... with n
    columns from Notion schema." (n the number of supported properties),
    the table did not exist and now exists, empty, with three columns more
    than n; run again, the tool keeps the validated environment and the
    client, changes no table and answers "Schema is up to date for table
    ... (n columns).". *)
Theorem syncSchemaTool_twice rt pe s notion data sql props w1 :
  parseEnv rt pe = Ok data ->
  neon rt (NEON_DATABASE_URL data) = Ok sql ->
  databases_retrieve notion (NOTION_DATABASE_ID data) = Ok (Some props) ->
  NoDup props.*1 ->
  (forall pm, pm ∈ obj_values (supported_entries props) ->
     pg_ident (columnName pm) = columnName pm) ->
  let t := getTableName (NOTION_DATABASE_ID data) in
  let n := nat_str (length (supported_entries props)) in
  syncSchemaTool rt notion {| proc := fresh_proc pe; store := s |}
  = (Ok (js "Created new table " ++ [34] ++ t ++ [34] ++ js " with " ++ n
         ++ js " columns from Notion schema."), w1) ->
  tables s !! t = None
  /\ tables (store w1)
     = <[t := {| pg_columns :=
                   List.map column_of_def (create_defs (supported_entries props));
                 pg_rows := ∅ |}]> (tables s)
  /\ exists w2,
       syncSchemaTool rt notion w1
       = (Ok (js "Schema is up to date for table " ++ [34] ++ t ++ [34]
              ++ js " (" ++ n ++ js " columns)."), w2)
       /\ tables (store w2) = tables (store w1)
       /\ proc w2 = proc w1.
Proof.
  intros Hparse Hneon Hret Hnd Hfit t n Hfirst.
  (* first run *)
  pose proof (getSqlClient_fresh rt pe) as Hfresh. rewrite Hparse, Hneon in Hfresh.
  unfold syncSchemaTool in Hfirst.
  unfold wbind at 1, in_store at 1, log at 1, emit at 1 in Hfirst.
  cbn [proc store tables trace] in Hfirst. unfold wtry in Hfirst.
  unfold wbind at 1 in Hfirst. rewrite Hfresh in Hfirst. unfold wbind at 1 in Hfirst.
  erewrite env_get_ready in Hfirst by reflexivity.
  unfold wbind at 1 in Hfirst. erewrite in_store_run in Hfirst.
  2: { apply (fetchNotionSchema_run _ _ props); [exact Hret|exact Hnd]. }
  cbn [proc store] in Hfirst. unfold wbind at 1, in_store at 1 in Hfirst.
  cbn [proc store] in Hfirst. fold t in Hfirst.
  match type of Hfirst with context [syncSchema sql t ?m ?s0] =>
    destruct (syncSchema sql t m s0) as [[r|e] s1] eqn:Hsync end.
  2: { unfold in_store, log, emit, wbind, wret in Hfirst. cbn [store proc] in Hfirst.
       apply outcome_inj in Hfirst as [Hmsg _]. by apply failure_not_created in Hmsg. }
  unfold wret in Hfirst. apply outcome_inj in Hfirst as [Hmsg <-].
  apply schema_message_created in Hmsg. cbn [store proc].
  cbn [tables trace] in Hsync.
  destruct (tables s !! t) as [tbl|] eqn:Habsent.
  { eapply syncSchema_existing in Hsync; [|cbn [tables]; exact Habsent].
    destruct Hsync as (? & ? & _ & _ & Hc & _). congruence. }
  assert (Hs1 : tables s1
                = <[t := {| pg_columns :=
                              List.map column_of_def
                                       (create_defs (supported_entries props));
                            pg_rows := ∅ |}]> (tables s)).
  { destruct (creatable (create_defs (supported_entries props))) eqn:Hok.
    - rewrite syncSchema_create_run in Hsync by done.
      apply outcome_inj in Hsync as [_ <-]. done.
    - match type of Hsync with syncSchema _ _ _ ?s0 = _ =>
        destruct (syncSchema_create_refused sql t (supported_entries props) s0
                    Habsent Hok) as (e & He) end.
      by rewrite He in Hsync. }
  split; [done|]. split; [exact Hs1|].
  (* second run *)
  unfold syncSchemaTool. unfold wbind at 1, in_store at 1, log at 1, emit at 1.
  cbn [proc store tables trace]. unfold wtry. unfold wbind at 1.
  erewrite getSqlClient_ready by reflexivity. unfold wbind at 1.
  erewrite env_get_ready by reflexivity.
  unfold wbind at 1. erewrite in_store_run.
  2: { apply (fetchNotionSchema_run _ _ props); [exact Hret|exact Hnd]. }
  cbn [proc store tables trace]. unfold wbind at 1.
  match goal with |- context [in_store (syncSchema sql ?t0 ?m) ?w0] =>
    destruct (syncSchema_up_to_date sql t0 m (store w0)
                {| pg_columns := List.map column_of_def (create_defs m);
                   pg_rows := ∅ |})
      as (s2 & Hsync2 & Htables);
    [ cbn [store tables]; rewrite Hs1; apply lookup_insert_eq
    | cbn [pg_columns]; intros pm Hpm; apply created_columns_known;
      [exact Hpm|by apply Hfit]
    | reflexivity | reflexivity | ]
  end.
  erewrite in_store_run by exact Hsync2.
  unfold wret. cbn [proc store]. unfold obj_keys. rewrite length_fmap.
  eexists. split; [reflexivity|]. split; [exact Htables|done].
Qed.

Lemma syncSchemaTool_twice_witness :
  exists w2,
    syncSchemaTool sample_runtime (sample_client sample_schema nothing_more)
      (syncSchemaTool sample_runtime (sample_client sample_schema nothing_more)
                      sample_world).2
    = (Ok (js "Schema is up to date for table " ++ [34]
           ++ js "notion_8a1b2c3d_4e5f_6a7b_8" ++ [34] ++ js " (2 columns)."), w2).
Proof.
  destruct (syncSchemaTool_twice sample_runtime sample_env init
              (sample_client sample_schema nothing_more)
              {| NOTION_API_TOKEN := js "secret_abc";
                 NOTION_DATABASE_ID := js "8a1b2c3d-4e5f-6a7b-8c9d-0e1f2a3b4c5d";
                 NEON_DATABASE_URL := js "postgresql://user:pw@host.neon.tech/db";
                 LOG_LEVEL := js "INFO" |}
              lenient_sql sample_schema
              (syncSchemaTool sample_runtime
                              (sample_client sample_schema nothing_more)
                              sample_world).2)
    as (_ & _ & w2 & H2 & _).
  - reflexivity.
  - reflexivity.
  - reflexivity.
  - apply (bool_decide_unpack _). vm_compute. reflexivity.
  - intros pm Hpm. vm_compute in Hpm.
    apply elem_of_cons in Hpm as [->|Hpm]; [reflexivity|].
    apply elem_of_cons in Hpm as [->|Hpm]; [reflexivity|].
    by apply elem_of_nil in Hpm.
  - vm_compute. reflexivity.
  - exists w2. exact H2.
Defined.

(** X22.  The sync [notionPostgresSync] adds nothing of its own to an
    invocation of [runSync]: when it resolves, its changes are empty and its
    [hasMore] and [nextState] are those of [runSync], run with the client of
    the process on the validated database id, without page size and with the
    state it was given, however many records failed; when anything raised,
    it rejects with that same error, after logging "Sync failed: " and the
    error as the last line. *)
Theorem notionPostgresSync_forwards rt state notion w :
  match notionPostgresSync rt state notion w with
  | (Ok out, w') =>
      changes out = []
      /\ exists data sql s0 ro s1,
           cachedEnv (proc w') = Some data
           /\ sqlClient (proc w') = Some sql
           /\ runSync notion sql
                      {| databaseId := NOTION_DATABASE_ID data; pageSize := None |}
                      state s0 = (Ok ro, s1)
           /\ tables s0 = tables (store w)
           /\ tables (store w') = tables s1
           /\ changes_hasMore out = hasMore ro
           /\ changes_nextState out = nextState ro
  | (Throw e, w') =>
      last (trace (store w'))
      = Some (EvLog ERROR worker_log (js "Sync failed: " ++ render_exn e))
  end.
Proof.
  unfold notionPostgresSync. unfold wbind at 1, in_store at 1, log at 1, emit at 1.
  cbn [proc store]. unfold wtry.
  match goal with |- context [match ?body ?w0 with _ => _ end] =>
    destruct (body w0) as [[out|e] w1] eqn:Hbody end.
  - unfold wbind at 1 in Hbody.
    match type of Hbody with context [getSqlClient rt ?w0] =>
      destruct (getSqlClient rt w0) as [[sql|e] wa] eqn:Hsql; [|done] end.
    apply getSqlClient_ok in Hsql as (Hsql & _ & Hta). cbn [store tables] in Hta.
    unfold wbind at 1 in Hbody.
    destruct (env_get rt NOTION_DATABASE_ID wa) as [[id|e] wb] eqn:Hid; [|done].
    apply env_get_ok in Hid as (data & Hdata & -> & Hsqlb & Hstoreb & _).
    unfold wbind at 1 in Hbody.
    match type of Hbody with context [in_store (runSync ?a ?b ?c ?d) wb] =>
      destruct (in_store (runSync a b c d) wb) as [[ro|e] wc] eqn:Hrun; [|done] end.
    apply in_store_ok in Hrun as (Hprocc & Hrun).
    unfold wbind at 1, in_store at 1, log at 1, emit at 1 in Hbody.
    cbn [proc store] in Hbody.
    assert (Hend : exists wd, w1 = wd /\ proc wd = proc wc
                              /\ tables (store wd) = tables (store wc)
                              /\ out = {| changes := [];
                                          changes_hasMore := hasMore ro;
                                          changes_nextState := nextState ro |}).
    { destruct (0 <? length (errors (result ro)))%nat;
        unfold wbind, in_store, log, emit, wret in Hbody; cbn [proc store] in Hbody;
        injection Hbody as <- <-; by eexists. }
    destruct Hend as (wd & -> & Hprocd & Htd & ->). cbn [changes].
    split; [done|]. exists data, sql, (store wb), ro, (store wc).
    split; [by rewrite Hprocd, Hprocc|].
    split; [by rewrite Hprocd, Hprocc, Hsqlb|].
    split; [exact Hrun|]. split; [by rewrite Hstoreb|]. done.
  - unfold wbind, in_store, log, emit, wthrow. cbn [proc store trace].
    by rewrite last_snoc.
Qed.

(** In a process that is ready, the entry points are actions on the store
    alone. *)
Lemma syncSchemaTool_ready rt notion w data sql :
  cachedEnv (proc w) = Some data -> sqlClient (proc w) = Some sql ->
  syncSchemaTool rt notion w
  = in_store
      (let* _ := log INFO worker_log (js "Executing syncSchema tool") in
       try_catch
         (let* m := fetchNotionSchema notion (NOTION_DATABASE_ID data) in
          let* r := syncSchema sql (getTableName (NOTION_DATABASE_ID data)) m in
          ret (schema_message (getTableName (NOTION_DATABASE_ID data))
                              (length (obj_keys m)) r))
         (fun error =>
            let* _ := log ERROR worker_log
                          (js "Schema sync failed: " ++ render_exn error) in
            ret (js "Schema sync failed: " ++ render_exn error))) w.
Proof.
  intros Hd Hc.
  unfold syncSchemaTool, wbind, wtry, in_store, wret, bind, try_catch, ret, log, emit.
  cbn [proc store].
  rewrite (getSqlClient_ready _ _ sql) by done.
  rewrite (env_get_ready _ _ _ data) by done. cbn [proc store].
  destruct (fetchNotionSchema notion (NOTION_DATABASE_ID data) _) as [[m|e] sa];
    [|done].
  cbn [proc store].
  by destruct (syncSchema sql _ m sa) as [[r|e] sb].
Qed.

Lemma notionPostgresSync_ready rt state notion w data sql :
  cachedEnv (proc w) = Some data -> sqlClient (proc w) = Some sql ->
  notionPostgresSync rt state notion w
  = in_store
      (let* _ := log INFO worker_log (js "Executing notionPostgresSync") in
       try_catch
         (let* out := runSync notion sql
                              {| databaseId := NOTION_DATABASE_ID data;
                                 pageSize := None |} state in
          let* _ := log INFO worker_log
                        (js "Sync result: " ++ nat_str (processedCount (result out))
                         ++ js " synced, " ++ nat_str (errorCount (result out))
                         ++ js " errors") in
          let* _ := if (0 <? length (errors (result out)))%nat
                    then log ERROR worker_log
                             (js "Errors: " ++ join (js "; ") (errors (result out)))
                    else ret tt in
          ret {| changes := [];
                 changes_hasMore := hasMore out;
                 changes_nextState := nextState out |})
         (fun error =>
            let* _ := log ERROR worker_log
                          (js "Sync failed: " ++ render_exn error) in
            throw error)) w.
Proof.
  intros Hd Hc.
  unfold notionPostgresSync, wbind, wtry, in_store, wret, wthrow, bind, try_catch,
    ret, throw, log, emit.
  cbn [proc store].
  rewrite (getSqlClient_ready _ _ sql) by done.
  rewrite (env_get_ready _ _ _ data) by done. cbn [proc store].
  destruct (runSync notion sql _ state _) as [[ro|e] sa]; [|done].
  cbn [proc store].
  by destruct (0 <? length (errors (result ro)))%nat.
Qed.

Lemma in_store_same {A} (m : M A) w1 w2 :
  store w1 = store w2 ->
  (in_store m w1).1 = (in_store m w2).1
  /\ store (in_store m w1).2 = store (in_store m w2).2
  /\ proc (in_store m w1).2 = proc w1.
Proof.
  intros H. unfold in_store. rewrite H. by destruct (m (store w2)).
Qed.

(** X23.  Once a process has validated its environment and initialised its
    client, its entry points never consult [process.env], zod or the driver
    again, and never change the two module variables: what the tool and the
    sync return, log and write depends on the validated environment, the
    client and the tables only. *)
Theorem worker_ready_ignores_environment rt1 rt2 notion state w1 w2 data sql :
  cachedEnv (proc w1) = Some data -> sqlClient (proc w1) = Some sql ->
  cachedEnv (proc w2) = Some data -> sqlClient (proc w2) = Some sql ->
  store w1 = store w2 ->
  ((syncSchemaTool rt1 notion w1).1 = (syncSchemaTool rt2 notion w2).1
   /\ store (syncSchemaTool rt1 notion w1).2 = store (syncSchemaTool rt2 notion w2).2
   /\ proc (syncSchemaTool rt1 notion w1).2 = proc w1)
  /\ ((notionPostgresSync rt1 state notion w1).1
      = (notionPostgresSync rt2 state notion w2).1
      /\ store (notionPostgresSync rt1 state notion w1).2
         = store (notionPostgresSync rt2 state notion w2).2
      /\ proc (notionPostgresSync rt1 state notion w1).2 = proc w1).
Proof.
  intros Hd1 Hc1 Hd2 Hc2 Hstore. split.
  - rewrite (syncSchemaTool_ready rt1 notion w1 data sql Hd1 Hc1),
            (syncSchemaTool_ready rt2 notion w2 data sql Hd2 Hc2).
    by apply in_store_same.
  - rewrite (notionPostgresSync_ready rt1 state notion w1 data sql Hd1 Hc1),
            (notionPostgresSync_ready rt2 state notion w2 data sql Hd2 Hc2).
    by apply in_store_same.
Qed.

Lemma worker_ready_ignores_environment_witness :
  (syncSchemaTool sample_runtime (sample_client sample_schema nothing_more)
     {| proc := {| process_env := invalid_env;
                   cachedEnv := envSchema_parse sample_env;
                   sqlClient := Some lenient_sql |};
        store := ready |}).1
  = Ok (js "Schema is up to date for table " ++ [34]
        ++ js "notion_8a1b2c3d_4e5f_6a7b_8" ++ [34] ++ js " (2 columns).").
Proof.
  rewrite (proj1 (proj1 (worker_ready_ignores_environment
                           sample_runtime sample_runtime
                           (sample_client sample_schema nothing_more) None
                           {| proc := {| process_env := invalid_env;
                                         cachedEnv := envSchema_parse sample_env;
                                         sqlClient := Some lenient_sql |};
                              store := ready |}
                           {| proc := {| process_env := sample_env;
                                         cachedEnv := envSchema_parse sample_env;
                                         sqlClient := Some lenient_sql |};
                              store := ready |}
                           {| NOTION_API_TOKEN := js "secret_abc";
                              NOTION_DATABASE_ID := js "8a1b2c3d-4e5f-6a7b-8c9d-0e1f2a3b4c5d";
                              NEON_DATABASE_URL := js "postgresql://user:pw@host.neon.tech/db";
                              LOG_LEVEL := js "INFO" |}
                           lenient_sql eq_refl eq_refl eq_refl eq_refl eq_refl))).
  vm_compute. reflexivity.
Defined.

(** * Block listing *)

Lemma listBlocks_unfold fuel api blockId cursor blocks s :
  listBlocks (S fuel) api blockId cursor blocks s
  = match api blockId cursor with
    | Throw e => Some (Throw e, s)
    | Ok response =>
        match eachBlock (fun id s => listBlocks fuel api id None [] s)
                        (list_results response) blocks s with
        | Some (Ok blocks, s') =>
            if present (if list_has_more response
                        then list_next_cursor response else None)
            then listBlocks fuel api blockId
                            (if list_has_more response
                             then list_next_cursor response else None) blocks s'
            else
              Some (Ok blocks,
                    {| tables := tables s';
                       trace := trace s'
                         ++ [EvLog INFO (js "page-reader")
                               (js "Retrieved " ++ nat_str (length blocks)
                                ++ js " blocks from: " ++ blockId)] |})
        | Some (Throw e, s') => Some (Throw e, s')
        | None => None
        end
    end.
Proof. reflexivity. Qed.

Lemma eachBlock_cons recur block rest blocks s :
  eachBlock recur (block :: rest) blocks s
  = if block_full block then
      if block_has_children block then
        match recur (block_id block) s with
        | Some (Ok children, s') =>
            eachBlock recur rest ((blocks ++ [block]) ++ children) s'
        | Some (Throw e, s') => Some (Throw e, s')
        | None => None
        end
      else eachBlock recur rest (blocks ++ [block]) s
    else eachBlock recur rest blocks s.
Proof. reflexivity. Qed.

Lemma listBlocks_complete api :
  (forall id c out, collected api id c out ->
     exists fuel, forall fuel', (fuel <= fuel')%nat -> forall acc s,
       exists s',
         listBlocks fuel' api id c acc s = Some (Ok (acc ++ out), s')
         /\ tables s' = tables s
         /\ last (trace s')
            = Some (EvLog INFO (js "page-reader")
                      (js "Retrieved " ++ nat_str (length (acc ++ out))
                       ++ js " blocks from: " ++ id)))
  /\ (forall rs out, expanded api rs out ->
        exists fuel, forall fuel', (fuel <= fuel')%nat -> forall acc s,
          exists s',
            eachBlock (fun id s => listBlocks fuel' api id None [] s) rs acc s
            = Some (Ok (acc ++ out), s')
            /\ tables s' = tables s).
Proof.
  apply collected_expanded_ind.
  - intros id c r out Hapi Hend _ (f1 & IH). exists (S f1).
    intros [|k] Hk acc s; [lia|]. rewrite listBlocks_unfold, Hapi.
    destruct (IH k ltac:(lia) acc s) as (s1 & -> & Ht). rewrite Hend.
    eexists. split; [reflexivity|]. cbn [tables trace]. split; [done|].
    by rewrite last_snoc.
  - intros id c r c' out1 out2 Hapi Hmore Hnext Hpresent _ (f1 & IH1) _ (f2 & IH2).
    exists (S (Nat.max f1 f2)). intros [|k] Hk acc s; [lia|].
    rewrite listBlocks_unfold, Hapi.
    destruct (IH1 k ltac:(lia) acc s) as (s1 & -> & Ht1).
    rewrite Hmore, Hnext, Hpresent.
    destruct (IH2 k ltac:(lia) (acc ++ out1) s1) as (s2 & -> & Ht2 & Hlast).
    exists s2. rewrite <- app_assoc in Hlast. rewrite <- app_assoc.
    split; [done|]. split; [congruence|done].
  - exists 0%nat. intros k _ acc s. exists s. cbn [eachBlock]. by rewrite app_nil_r.
  - intros b rest out Hfull _ (f & IH). exists f. intros k Hk acc s.
    rewrite eachBlock_cons, Hfull. by apply IH.
  - intros b rest out Hfull Hleaf _ (f & IH). exists f. intros k Hk acc s.
    rewrite eachBlock_cons, Hfull, Hleaf.
    destruct (IH k Hk (acc ++ [b]) s) as (s1 & -> & Ht). exists s1.
    by rewrite <- app_assoc.
  - intros b rest sub out Hfull Hnode _ (f1 & IH1) _ (f2 & IH2).
    exists (Nat.max f1 f2). intros k Hk acc s.
    rewrite eachBlock_cons, Hfull, Hnode.
    destruct (IH1 k ltac:(lia) [] s) as (s1 & -> & Ht1 & _). cbn [app].
    destruct (IH2 k ltac:(lia) ((acc ++ [b]) ++ sub) s1) as (s2 & -> & Ht2).
    exists s2. rewrite <- !app_assoc. cbn [app]. split; [done|congruence].
Qed.

(** X24.  When the blocks below a block can be collected (every listing
    answers, and the cursors and the nesting come to an end), [getAllBlocks]
    returns them once it is allowed enough calls, and the same with any
    larger allowance: the full blocks in document order, each followed by
    the blocks below it, whatever the paging; partial blocks and what lies
    below them are left out.  It changes no table, and its last log line
    gives their number. *)
Theorem getAllBlocks_collects api blockId out :
  collected api blockId None out ->
  exists fuel, forall fuel', (fuel <= fuel')%nat -> forall s,
    exists s',
      getAllBlocks fuel' api blockId s = Some (Ok out, s')
      /\ tables s' = tables s
      /\ last (trace s')
         = Some (EvLog INFO (js "page-reader")
                   (js "Retrieved " ++ nat_str (length out)
                    ++ js " blocks from: " ++ blockId)).
Proof.
  intros (fuel & H)%(proj1 (listBlocks_complete api)). exists fuel.
  intros fuel' Hle s. exact (H fuel' Hle [] s).
Qed.

Lemma getAllBlocks_collects_witness :
  exists s',
    getAllBlocks 4 sample_blocks (js "page") init
    = Some (Ok [heading; toggle; first_child; second_child], s').
Proof.
  destruct (getAllBlocks_collects sample_blocks (js "page")
              [heading; toggle; first_child; second_child])
    as (fuel & H).
  - eapply collected_last; [reflexivity|reflexivity|].
    apply expanded_leaf; [done..|]. apply expanded_partial; [done|].
    apply (expanded_node _ toggle [] [first_child; second_child] []);
      [done|done| |apply expanded_nil].
    eapply (collected_more _ _ _ _ (js "next") [first_child] [second_child]);
      [reflexivity|reflexivity|reflexivity|reflexivity| | ].
    + apply expanded_leaf; [done..|]. apply expanded_nil.
    + eapply collected_last; [reflexivity|reflexivity|].
      apply expanded_leaf; [done..|]. apply expanded_nil.
  - destruct (H (Nat.max fuel 4) ltac:(lia) init) as (s' & Hrun & _).
    eexists. vm_compute. reflexivity.
Defined.

Lemma eachBlock_sound api (recur : jstring -> State -> option (res (list Block) * State)) :
  (forall id s out s', recur id s = Some (Ok out, s') -> collected api id None out) ->
  forall rs acc s out s',
    eachBlock recur rs acc s = Some (Ok out, s') ->
    exists out', out = acc ++ out' /\ expanded api rs out'.
Proof.
  intros Hrecur. induction rs as [|b rest IH]; intros acc s out s' Hrun.
  - injection Hrun as <- <-. exists []. split; [by rewrite app_nil_r|constructor].
  - rewrite eachBlock_cons in Hrun.
    destruct (block_full b) eqn:Hfull.
    + destruct (block_has_children b) eqn:Hnode.
      * destruct (recur (block_id b) s) as [[[children|e] s1]|] eqn:Hsub; try done.
        apply IH in Hrun as (out' & -> & Hrest).
        exists (b :: children ++ out'). rewrite <- !app_assoc. split; [done|].
        apply expanded_node; eauto.
      * apply IH in Hrun as (out' & -> & Hrest).
        exists (b :: out'). rewrite <- app_assoc. split; [done|].
        by apply expanded_leaf.
    + apply IH in Hrun as (out' & -> & Hrest). exists out'. split; [done|].
      by apply expanded_partial.
Qed.

Lemma listBlocks_sound api fuel :
  forall id c acc s out s',
    listBlocks fuel api id c acc s = Some (Ok out, s') ->
    exists out', out = acc ++ out' /\ collected api id c out'.
Proof.
  induction fuel as [|k IH]; intros id c acc s out s' Hrun; [done|].
  rewrite listBlocks_unfold in Hrun.
  destruct (api id c) as [r|e] eqn:Hapi; [|done].
  destruct (eachBlock _ (list_results r) acc s) as [[[blocks|e] s1]|] eqn:Heach;
    try done.
  apply (eachBlock_sound api) in Heach as (out1 & -> & Hexp).
  2: { intros id' s0 out0 s0' H0. apply IH in H0 as (out' & -> & H0). exact H0. }
  destruct (present (if list_has_more r then list_next_cursor r else None)) eqn:Hp.
  - apply IH in Hrun as (out2 & -> & Hrest).
    exists (out1 ++ out2). rewrite app_assoc. split; [done|].
    destruct (list_has_more r) eqn:Hmore; [|done].
    destruct (list_next_cursor r) as [c'|] eqn:Hnext; [|done].
    by eapply collected_more.
  - injection Hrun as <- <-. exists out1. split; [done|].
    by eapply collected_last.
Qed.

(** X25.  Whatever [getAllBlocks] returns, with whatever allowance of
    calls, is the collection of the blocks below the block as the API
    serves them: the full blocks in document order, each followed by the
    blocks below it; no partial block and nothing below one is in it, and
    the listing of a level stopped only where the API announced no more or
    gave no cursor, or an empty one. *)
Theorem getAllBlocks_sound api fuel blockId s out s' :
  getAllBlocks fuel api blockId s = Some (Ok out, s') ->
  collected api blockId None out.
Proof.
  intros (out' & -> & H)%listBlocks_sound. exact H.
Qed.

Lemma getAllBlocks_sound_witness :
  collected sample_blocks (js "page") None
            [heading; toggle; first_child; second_child].
Proof.
  apply (getAllBlocks_sound sample_blocks 4 (js "page") init _
           (match getAllBlocks 4 sample_blocks (js "page") init with
            | Some (_, s') => s'
            | None => init
            end)).
  vm_compute. reflexivity.
Defined.

(** * Writing a record *)

Lemma obj_get_put_eq {A} k (v : A) o : obj_get k (obj_put k v o) = Some v.
Proof.
  induction o as [|[k' v'] o IH]; simpl.
  - by rewrite (proj2 (jstring_eqb_eq k k)).
  - destruct (jstring_eqb k k') eqn:E; simpl.
    + by rewrite (proj2 (jstring_eqb_eq k k)).
    + by rewrite E.
Qed.

Lemma obj_get_put_ne {A} k k' (v : A) o :
  k <> k' -> obj_get k (obj_put k' v o) = obj_get k o.
Proof.
  intros Hne. induction o as [|[k0 v0] o IH]; simpl.
  - by rewrite (proj2 (jstring_eqb_neq k k')).
  - destruct (jstring_eqb k' k0) eqn:E; simpl.
    + apply jstring_eqb_eq in E as <-.
      by rewrite !(proj2 (jstring_eqb_neq k k')).
    + by rewrite IH.
Qed.

Lemma has_dup_cons_false a l :
  has_dup (a :: l) = false -> (a ∉ l) /\ has_dup l = false.
Proof.
  cbn [has_dup]. intros [Hex Hl]%orb_false_iff. split; [|done].
  intros Hin. apply list_elem_of_In in Hin.
  assert (existsb (jstring_eqb a) l = true); [|congruence].
  apply existsb_exists. exists a. split; [done|]. by apply jstring_eqb_eq.
Qed.

(** A row written with distinct columns holds each value under its
    column, and keeps what it had elsewhere. *)
Lemma row_update_get cols vals old :
  has_dup cols = false -> length vals = length cols ->
  forall k,
    obj_get k (row_update cols vals old)
    = match obj_get k (combine cols vals) with
      | Some v => Some v
      | None => obj_get k old
      end.
Proof.
  unfold row_update. revert vals old.
  induction cols as [|c cols IH]; intros vals old Hdup Hlen k; [done|].
  destruct vals as [|v vals]; [done|]. injection Hlen as Hlen.
  apply has_dup_cons_false in Hdup as [Hc Hdup].
  cbn [combine fold_left fst snd obj_get]. rewrite (IH vals _ Hdup Hlen k).
  destruct (jstring_eqb k c) eqn:E.
  - apply jstring_eqb_eq in E as ->.
    assert (Hnone : obj_get c (combine cols vals) = None).
    { clear -Hc. revert vals. induction cols as [|c' cols IH]; intros vals; [done|].
      destruct vals as [|v' vals]; [done|]. apply not_elem_of_cons in Hc as [Hne Hc].
      cbn [combine obj_get]. rewrite (proj2 (jstring_eqb_neq c c')) by done.
      by apply IH. }
    by rewrite Hnone, obj_get_put_eq.
  - apply jstring_eqb_neq in E.
    destruct (obj_get k (combine cols vals)); [done|]. by apply obj_get_put_ne.
Qed.

Lemma obj_get_combine_map {A} (f : jstring -> A) cols col :
  col ∈ cols -> obj_get col (combine cols (List.map f cols)) = Some (f col).
Proof.
  induction cols as [|c cols IH]; [by intros ?%elem_of_nil|].
  cbn [List.map combine obj_get]. destruct (jstring_eqb col c) eqn:E.
  - apply jstring_eqb_eq in E as ->. done.
  - apply jstring_eqb_neq in E. intros [?|Hin]%elem_of_cons; [done|]. by apply IH.
Qed.

(** Names that differ in what the engine keeps of them differ. *)
Lemma has_dup_map (f : jstring -> jstring) l :
  has_dup (List.map f l) = false -> has_dup l = false.
Proof.
  induction l as [|a l IH]; [done|]. cbn [List.map has_dup].
  intros [Hex Hl]%orb_false_iff. apply orb_false_iff. split; [|by apply IH].
  apply not_true_iff_false. intros (x & Hin & Heq)%existsb_exists.
  apply jstring_eqb_eq in Heq as <-. apply not_true_iff_false in Hex. apply Hex.
  apply existsb_exists. exists (f a). split; [by apply in_map|].
  by apply jstring_eqb_eq.
Qed.

Lemma upsert_stmt_row sql t record columns db rows db' :
  pg_run sql (upsert_stmt t record columns) db = (Ok rows, db') ->
  has_dup ([js "notion_page_id"; js "page_content"; js "synced_at"] ++ columns) = false
  /\ exists row,
       rows_of db' t !! notion_page_id record = Some row
       /\ obj_get (js "notion_page_id") row = Some (VStr (notion_page_id record))
       /\ obj_get (js "page_content") row = Some (VStr (page_content record))
       /\ obj_get (js "synced_at") row = Some (VStr (synced_at record))
       /\ (forall col v, col ∈ columns ->
             obj_get col (properties record) = Some v -> obj_get col row = Some v)
       /\ (forall id, id <> notion_page_id record ->
             rows_of db' t !! id = rows_of db t !! id).
Proof.
  unfold upsert_stmt.
  set (cols := [js "notion_page_id"; js "page_content"; js "synced_at"] ++ columns).
  set (vals := [VStr (notion_page_id record); VStr (page_content record);
                VStr (synced_at record)]
               ++ List.map (fun col => default VUndefined
                                         (obj_get col (properties record))) columns).
  intros Hrun. unfold pg_run in Hrun. unfold rows_of.
  destruct (db !! t) as [tbl|] eqn:Ht; [|done].
  destruct (negb (forallb _ cols)); [done|].
  destruct (has_dup (List.map pg_ident cols)) eqn:Hkept; [done|].
  pose proof (has_dup_map pg_ident cols Hkept) as Hdup.
  destruct (negb (existsb _ (pg_columns tbl))); [done|].
  destruct (negb (forallb _ (combine cols vals))); [done|].
  change (obj_get pk_name (combine cols vals))
    with (Some (VStr (notion_page_id record))) in Hrun.
  injection Hrun as _ <-. split; [done|].
  rewrite lookup_insert_eq. cbn [fmap option_fmap option_map
    default from_option id pg_rows]. rewrite lookup_insert_eq.
  assert (Hlen : length vals = length cols).
  { unfold vals, cols. rewrite !length_app, length_map. done. }
  pose proof (row_update_get cols vals (default [] (pg_rows tbl !! notion_page_id record))
                Hdup Hlen) as Hget.
  eexists. split; [reflexivity|].
  split; [by rewrite Hget|].
  assert (Hnd : (js "notion_page_id" ∉ columns) /\ (js "page_content" ∉ columns)
                /\ (js "synced_at" ∉ columns)).
  { unfold cols in Hdup. cbn [app] in Hdup.
    apply has_dup_cons_false in Hdup as [H1 Hdup].
    apply has_dup_cons_false in Hdup as [H2 Hdup].
    apply has_dup_cons_false in Hdup as [H3 Hdup].
    split; [|split].
    - intros Hin. apply H1. by do 2 right.
    - intros Hin. apply H2. by right.
    - done. }
  split; [by rewrite Hget|]. split; [by rewrite Hget|]. split.
  - intros col v Hin Hv. rewrite Hget. unfold cols, vals. cbn [app combine obj_get].
    destruct Hnd as (H1 & H2 & H3).
    rewrite !(proj2 (jstring_eqb_neq col _)) by (intros ->; done).
    rewrite (obj_get_combine_map _ columns col Hin). by rewrite Hv.
  - intros id Hne. by rewrite lookup_insert_ne.
Qed.

(** X26.  When [upsertRecord] completes, the row of the page in the table
    holds the identifier, the content and the timestamp of the record under
    the three reserved columns and, under each listed column for which the
    record has a property, the value of that property: columns and values
    are aligned.  Every other row and the columns of the table are as
    before, and the write is the last thing logged. *)
Theorem upsertRecord_round_trip sql t record columns s s' :
  upsertRecord sql t record columns s = (Ok tt, s') ->
  exists row,
    rows_of (tables s') t !! notion_page_id record = Some row
    /\ obj_get (js "notion_page_id") row = Some (VStr (notion_page_id record))
    /\ obj_get (js "page_content") row = Some (VStr (page_content record))
    /\ obj_get (js "synced_at") row = Some (VStr (synced_at record))
    /\ (forall col v, col ∈ columns ->
          obj_get col (properties record) = Some v -> obj_get col row = Some v)
    /\ (forall id, id <> notion_page_id record ->
          rows_of (tables s') t !! id = rows_of (tables s) t !! id)
    /\ columns_of (tables s') t = columns_of (tables s) t
    /\ last (trace s')
       = Some (EvLog INFO (js "db-queries")
                 (js "Upserted record: " ++ notion_page_id record)).
Proof.
  unfold upsertRecord, bind, sql_query.
  pose proof (pg_run_upsert_columns sql t
                ([js "notion_page_id"; js "page_content"; js "synced_at"] ++ columns)
                ([VStr (notion_page_id record); VStr (page_content record);
                  VStr (synced_at record)]
                 ++ List.map (fun col => default VUndefined
                                           (obj_get col (properties record))) columns)
                (tables s) t) as Hcols.
  fold (upsert_stmt t record columns) in Hcols.
  destruct (pg_run sql (upsert_stmt t record columns) (tables s))
    as [[rows|e] db] eqn:Hrun; [|done].
  unfold log, emit. cbn [tables trace snd] in *. intros [= <-]. cbn [tables trace].
  apply upsert_stmt_row in Hrun as (_ & row & H1 & H2 & H3 & H4 & H5 & H6).
  exists row. rewrite last_snoc. done.
Qed.

Lemma upsertRecord_round_trip_witness :
  exists row,
    rows_of (tables (upsertRecord lenient_sql sample_table sample_record
                                  [js "title"; js "status"] ready).2)
            sample_table !! js "p1" = Some row
    /\ obj_get (js "title") row = Some (VStr (js "Hello"))
    /\ obj_get (js "page_content") row = Some (VStr (js "# Hello")).
Proof.
  destruct (upsertRecord_round_trip lenient_sql sample_table sample_record
              [js "title"; js "status"] ready
              (upsertRecord lenient_sql sample_table sample_record
                            [js "title"; js "status"] ready).2)
    as (row & Hrow & _ & Hcontent & _ & Hprops & _).
  - vm_compute. reflexivity.
  - exists row. split; [exact Hrow|]. split; [|exact Hcontent].
    apply Hprops; [by left|reflexivity].
Defined.

(** * The client of the process *)

(** X27.  The first successful [getSqlClient] of a process validates the
    environment, connects with the validated URL and keeps the client:
    every later call returns that client without logging, validating or
    connecting, whatever has become of [process.env].  After
    [resetSqlClient] the next call connects again, with the URL validated
    the first time, and does not read [process.env] again. *)
Theorem getSqlClient_singleton rt w c w' :
  sqlClient (proc w) = None ->
  getSqlClient rt w = (Ok c, w') ->
  exists data,
    cachedEnv (proc w') = Some data
    /\ neon rt (NEON_DATABASE_URL data) = Ok c
    /\ (forall rt' pe' s,
          let later := {| proc := {| process_env := pe';
                                     cachedEnv := cachedEnv (proc w');
                                     sqlClient := sqlClient (proc w') |};
                          store := s |} in
          getSqlClient rt' later = (Ok c, later)
          /\ forall c',
               neon rt' (NEON_DATABASE_URL data) = Ok c' ->
               exists w'',
                 wbind resetSqlClient (fun _ => getSqlClient rt') later = (Ok c', w'')
                 /\ sqlClient (proc w'') = Some c'
                 /\ cachedEnv (proc w'') = Some data).
Proof.
  intros Hnone. unfold getSqlClient at 1. rewrite Hnone.
  unfold wbind at 1, in_store at 1, log, emit. cbn [proc store tables trace].
  unfold wbind at 1.
  match goal with |- context [env_get rt NEON_DATABASE_URL ?w0] =>
    destruct (env_get rt NEON_DATABASE_URL w0) as [[url|e] wa] eqn:Henv; [|done];
    apply env_get_ok in Henv as (data & Hdata & -> & Hsqla & Hstorea & _)
  end.
  unfold wbind at 1, in_store at 1, lift.
  destruct (neon rt (NEON_DATABASE_URL data)) as [c0|e] eqn:Hneon; [|done].
  unfold wbind, set_sqlClient, wret. cbn [proc store]. intros [= <- <-].
  cbn [proc cachedEnv sqlClient]. exists data. split; [done|]. split; [done|].
  intros rt' pe' s. split.
  - by apply getSqlClient_ready.
  - intros c' Hneon'.
    unfold resetSqlClient, getSqlClient, wbind, in_store, log, emit, lift, env_get,
      set_sqlClient, wret.
    cbn [proc store sqlClient cachedEnv process_env tables trace].
    rewrite Hdata. cbn [proc store sqlClient cachedEnv process_env]. rewrite Hneon'.
    eexists. split; [reflexivity|]. cbn [proc sqlClient cachedEnv]. done.
Qed.

Lemma getSqlClient_singleton_witness :
  exists w',
    getSqlClient sample_runtime sample_world = (Ok lenient_sql, w')
    /\ getSqlClient sample_runtime
         {| proc := {| process_env := invalid_env;
                       cachedEnv := cachedEnv (proc w');
                       sqlClient := sqlClient (proc w') |};
            store := init |}
       = (Ok lenient_sql,
          {| proc := {| process_env := invalid_env;
                        cachedEnv := cachedEnv (proc w');
                        sqlClient := sqlClient (proc w') |};
             store := init |}).
Proof.
  eexists. split; [reflexivity|].
  destruct (getSqlClient_singleton sample_runtime sample_world lenient_sql
              (getSqlClient sample_runtime sample_world).2 eq_refl eq_refl)
    as (data & _ & _ & Hlater).
  exact (proj1 (Hlater sample_runtime invalid_env init)).
Defined.

(** * What a synced page leaves in the table *)

Lemma obj_get_set_eq {A} k (v : A) o :
  k <> js "__proto__" -> obj_get k (obj_set k v o) = Some v.
Proof.
  intros Hk. unfold obj_set. rewrite (proj2 (jstring_eqb_neq _ _)) by done.
  apply obj_get_put_eq.
Qed.

Lemma obj_get_set_ne {A} k k' (v : A) o :
  k <> k' -> obj_get k (obj_set k' v o) = obj_get k o.
Proof.
  intros Hk. unfold obj_set. destruct (jstring_eqb k' _); [done|].
  by apply obj_get_put_ne.
Qed.

Lemma extract_all_keeps m pageProps acc props col :
  extract_all m pageProps acc = Ok props ->
  col ∉ List.map columnName (obj_values m) ->
  obj_get col props = obj_get col acc.
Proof.
  revert acc. induction m as [|[name pm] rest IH]; intros acc Hrun Hcol.
  { by injection Hrun as <-. }
  cbn [obj_values fmap list_fmap snd List.map] in Hcol.
  apply not_elem_of_cons in Hcol as [Hne Hcol].
  cbn [extract_all] in Hrun.
  destruct (truthy (default VUndefined (obj_get name pageProps))).
  - destruct (extract_result _) as [v|e]; [|done]. cbn [res_bind] in Hrun.
    rewrite (IH _ Hrun Hcol). by apply obj_get_set_ne.
  - by apply IH.
Qed.

Lemma extract_all_get m pageProps acc props name pm v :
  extract_all m pageProps acc = Ok props ->
  has_dup (List.map columnName (obj_values m)) = false ->
  (name, pm) ∈ m ->
  columnName pm <> js "__proto__" ->
  truthy (default VUndefined (obj_get name pageProps)) = true ->
  extract_result (default VUndefined (obj_get name pageProps)) = Ok v ->
  obj_get (columnName pm) props = Some v.
Proof.
  revert acc. induction m as [|[name' pm'] rest IH];
    intros acc Hrun Hdup Hin Hproto Htruthy Hv; [by apply elem_of_nil in Hin|].
  cbn [obj_values fmap list_fmap snd List.map] in Hdup.
  apply has_dup_cons_false in Hdup as [Hfresh Hdup].
  cbn [extract_all] in Hrun.
  apply elem_of_cons in Hin as [[= <- <-]|Hin].
  - rewrite Htruthy, Hv in Hrun. cbn [res_bind] in Hrun.
    rewrite (extract_all_keeps _ _ _ _ _ Hrun Hfresh). by apply obj_get_set_eq.
  - destruct (truthy (default VUndefined (obj_get name' pageProps))).
    + destruct (extract_result (default VUndefined (obj_get name' pageProps)))
        as [v'|e]; [|done].
      cbn [res_bind] in Hrun. by eapply IH.
    + by eapply IH.
Qed.

Lemma has_dup_app_r l1 l2 : has_dup (l1 ++ l2) = false -> has_dup l2 = false.
Proof.
  induction l1 as [|a l1 IH]; [done|]. cbn [app].
  intros [_ H]%has_dup_cons_false. by apply IH.
Qed.

(** X28.  A record counted as processed is in the table as the page had
    it: its row holds the page identifier, the markdown of the page (the
    empty string when the conversion failed), the time of the invocation
    and, under the column of every mapped property the page has, the value
    extracted from that property.  Whatever the row held before under those
    columns is overwritten. *)
Theorem processPage_writes_page notion sql t m r page pageProps s r' s' :
  page_properties page = Some pageProps ->
  processPage notion sql t m (List.map columnName (obj_values m)) r page s
  = (Ok r', s') ->
  processedCount r' = S (processedCount r) ->
  exists row,
    rows_of (tables s') t !! page_id page = Some row
    /\ obj_get (js "notion_page_id") row = Some (VStr (page_id page))
    /\ obj_get (js "page_content") row
       = Some (VStr (match n2m_parent notion SKIP_TYPES (page_id page) with
                     | Ok (Some content) => content
                     | _ => []
                     end))
    /\ obj_get (js "synced_at") row = Some (VStr (now notion))
    /\ forall name pm v,
         (name, pm) ∈ m ->
         columnName pm <> js "__proto__" ->
         truthy (default VUndefined (obj_get name pageProps)) = true ->
         extract_result (default VUndefined (obj_get name pageProps)) = Ok v ->
         obj_get (columnName pm) row = Some v.
Proof.
  intros Hprops Hrun Hcount. unfold processPage in Hrun. rewrite Hprops in Hrun.
  unfold try_catch, bind at 1 in Hrun.
  destruct (syncPage_outcome notion sql t m (List.map columnName (obj_values m))
              (page_id page) pageProps s) as (s1 & Hsync & Ht).
  rewrite Hsync in Hrun. unfold page_outcome in Hsync, Ht, Hrun.
  destruct (extract_all m pageProps []) as [extracted|e] eqn:Hextract.
  2: { unfold bind, log, emit, ret in Hrun. injection Hrun as <- <-.
       cbn [processedCount] in Hcount. lia. }
  destruct (pg_run sql _ (tables s)) as [[rows|e] db'] eqn:Hpg; cbn [fst snd] in *.
  2: { unfold bind, log, emit, ret in Hrun. injection Hrun as <- <-.
       cbn [processedCount] in Hcount. lia. }
  unfold ret in Hrun. injection Hrun as _ <-. rewrite Ht.
  apply upsert_stmt_row in Hpg as (Hdup & row & Hrow & Hid & Hcontent & Htime & Hvals & _).
  cbn [notion_page_id page_content synced_at properties] in *.
  exists row. split; [done|]. split; [done|].
  split.
  { rewrite Hcontent. unfold markdown_of.
    by destruct (n2m_parent notion SKIP_TYPES (page_id page)) as [[c|]|]. }
  split; [done|].
  intros name pm v Hin Hproto Htruthy Hv.
  apply Hvals.
  - apply list_elem_of_In, in_map. apply list_elem_of_In.
    unfold obj_values. apply list_elem_of_fmap. by exists (name, pm).
  - eapply extract_all_get; eauto. by apply (has_dup_app_r [_; _; _]) in Hdup.
Qed.

Lemma processPage_writes_page_witness :
  exists row,
    rows_of (tables (processPage (sample_client sample_schema nothing_more)
                                 lenient_sql sample_table (mapping_of sample_schema)
                                 [js "title"; js "status"] no_result hello_page
                                 ready).2)
            sample_table !! js "p1" = Some row
    /\ obj_get (js "title") row = Some (VStr (js "Hello"))
    /\ obj_get (js "status") row = Some (VStr (js "Done")).
Proof.
  destruct (processPage_writes_page
              (sample_client sample_schema nothing_more) lenient_sql sample_table
              (mapping_of sample_schema) no_result hello_page
              [(js "Title", title_of (js "Hello"));
               (js "Status", select_of (js "Done"))]
              ready
              {| processedCount := 1; errorCount := 0; errors := [] |}
              (processPage (sample_client sample_schema nothing_more)
                           lenient_sql sample_table (mapping_of sample_schema)
                           [js "title"; js "status"] no_result hello_page ready).2)
    as (row & Hrow & _ & _ & _ & Hvals).
  - reflexivity.
  - vm_compute. reflexivity.
  - reflexivity.
  - exists row. split; [exact Hrow|]. split.
    + apply (Hvals (js "Title") {| notionType := P_title; postgresType := js "TEXT";
                                   columnName := js "title" |});
        [by left|done|reflexivity|reflexivity].
    + apply (Hvals (js "Status") {| notionType := P_select; postgresType := js "TEXT";
                                    columnName := js "status" |});
        [by right; left|done|reflexivity|reflexivity].
Defined.

(** * A page that cannot be read *)

Lemma malformed_truthy p : malformed_list p = true -> truthy p = true.
Proof. by destruct p. Qed.

Lemma extract_all_malformed m pageProps acc name pm :
  (name, pm) ∈ m ->
  malformed_list (default VUndefined (obj_get name pageProps)) = true ->
  exists msg, extract_all m pageProps acc = Throw (TypeError msg).
Proof.
  revert acc. induction m as [|[name' pm'] rest IH]; intros acc Hin Hbad;
    [by apply elem_of_nil in Hin|].
  cbn [extract_all].
  pose proof (extract_result_raises (default VUndefined (obj_get name' pageProps))) as Hhead.
  apply elem_of_cons in Hin as [[= <- <-]|Hin].
  - rewrite (malformed_truthy _ Hbad). rewrite Hbad in Hhead.
    destruct Hhead as (msg & ->). by exists msg.
  - destruct (truthy (default VUndefined (obj_get name' pageProps))); [|by apply IH].
    destruct (malformed_list (default VUndefined (obj_get name' pageProps))).
    + destruct Hhead as (msg & ->). by exists msg.
    + destruct Hhead as [(v & ->)|(_ & msg & ->)]; [|by exists msg].
      cbn [res_bind]. by apply IH.
Qed.

Lemma extractPropertyValue_trace p s :
  exists tr,
    extractPropertyValue p s
    = (extract_result p, {| tables := tables s; trace := trace s ++ tr |})
    /\ Forall reader_warning tr.
Proof.
  assert (Heta : s = {| tables := tables s; trace := trace s ++ [] |}).
  { destruct s. cbn [tables trace]. by rewrite app_nil_r. }
  destruct p as [| | | | |items|fs];
    try (exists []; split; [cbn [extractPropertyValue ret extract_result];
                            by rewrite <- Heta|done]).
  - exists [EvLog WARN (js "page-reader") (js "Unknown property type: undefined")].
    split; [reflexivity|]. apply Forall_singleton. by eexists.
  - unfold extractPropertyValue, extract_result, bind, lift, res_bind.
    rewrite member_obj.
    destruct (if default VUndefined (obj_get (js "type") fs) is VStr tag
              then property_type_of tag else None) as [t|].
    + exists []. split; [by rewrite <- Heta|done].
    + destruct (toString _) as [text|e];
        [|exists []; split; [by rewrite <- Heta|done]].
      eexists [_]. unfold log, emit, bind, ret. split; [reflexivity|].
      apply Forall_singleton. by eexists.
Qed.

Lemma for_of_extract_entry_trace m pageProps acc s :
  exists tr,
    for_of m acc (extract_entry pageProps) s
    = (extract_all m pageProps acc,
       {| tables := tables s; trace := trace s ++ tr |})
    /\ Forall reader_warning tr.
Proof.
  revert acc s. induction m as [|[name pm] rest IH]; intros acc s.
  { exists []. split; [|done]. destruct s. cbn [for_of ret extract_all tables trace].
    by rewrite app_nil_r. }
  change (for_of ((name, pm) :: rest) acc (extract_entry pageProps) s)
    with (bind (extract_entry pageProps acc (name, pm))
               (fun acc' => for_of rest acc' (extract_entry pageProps)) s).
  unfold bind at 1. unfold extract_entry at 1. cbn [extract_all].
  destruct (truthy (default VUndefined (obj_get name pageProps))).
  - unfold bind at 1.
    destruct (extractPropertyValue_trace
                (default VUndefined (obj_get name pageProps)) s)
      as (tr1 & -> & H1).
    destruct (extract_result _) as [v|e]; cbn [res_bind].
    + unfold ret at 1.
      destruct (IH (obj_set (columnName pm) v acc)
                   {| tables := tables s; trace := trace s ++ tr1 |})
        as (tr2 & -> & H2).
      exists (tr1 ++ tr2). cbn [tables trace]. rewrite app_assoc.
      split; [done|]. by apply Forall_app.
    + by exists tr1.
  - unfold ret at 1. apply IH.
Qed.

(** X29.  A page with a mapped property that is a malformed list (a title,
    rich_text, multi_select, relation, people or files payload that is not
    a list, or a list with a hole) is counted as an error, with a TypeError
    in its message, and is given up at once: no markdown conversion is
    asked for and nothing is sent to Postgres for it.  All it leaves in the
    log are warnings of the property reader and the error line. *)
Theorem processPage_malformed_property notion sql t m cols r page pageProps name pm s :
  page_properties page = Some pageProps ->
  (name, pm) ∈ m ->
  malformed_list (default VUndefined (obj_get name pageProps)) = true ->
  exists msg tr,
    processPage notion sql t m cols r page s
    = (Ok {| processedCount := processedCount r;
             errorCount := S (errorCount r);
             errors := errors r
                       ++ [js "Page " ++ page_id page ++ js ": "
                           ++ render_exn (TypeError msg)] |},
       {| tables := tables s;
          trace := trace s ++ tr
                   ++ [EvLog ERROR sync_log
                         (js "Failed to sync page: " ++ js "Page " ++ page_id page
                          ++ js ": " ++ render_exn (TypeError msg))] |})
    /\ Forall reader_warning tr.
Proof.
  intros Hprops Hin Hbad.
  destruct (extract_all_malformed m pageProps [] name pm Hin Hbad) as (msg & Hthrow).
  unfold processPage. rewrite Hprops. unfold try_catch, bind at 1, syncPage.
  unfold bind at 1.
  destruct (for_of_extract_entry_trace m pageProps [] s) as (tr & -> & Htr).
  rewrite Hthrow. exists msg, tr. split; [|done].
  unfold bind, log, emit, ret. cbn [tables trace]. by rewrite <- app_assoc.
Qed.

Lemma processPage_malformed_property_witness :
  (processPage (sample_client sample_schema nothing_more) lenient_sql sample_table
               (mapping_of sample_schema) [js "title"; js "status"] no_result
               holed_page ready).1
  = Ok {| processedCount := 0; errorCount := 1;
          errors := [js "Page p9: TypeError: Cannot read properties of null (reading 'plain_text')"] |}.
Proof.
  destruct (processPage_malformed_property
              (sample_client sample_schema nothing_more) lenient_sql sample_table
              (mapping_of sample_schema) [js "title"; js "status"] no_result
              holed_page
              [(js "Title", VObj [(js "type", VStr (js "title"));
                                  (js "title", VArr [VNull])])]
              (js "Title") {| notionType := P_title; postgresType := js "TEXT";
                              columnName := js "title" |} ready)
    as (msg & tr & Hrun & _).
  - reflexivity.
  - by left.
  - reflexivity.
  - vm_compute. reflexivity.
Defined.

(** * Instances on the sample database *)

Lemma syncSchema_only_grows_witness :
  grown_at sample_table (tables legacy)
           (tables (syncSchema lenient_sql sample_table
                               (mapping_of sample_schema) legacy).2).
Proof.
  apply (proj2 (syncSchema_only_grows lenient_sql sample_table
                  (mapping_of sample_schema))).
Defined.

Lemma runSync_never_loses_witness :
  extended_at sample_table (tables ready)
              (tables (runSync (sample_client sample_schema five_pages) lenient_sql
                               sample_options (Some watermark_state) ready).2).
Proof.
  apply (runSync_never_loses (sample_client sample_schema five_pages) lenient_sql
           sample_options (Some watermark_state)).
Defined.
